(** * Slot availability of the salon booking app (src/app.py)

    A shallow embedding of the scheduling core of [app.py]: the time parser
    [to_time], the interval test [overlaps], the catalogue folds
    [calc_duracion] / [calc_precio], the slot generator [generar_slots] and
    the past-time filter [filter_future_slots].

    Conventions of the embedding.
    - Python [str] values are [string]s of ASCII characters; the text of
      [slugify], which is applied to names, is a list of code points.
    - A [date] is its proleptic Gregorian ordinal ([date.toordinal()]),
      a [datetime] is the number of microseconds [ordinal * 86400e6 +
      time of day], a [timedelta] a number of microseconds.  The range
      checks of the [datetime] module are written out: they raise
      [OverflowError].
    - A pandas frame is the list of its rows; [df.empty] is [df = []].
      The numeric columns of the catalogue are [int64]: their sums wrap
      around at 64 bits.
    - A [datetime.time] is always true in a test ([if not ti]), as it is
      since Python 3.5; only [None] is false there.
    - A call either returns, raises, or (for the [while] loop of
      [generar_slots]) is still running when the fuel is spent. *)

From Stdlib Require Import ZArith Lia Ascii String List.
From stdpp Require Import base option list sorting gmap strings.

Local Open Scope Z_scope.

(** ** Outcomes of a call *)

Inductive exn : Set := ValueError | OverflowError.

Inductive outcome (A : Type) : Type :=
| Ok (a : A)
| Raise (e : exn)
| OutOfFuel.
Arguments Ok {A} a.
Arguments Raise {A} e.
Arguments OutOfFuel {A}.

Definition obind {A B} (m : outcome A) (k : A → outcome B) : outcome B :=
  match m with
  | Ok a => k a
  | Raise e => Raise e
  | OutOfFuel => OutOfFuel
  end.

Notation "'let!' x ':=' m 'in' k" := (obind m (fun x => k))
  (at level 10, x pattern, m at level 100, k at level 200).

(** [try: body except Exception: handler] *)
Definition try_except {A} (body : outcome A) (handler : exn → outcome A) : outcome A :=
  match body with
  | Raise e => handler e
  | r => r
  end.

(** ** The pieces of the Python runtime that the program calls *)

Module Py.

(** [str.isspace] on ASCII: TAB..CR, FS..US and the blank. *)
Definition isspace (c : ascii) : bool :=
  let n := Z.of_nat (nat_of_ascii c) in
  ((9 <=? n) && (n <=? 13)) || ((28 <=? n) && (n <=? 32)).

Definition isdigit (c : ascii) : bool :=
  let n := Z.of_nat (nat_of_ascii c) in
  (48 <=? n) && (n <=? 57).

Definition digit_value (c : ascii) : Z := Z.of_nat (nat_of_ascii c) - 48.

Fixpoint lstrip (s : list ascii) : list ascii :=
  match s with
  | c :: r => if isspace c then lstrip r else s
  | [] => []
  end.

Definition rstrip (s : list ascii) : list ascii := rev (lstrip (rev s)).

(** [s.strip()] *)
Definition strip (s : list ascii) : list ascii := rstrip (lstrip s).

(** [c in s] for a one-character [c] *)
Definition contains (c : ascii) (s : list ascii) : bool :=
  existsb (Ascii.eqb c) s.

(** [s.split(c)] for a one-character separator: always at least one field *)
Fixpoint split (c : ascii) (s : list ascii) : list (list ascii) :=
  match s with
  | [] => [[]]
  | x :: r =>
      if Ascii.eqb x c then [] :: split c r
      else match split c r with
           | f :: fs => (x :: f) :: fs
           | [] => [[x]]
           end
  end.

(** The digit part of an [int] literal in base 10: digits, with single
    underscores allowed between two digits.  [prev_digit] tells whether
    the previous character was a digit, [acc] is the value so far. *)
Fixpoint int_digits (prev_digit : bool) (acc : Z) (s : list ascii) : outcome Z :=
  match s with
  | [] => if prev_digit then Ok acc else Raise ValueError
  | c :: r =>
      if isdigit c then int_digits true (10 * acc + digit_value c) r
      else if Ascii.eqb c "_" then
        (if prev_digit then int_digits false acc r else Raise ValueError)
      else Raise ValueError
  end.

(** White space as [int] skips it around a literal ([Py_ISSPACE] of the C
    runtime): TAB..CR and the blank.  FS..US, which [str.strip] removes,
    are refused there. *)
Definition isspace_c (c : ascii) : bool :=
  let n := Z.of_nat (nat_of_ascii c) in
  ((9 <=? n) && (n <=? 13)) || (n =? 32).

(** Removal of the characters of a class at both ends. *)
Fixpoint lstrip_by {A} (sp : A → bool) (s : list A) : list A :=
  match s with
  | c :: r => if sp c then lstrip_by sp r else s
  | [] => []
  end.

Definition strip_by {A} (sp : A → bool) (s : list A) : list A :=
  rev (lstrip_by sp (rev (lstrip_by sp s))).

Definition strip_c (s : list ascii) : list ascii := strip_by isspace_c s.

(** [sys.get_int_max_str_digits()]: a literal with more digits (leading
    zeros counted, underscores not) is a [ValueError]. *)
Definition MAX_STR_DIGITS : Z := 4300.

Definition int_literal (r : list ascii) : outcome Z :=
  if Z.of_nat (length (List.filter isdigit r)) <=? MAX_STR_DIGITS
  then int_digits false 0 r
  else Raise ValueError.

(** [int(s)] on a string: surrounding white space, an optional sign,
    then the digits; anything else is a [ValueError]. *)
Definition int (s : list ascii) : outcome Z :=
  match strip_c s with
  | "+"%char :: r =>
      (match r with
       | c :: _ => if isdigit c then int_literal r else Raise ValueError
       | [] => Raise ValueError
       end)
  | "-"%char :: r =>
      (match r with
       | c :: _ =>
           if isdigit c then let! n := int_literal r in Ok (- n)
           else Raise ValueError
       | [] => Raise ValueError
       end)
  | c :: r => if isdigit c then int_literal (c :: r) else Raise ValueError
  | [] => Raise ValueError
  end.

End Py.

(** ** The [datetime] module *)

Module Datetime.

(** [datetime.time]: every time built by the program has zero seconds
    and microseconds, so only the hour and the minute are kept. *)
Record time : Set := Hora { hour : Z; minute : Z }.

Abbreviation date := Z (only parsing).
Abbreviation datetime := Z (only parsing).
Abbreviation timedelta := Z (only parsing).

Definition US_PER_MINUTE : Z := 60000000.
Definition US_PER_HOUR : Z := 3600000000.
Definition US_PER_DAY : Z := 86400000000.
(** [date.max.toordinal()], 9999-12-31 *)
Definition MAXORDINAL : Z := 3652059.
(** largest number of days of a [timedelta] *)
Definition MAX_DELTA_DAYS : Z := 999999999.

Definition valid_time (t : time) : Prop :=
  0 <= hour t < 24 ∧ 0 <= minute t < 60.

(** [time(h, m)] *)
Definition mk_time (h m : Z) : outcome time :=
  if (0 <=? h) && (h <=? 23) && (0 <=? m) && (m <=? 59)
  then Ok (Hora h m) else Raise ValueError.

(** A [timedelta] of [us] microseconds, normalised: its days must lie
    within [-999999999, 999999999]. *)
Definition mk_timedelta (us : Z) : outcome timedelta :=
  if (- MAX_DELTA_DAYS <=? us / US_PER_DAY) && (us / US_PER_DAY <=? MAX_DELTA_DAYS)
  then Ok us else Raise OverflowError.

(** [timedelta(minutes=n)] *)
Definition timedelta_minutes (n : Z) : outcome timedelta :=
  mk_timedelta (n * US_PER_MINUTE).

Definition time_us (t : time) : Z :=
  hour t * US_PER_HOUR + minute t * US_PER_MINUTE.

(** [datetime.combine(d, t)] *)
Definition combine (d : date) (t : time) : datetime :=
  d * US_PER_DAY + time_us t.

(** [x.date()] *)
Definition date_of (x : datetime) : date := x / US_PER_DAY.

(** [x + td]: the result must be a date of years 1..9999 *)
Definition add (x : datetime) (td : timedelta) : outcome datetime :=
  let r := x + td in
  if (1 <=? r / US_PER_DAY) && (r / US_PER_DAY <=? MAXORDINAL)
  then Ok r else Raise OverflowError.

(** [x - td], computed as [x + (-td)] *)
Definition sub (x : datetime) (td : timedelta) : outcome datetime :=
  let! n := mk_timedelta (- td) in add x n.

(** [d.isoweekday()]: [d.toordinal() % 7 or 7] *)
Definition isoweekday (d : date) : Z :=
  if d mod 7 =? 0 then 7 else d mod 7.

(** *** [datetime.strptime(s, "%H:%M").time()]

    The format compiles to the regular expression
    [(?P<H>2[0-3]|[0-1]\d|\d):(?P<M>[0-5]\d|\d)], matched at the start
    of [s] with the alternatives tried in order; the whole of [s] must
    be consumed. *)

Definition between (lo hi : Z) (c : ascii) : bool :=
  let n := Z.of_nat (nat_of_ascii c) in (lo <=? n) && (n <=? hi).

(** The ways [%H] matches a prefix of [s], in the order they are tried:
    the value read and the rest of the input. *)
Definition match_H (s : list ascii) : list (Z * list ascii) :=
  match s with
  | c1 :: r1 =>
      (match r1 with
       | c2 :: r2 =>
           (if Ascii.eqb c1 "2" && between 48 51 c2
            then [(20 + Py.digit_value c2, r2)] else []) ++
           (if between 48 49 c1 && Py.isdigit c2
            then [(10 * Py.digit_value c1 + Py.digit_value c2, r2)] else [])
       | [] => []
       end) ++
      (if Py.isdigit c1 then [(Py.digit_value c1, r1)] else [])
  | [] => []
  end.

Definition match_M (s : list ascii) : list (Z * list ascii) :=
  match s with
  | c1 :: r1 =>
      (match r1 with
       | c2 :: r2 =>
           if between 48 53 c1 && Py.isdigit c2
           then [(10 * Py.digit_value c1 + Py.digit_value c2, r2)] else []
       | [] => []
       end) ++
      (if Py.isdigit c1 then [(Py.digit_value c1, r1)] else [])
  | [] => []
  end.

Definition match_colon (s : list ascii) : list (list ascii) :=
  match s with
  | c :: r => if Ascii.eqb c ":" then [r] else []
  | [] => []
  end.

(** All matches of the expression, first match first. *)
Definition match_HM (s : list ascii) : list (Z * Z * list ascii) :=
  '(h, r1) ← match_H s;
  r2 ← match_colon r1;
  '(m, r3) ← match_M r2;
  [(h, m, r3)].

Definition strptime_HM (s : list ascii) : outcome time :=
  match match_HM s with
  | (h, m, rest) :: _ =>
      (* "unconverted data remains" *)
      match rest with
      | [] => mk_time h m
      | _ :: _ => Raise ValueError
      end
  | [] => Raise ValueError
  end.

End Datetime.

Import Datetime.

Definition str (s : string) : list ascii := list_ascii_of_string s.

(** ** Configuration *)

Definition SLOT_STEP_MIN : Z := 10.
Definition BUFFER_MIN_DEFAULT : Z := 5.

(** A window of the weekly table: its opening and closing time, as text. *)
Abbreviation tramo := (string * string)%type (only parsing).

(** Weekly availability, 1 = Monday ... 7 = Sunday; Sunday has no entry. *)
Definition DEFAULT_DISPONIBILIDAD_CODE : gmap Z (list tramo) :=
  <[1 := [("09:00", "13:00"); ("14:00", "17:00")]]>
  (<[2 := [("09:00", "17:00")]]>
  (<[3 := [("09:00", "17:00")]]>
  (<[4 := [("09:00", "17:00")]]>
  (<[5 := [("09:00", "15:00")]]>
  (<[6 := [("09:00", "15:00")]]> ∅))))).

(** [d.get(k, dflt)] *)
Definition dict_get {V} (d : gmap Z V) (k : Z) (dflt : V) : V :=
  match d !! k with
  | Some v => v
  | None => dflt
  end.

(** ** Rows of the tables *)

(** A row of [turnos]; [fecha] is [None] where the stored text was not a
    date ([NaT] after [pd.to_datetime(..., errors="coerce")]). *)
Record turno : Set := Turno {
  fecha : option date;
  inicio : string;
  fin : string;
  estado : string
}.

(** A row of [servicios]. *)
Record servicio : Set := Servicio {
  tipo : string;
  zona : string;
  duracion_min : Z;
  precio : Z
}.

(** [df.empty] *)
Definition empty {A} (df : list A) : bool :=
  match df with
  | [] => true
  | _ :: _ => false
  end.

(** [x in xs] / [Series.isin(xs)] on text *)
Definition isin (x : string) (xs : list string) : bool :=
  existsb (String.eqb x) xs.

(** ** Utilities *)

Definition to_time (hhmm : string) : outcome (option time) :=
  let s := Py.strip (str hhmm) in
  if empty s || negb (Py.contains ":" s) then Ok None
  else
    try_except
      (match firstn 2 (Py.split ":" s) with
       | [hh; mm] =>
           let! h := Py.int hh in
           let! m := Py.int mm in
           let! t := mk_time h m in
           Ok (Some t)
       | _ => Raise ValueError   (* the unpacking needs two fields *)
       end)
      (fun _ => Ok None).

Definition overlaps (start1 end1 start2 end2 : Z) : bool :=
  (start1 <? end2) && (start2 <? end1).

(** ** Business logic *)

(** The two numeric columns of the catalogue are [int64] columns (the
    catalogue is read with [.astype(int)]): an entry lies in
    [-2^63, 2^63), and [Series.sum()] adds the entries in that type, with
    wrap-around.  [int(...)] then gives the Python integer of the same
    value. *)
Definition en_int64 (z : Z) : Prop := - 2 ^ 63 <= z < 2 ^ 63.

Definition wrap64 (z : Z) : Z := (z + 2 ^ 63) mod 2 ^ 64 - 2 ^ 63.

(** [Series.sum()] of an [int64] column *)
Definition sum_int64 (xs : list Z) : Z :=
  fold_left (λ acc x, wrap64 (acc + x)) xs 0.

(** The sum of the same numbers as integers without bound. *)
Definition sum_Z (xs : list Z) : Z := fold_left Z.add xs 0.

Definition calc_duracion (servicios_df : list servicio) (tipo0 : string)
    (zonas : list string) : Z :=
  if empty servicios_df then 0
  else
    let sel := List.filter
                 (fun r => String.eqb (tipo r) tipo0 && isin (zona r) zonas)
                 servicios_df in
    if negb (empty sel) then sum_int64 (map duracion_min sel) else 0.

Definition calc_precio (servicios_df : list servicio) (tipo0 : string)
    (zonas : list string) : Z :=
  if empty servicios_df then 0
  else
    let sel := List.filter
                 (fun r => String.eqb (tipo r) tipo0 && isin (zona r) zonas)
                 servicios_df in
    if negb (empty sel) then sum_int64 (map precio sel) else 0.

(** [date == date] on a column entry *)
Definition fecha_eq (f : option date) (d : date) : bool :=
  match f with
  | Some x => x =? d
  | None => false
  end.

(** The mask [(turnos_df["fecha"] == date_obj) &
    (~turnos_df["estado"].isin(["Cancelado"]))] on one row. *)
Definition bloquea (date_obj : date) (t : turno) : bool :=
  fecha_eq (fecha t) date_obj && negb (isin (estado t) ["Cancelado"%string]).

(** The rows that block time on [date_obj]: every row of that date whose
    state is not "Cancelado". *)
Definition activos_de (date_obj : date) (turnos_df : list turno) : list turno :=
  if negb (empty turnos_df) then List.filter (bloquea date_obj) turnos_df
  else [].

(** [seen.setdefault(k, v)]: the value returned and the dictionary after *)
Definition setdefault (seen : gmap Z Z) (k v : Z) : Z * gmap Z Z :=
  match seen !! k with
  | Some v' => (v', seen)
  | None => (v, <[k := v]> seen)
  end.

(** [[seen.setdefault(x, x) for x in result if x not in seen]] *)
Fixpoint unicos (seen : gmap Z Z) (result : list datetime) : list datetime :=
  match result with
  | [] => []
  | x :: rest =>
      match seen !! x with
      | None => let '(y, seen') := setdefault seen x x in y :: unicos seen' rest
      | Some _ => unicos seen rest
      end
  end.

(** The lookup of the day's windows made by [generar_slots]:
    [DEFAULT_DISPONIBILIDAD_CODE.get(weekday, [])]. *)
Definition windowsFor (disponibilidad : gmap Z (list tramo)) (weekday : Z)
    : outcome (list tramo) :=
  Ok (dict_get disponibilidad weekday []).

Section Generator.

(** The weekly table and the buffer are module constants of the program;
    the generator is written over them and instantiated below. *)
Variable disponibilidad : gmap Z (list tramo).
Variable buffer_min : Z.

Section Candidate.
Variable date_obj : date.
Variables step dur buff : timedelta.
Variable activos : list turno.

(** The [try] block of the inner loop: both ends of the appointment. *)
Definition intervalo (t : turno) : outcome (datetime * datetime) :=
  let! ts := strptime_HM (str (inicio t)) in
  let t_start := combine date_obj ts in
  let! te := strptime_HM (str (fin t)) in
  let t_end := combine date_obj te in
  Ok (t_start, t_end).

(** The [for _, t in activos.iterrows()] loop: the final value of [ok]. *)
Fixpoint libre (c_start c_end : datetime) (rows : list turno) : outcome bool :=
  match rows with
  | [] => Ok true
  | t :: rest =>
      match intervalo t with
      | Ok (t_start, t_end) =>
          let! a := sub c_start buff in
          let! b := add c_end buff in
          if overlaps a b t_start t_end then Ok false   (* break *)
          else libre c_start c_end rest
      | Raise _ => libre c_start c_end rest             (* continue *)
      | OutOfFuel => OutOfFuel
      end
  end.

(** The [while current + dur <= end_window] loop of one window;
    [result] is the list built so far. *)
Fixpoint ventana (fuel : nat) (end_window current : datetime)
    (result : list datetime) : outcome (list datetime) :=
  match fuel with
  | O => OutOfFuel
  | S fuel' =>
      let! limit := add current dur in
      if limit <=? end_window then
        let c_start := current in
        let! c_end := add current dur in
        let! ok := (if negb (empty activos) then libre c_start c_end activos
                    else Ok true) in
        let result' := if ok then result ++ [c_start] else result in
        let! next := add current step in
        ventana fuel' end_window next result'
      else Ok result
  end.

(** The [for (ini, fin) in tramos] loop.  [if not ti or not tf] holds
    exactly when one of the two is [None]. *)
Fixpoint recorrer (fuel : nat) (tramos : list tramo) (result : list datetime)
    : outcome (list datetime) :=
  match tramos with
  | [] => Ok result
  | (ini, fin) :: rest =>
      let! ti := to_time ini in
      let! tf := to_time fin in
      match ti, tf with
      | Some ti, Some tf =>
          let start_dt := combine date_obj ti in
          let end_window := combine date_obj tf in
          let! result' := ventana fuel end_window start_dt result in
          recorrer fuel rest result'
      | _, _ => recorrer fuel rest result               (* continue *)
      end
  end.

End Candidate.

Definition generar_slots_en (fuel : nat) (date_obj : date) (dur_min : Z)
    (turnos_df : list turno) (slot_step_min : Z) : outcome (list datetime) :=
  if dur_min <=? 0 then Ok []
  else
    let weekday := isoweekday date_obj in
    let! tramos := windowsFor disponibilidad weekday in
    if empty tramos then Ok []
    else
      let activos := activos_de date_obj turnos_df in
      let! step := timedelta_minutes slot_step_min in
      let! dur := timedelta_minutes dur_min in
      let! buff := timedelta_minutes buffer_min in
      let! result := recorrer date_obj step dur buff activos fuel tramos [] in
      Ok (unicos ∅ result).

End Generator.

(** [generar_slots]: [fuel] bounds the number of turns of each [while] loop. *)
Definition generar_slots (fuel : nat) (date_obj : date) (dur_min : Z)
    (turnos_df : list turno) (slot_step_min : Z) : outcome (list datetime) :=
  generar_slots_en DEFAULT_DISPONIBILIDAD_CODE BUFFER_MIN_DEFAULT
    fuel date_obj dur_min turnos_df slot_step_min.

(** [filter_future_slots]; [now] is the value of [datetime.now()]. *)
Definition filter_future_slots (now : datetime) (date_obj : date)
    (slots : list datetime) : list datetime :=
  if empty slots then []
  else if date_obj =? date_of now then List.filter (fun s => now <? s) slots
  else slots.

(** ** Vocabulary of the statements *)

(** The windows of a day that [generar_slots] can read, in order. *)
Fixpoint ventanas_legibles (tramos : list tramo) : list (time * time) :=
  match tramos with
  | [] => []
  | (ini, fin) :: rest =>
      match to_time ini, to_time fin with
      | Ok (Some ti), Ok (Some tf) => (ti, tf) :: ventanas_legibles rest
      | _, _ => ventanas_legibles rest
      end
  end.

(** Windows in ascending order that do not overlap: each one closes no
    later than every later one opens. *)
Definition tramos_ordenados (tramos : list tramo) : Prop :=
  StronglySorted (λ w1 w2, time_us (snd w1) <= time_us (fst w2))
                 (ventanas_legibles tramos).

(** First instant that is not a [datetime]: 10000-01-01 00:00. *)
Definition LIMIT : Z := (MAXORDINAL + 1) * US_PER_DAY.

(** The same row with its state set to "Cancelado". *)
Definition cancelar (t : turno) : turno :=
  Turno (fecha t) (inicio t) (fin t) "Cancelado".

(** A row whose [inicio] or [fin] is not read by [strptime(..., "%H:%M")]. *)
Definition ilegible (t : turno) : Prop :=
  (∀ ts, strptime_HM (str (inicio t)) ≠ Ok ts) ∨
  (∀ te, strptime_HM (str (fin t)) ≠ Ok te).

(** A catalogue row is chosen when its type is the requested one and its
    zone is one of the requested zones. *)
Definition coincide (tipo0 : string) (zonas : list string) (r : servicio) : Prop :=
  tipo r = tipo0 ∧ zona r ∈ zonas.

Global Instance coincide_dec tipo0 zonas r : Decision (coincide tipo0 zonas r).
Proof. unfold coincide. apply _. Defined.

(** The total of the spec: the sum of a column over the chosen rows. *)
Fixpoint suma_de (campo : servicio → Z) (tipo0 : string) (zonas : list string)
    (catalogo : list servicio) : Z :=
  match catalogo with
  | [] => 0
  | r :: rest =>
      (if decide (coincide tipo0 zonas r) then campo r else 0)
      + suma_de campo tipo0 zonas rest
  end.

(** The slots of a call that returned, and nothing otherwise. *)
Definition slots_de (o : outcome (list datetime)) : list datetime :=
  match o with
  | Ok l => l
  | _ => []
  end.

(** *** Sample data *)

Definition at_ (d : date) (h m : Z) : datetime := combine d (Hora h m).

(** Hour and minute of an instant, as the booking screen shows it. *)
Definition hora_de (x : datetime) : Z * Z :=
  ((x mod US_PER_DAY) / US_PER_HOUR, (x mod US_PER_HOUR) / US_PER_MINUTE).

(** 2024-01-01, a Monday, and the day after *)
Definition lunes : date := 738886.
Definition martes : date := 738887.

Definition turno_ocupado : turno := Turno (Some martes) "10:00" "10:30" "Confirmado".
Definition turno_sucio : turno := Turno (Some martes) "10:00:00" "diez y media" "Confirmado".

(** A table whose Tuesday has a window that cannot be read. *)
Definition tabla_sucia : gmap Z (list tramo) :=
  {[ 2 := [("09:00", "10:00"); ("mediodia", "13:00"); ("14:00", "15:00")] ]}.

Definition catalogo_ejemplo : list servicio :=
  [Servicio "Depilacion" "Piernas" 30 9000;
   Servicio "Depilacion" "Brazos" 20 6000;
   Servicio "Facial" "Rostro" 40 12000].

(** A catalogue whose entries fit [int64] while their sum does not. *)
Definition catalogo_enorme : list servicio :=
  [Servicio "Depilacion" "Piernas" (2 ^ 62) (2 ^ 62);
   Servicio "Depilacion" "Brazos" (2 ^ 62) (2 ^ 62)].

(** ** The remaining utilities *)

Module Re.

(** [re.sub(r"[...]", repl, s)] for a pattern that is one character class:
    each matching character is replaced on its own. *)
Definition sub_chars {A} (cls : A → bool) (repl s : list A) : list A :=
  flat_map (λ c, if cls c then repl else [c]) s.

(** [re.sub(r"[...]+", repl, s)]: each maximal run of matching characters
    is replaced by one [repl].  [in_run] tells whether the previous
    character belonged to a run. *)
Fixpoint sub_runs {A} (cls : A → bool) (repl : list A) (in_run : bool)
    (s : list A) : list A :=
  match s with
  | [] => []
  | c :: r =>
      if cls c then
        (if in_run then sub_runs cls repl true r
         else repl ++ sub_runs cls repl true r)
      else c :: sub_runs cls repl false r
  end.

End Re.

(** *** [slugify]

    [slugify] is applied to names, which hold accented letters, so its
    text is not taken to be ASCII: it is the list of its code points.
    What the interpreter's Unicode tables answer is a parameter of the
    model: [isspace c] is [str.isspace] on one character (the class [\s],
    and what [str.strip] removes), [isalnum c] is [str.isalnum] on one
    character (the class [\w] is [isalnum] or the underscore), and
    [lower s] is [str.lower], which is not a map over the characters. *)

(** A text written in ASCII, as code points. *)
Definition ustr (s : string) : list Z :=
  map (λ c, Z.of_nat (nat_of_ascii c)) (str s).

(** The code points of "-" and "_". *)
Definition GUION : Z := 45.
Definition GUION_BAJO : Z := 95.

Section Slugify.

Variable isspace : Z → bool.
Variable isalnum : Z → bool.
Variable lower : list Z → list Z.

(** The character classes of [slugify]: [[^\w\s-]] and [[\s_-]]. *)
Definition slug_drop (c : Z) : bool :=
  negb ((isalnum c || (c =? GUION_BAJO)) || isspace c || (c =? GUION)).

Definition slug_sep (c : Z) : bool :=
  isspace c || (c =? GUION_BAJO) || (c =? GUION).

Definition slugify (text : list Z) : list Z :=
  let text1 := lower (Py.strip_by isspace text) in
  let text2 := Re.sub_chars slug_drop [] text1 in
  let text3 := Re.sub_runs slug_sep [GUION] false text2 in
  if negb (empty text3) then take 60 text3 else ustr "cliente".

End Slugify.

(** What the Unicode tables answer on ASCII, the code points below 128. *)
Definition ascii_isspace (c : Z) : bool :=
  ((9 <=? c) && (c <=? 13)) || ((28 <=? c) && (c <=? 32)).

Definition ascii_isalnum (c : Z) : bool :=
  ((48 <=? c) && (c <=? 57)) || ((65 <=? c) && (c <=? 90))
  || ((97 <=? c) && (c <=? 122)).

Definition ascii_lower (c : Z) : Z :=
  if (65 <=? c) && (c <=? 90) then c + 32 else c.

Definition es_ascii (s : list Z) : Prop := Forall (λ c, 0 <= c < 128) s.

(** Tables that answer on ASCII as every version of Unicode does. *)
Definition conforme (isspace isalnum : Z → bool) (lower : list Z → list Z) : Prop :=
  (∀ c, 0 <= c < 128 → isspace c = ascii_isspace c)
  ∧ (∀ c, 0 <= c < 128 → isalnum c = ascii_isalnum c)
  ∧ (∀ s, es_ascii s → lower s = map ascii_lower s).

(** Sample tables: the answers on Latin-1, the code points below 256 (NEL
    and the no-break space are spaces; the accented letters, the ordinal
    indicators, the micro sign, the superscript digits and the three
    fractions are alphanumeric; the capitals from 192 to 222, the
    multiplication sign apart, have their small letter 32 further).
    Beyond Latin-1 these tables know no space and no letter. *)
Definition latin1_isspace (c : Z) : bool :=
  ascii_isspace c || (c =? 133) || (c =? 160).

Definition latin1_isalnum (c : Z) : bool :=
  ascii_isalnum c
  || (c =? 170) || (c =? 178) || (c =? 179) || (c =? 181) || (c =? 185) || (c =? 186)
  || ((188 <=? c) && (c <=? 190))
  || ((192 <=? c) && (c <=? 255) && negb (c =? 215) && negb (c =? 247)).

Definition latin1_lower_char (c : Z) : Z :=
  if ((65 <=? c) && (c <=? 90)) || ((192 <=? c) && (c <=? 222) && negb (c =? 215))
  then c + 32 else c.

Definition latin1_lower (s : list Z) : list Z := map latin1_lower_char s.

(** "José Ñandú" and "josé-ñandú", as code points. *)
Definition nombre_ejemplo : list Z := [74; 111; 115; 233; 32; 209; 97; 110; 100; 250].
Definition slug_ejemplo : list Z := [106; 111; 115; 233; 45; 241; 97; 110; 100; 250].

(** [norm_phone]: [re.sub(r"\D+", "", s)] *)
Definition norm_phone (s : string) : string :=
  string_of_list_ascii (Re.sub_runs (λ c, negb (Py.isdigit c)) [] false (str s)).

(** ** The booking screen *)

(** Two decimal digits, zero padded. *)
Definition two_digits (n : Z) : list ascii :=
  [ascii_of_nat (Z.to_nat (48 + n / 10)); ascii_of_nat (Z.to_nat (48 + n mod 10))].

(** [x.strftime("%H:%M")] *)
Definition strftime_HM (x : datetime) : string :=
  let '(h, m) := hora_de x in
  string_of_list_ascii (two_digits h ++ ":"%char :: two_digits m).

(** [opciones = [s.strftime("%H:%M") for s in slots]] *)
Definition opciones (slots : list datetime) : list string := map strftime_HM slots.

(** [[s for s in slots if s.strftime("%H:%M") == sel_label][0]]; [None]
    stands for the [IndexError] of an empty selection. *)
Definition sel_dt (slots : list datetime) (sel_label : string) : option datetime :=
  head (List.filter (λ s, String.eqb (strftime_HM s) sel_label) slots).

(** The two time columns of the row written on confirmation. *)
Definition inicio_str (slot_dt : datetime) : string := strftime_HM slot_dt.

Definition fin_str (slot_dt : datetime) (duracion : Z) : outcome string :=
  let! td := timedelta_minutes duracion in
  let! fin_dt := add slot_dt td in
  Ok (strftime_HM fin_dt).

(** What the time step of the booking shows: the generated slots, past
    times of today removed. *)
Definition horarios (now : datetime) (fuel : nat) (fecha : date) (duracion : Z)
    (turnos_df : list turno) : outcome (list datetime) :=
  let! slots_all := generar_slots fuel fecha duracion turnos_df SLOT_STEP_MIN in
  Ok (filter_future_slots now fecha slots_all).

(** The row written when 09:00 of that Tuesday is booked for 30 minutes. *)
Definition turno_reserva : turno := Turno (Some martes) "09:00" "09:30" "Confirmado".

(** ** The first step of the booking: choosing the zones *)

(** Groups of zones of which one member at most is chosen. *)
Definition GROUP_RULES : list (string * list string) :=
  [("Piernas", ["Medias piernas"; "Piernas completas"]);
   ("Brazos", ["Brazos"; "Medio brazo"]);
   ("Rostro", ["Rostro completo"; "Cara"])].

(** [list(dict.fromkeys(xs))] and [Series.unique().tolist()]: the first
    occurrence of each text, in order; [seen] holds the keys met so far. *)
Fixpoint fromkeys (seen : gset string) (xs : list string) : list string :=
  match xs with
  | [] => []
  | x :: rest =>
      if decide (x ∈ seen) then fromkeys seen rest
      else x :: fromkeys ({[x]} ∪ seen) rest
  end.

(** [zonas_tipo]: the zones, not blank, of the catalogue rows of the type. *)
Definition zonas_tipo_de (servicios_df : list servicio) (tipo_sel : string) : list string :=
  fromkeys ∅
    (map zona
       (List.filter
          (λ r, String.eqb (tipo r) tipo_sel && negb (empty (Py.strip (str (zona r)))))
          servicios_df)).

(** [usados_en_grupos]: every member of every group. *)
Definition usados_en_grupos : list string := flat_map snd GROUP_RULES.

Section Zonas.

(** The two widgets of the page: [radio label options] answers one of the
    options, [multiselect options] a selection among the options. *)
Variable radio : string → list string → string.
Variable multiselect : list string → list string.

Variable zonas_tipo : list string.

Definition presentes (miembros : list string) : list string :=
  List.filter (λ m, isin m zonas_tipo) miembros.

(** The loop over the groups: the answers other than "Ninguna". *)
Fixpoint seleccion_grupos (rules : list (string * list string)) : list string :=
  match rules with
  | [] => []
  | (grupo, miembros) :: rest =>
      (if (2 <=? length (presentes miembros))%nat then
         let choice := radio grupo ("Ninguna"%string :: presentes miembros) in
         if negb (String.eqb choice "Ninguna") then [choice] else []
       else [])
      ++ seleccion_grupos rest
  end.

Definition zonas_sueltas : list string :=
  List.filter (λ z, negb (isin z usados_en_grupos)) zonas_tipo.

Definition zonas_extra : list string :=
  if negb (empty zonas_sueltas) then multiselect zonas_sueltas else [].

Definition zonas_final : list string :=
  fromkeys ∅ (seleccion_grupos GROUP_RULES ++ zonas_extra).

End Zonas.

(** [humanize_list]: the items that are not blank, joined by ", ". *)
Definition humanize_list (items : list string) : string :=
  if empty items then ""
  else String.concat ", "
         (List.filter (λ x, negb (empty (Py.strip (str x)))) items).

(** The types shown by the selector of the first step: the types of the
    catalogue that are not blank, the preferred ones first. *)
Definition prefer : list string := ["Descartable"; "Láser"].
(* The accented letter stands as its UTF-8 bytes: the preferred types are
   only compared for equality with the types of the catalogue. *)

Definition tipos_raw (servicios_df : list servicio) : list string :=
  List.filter (λ t, negb (empty (Py.strip (str t))))
    (fromkeys ∅ (map tipo servicios_df)).

Definition tipos (servicios_df : list servicio) : list string :=
  List.filter (λ t, isin t (tipos_raw servicios_df)) prefer
  ++ List.filter (λ t, negb (isin t prefer)) (tipos_raw servicios_df).

(** Sample answers of the widgets: the last option, and every option. *)
Definition radio_ultimo (label : string) (options : list string) : string :=
  List.last options "".

Definition multiselect_todo (options : list string) : list string := options.

Definition catalogo_zonas : list servicio :=
  [Servicio "Depilacion" "Medias piernas" 30 9000;
   Servicio "Depilacion" "Piernas completas" 50 15000;
   Servicio "Depilacion" "Brazos" 20 6000;
   Servicio "Depilacion" "Axilas" 10 4000;
   Servicio "Facial" "Cara" 40 12000].

(** A table whose Tuesday has two windows that overlap. *)
Definition tabla_solapada : gmap Z (list tramo) :=
  {[ 2 := [("09:00", "11:00"); ("10:00", "12:00")] ]}.

(** ** More vocabulary *)

(** [s] is a candidate of the window [w] of day [d]: [k] steps after its
    opening, and ending no later than its closing. *)
Definition en_ventana (d : date) (step dur : timedelta) (w : time * time)
    (s : datetime) : Prop :=
  ∃ k, 0 <= k ∧ s = combine d (fst w) + k * step ∧ s + dur <= combine d (snd w).

(** No blocking row of [turnos] that can be read clashes with the slot
    [[s, s + dur)], each row widened by [buff] on both sides. *)
Definition sin_choque (d : date) (dur buff : timedelta) (turnos : list turno)
    (s : datetime) : Prop :=
  ∀ t ts te, t ∈ turnos → fecha t = Some d → estado t ≠ "Cancelado"%string →
    strptime_HM (str (inicio t)) = Ok ts → strptime_HM (str (fin t)) = Ok te →
    overlaps s (s + dur) (combine d ts - buff) (combine d te + buff) = false.

(** The characters of an ASCII slug: lower-case letters, digits and the
    hyphen. *)
Definition slug_char (c : Z) : bool :=
  ((48 <=? c) && (c <=? 57)) || ((97 <=? c) && (c <=? 122)) || (c =? GUION).

(** No two hyphens side by side. *)
Fixpoint guiones_sueltos (s : list Z) : Prop :=
  match s with
  | c1 :: r =>
      match r with
      | c2 :: _ => ¬ (c1 = GUION ∧ c2 = GUION)
      | [] => True
      end ∧ guiones_sueltos r
  | [] => True
  end.

(** [s] is an instant of day [d] at a whole minute. *)
Definition minuto_del_dia (d : date) (s : datetime) : Prop :=
  ∃ h m, 0 <= h < 24 ∧ 0 <= m < 60 ∧ s = combine d (Hora h m).

(** * Properties *)

(** *** Sample runs *)

Example to_time_0900 : to_time "09:00" = Ok (Some (Hora 9 0)).
Proof. reflexivity. Qed.

Example to_time_spaces : to_time " 9 : 5 " = Ok (Some (Hora 9 5)).
Proof. reflexivity. Qed.

Example to_time_bad : to_time "25:00" = Ok None.
Proof. reflexivity. Qed.

(** [int] refuses the separator FS, which [str.strip] removes at the ends
    of the whole text only. *)
Example to_time_fs :
  to_time (String "9" (String (ascii_of_nat 28) ":30")) = Ok None
  ∧ to_time (String (ascii_of_nat 28) "9:30") = Ok (Some (Hora 9 30)).
Proof. split; reflexivity. Qed.

(** [int] reads 4300 digits and refuses one more. *)
Example int_max_str_digits :
  Py.int (repeat "0"%char 4299 ++ ["7"%char]) = Ok 7
  ∧ Py.int (repeat "0"%char 4300 ++ ["7"%char]) = Raise ValueError.
Proof. split; vm_compute; reflexivity. Qed.

Example strptime_ok : strptime_HM (str "9:05") = Ok (Hora 9 5).
Proof. reflexivity. Qed.

Example strptime_seconds : strptime_HM (str "09:00:00") = Raise ValueError.
Proof. reflexivity. Qed.

Example strptime_24 : strptime_HM (str "24:00") = Raise ValueError.
Proof. reflexivity. Qed.

(** A free Tuesday, 30 minutes every 10: 09:00, 09:10, ..., 16:30. *)
Example martes_libre :
  let slots := slots_de (generar_slots 100 martes 30 [] SLOT_STEP_MIN) in
  length slots = 46%nat ∧ head slots = Some (at_ martes 9 0)
  ∧ last slots = Some (at_ martes 16 30).
Proof. vm_compute. auto. Qed.

(** With 10:00-10:30 taken, the starts 09:30 .. 10:30 are refused. *)
Example martes_ocupado :
  take 5 (map hora_de (slots_de (generar_slots 100 martes 30 [turno_ocupado] SLOT_STEP_MIN)))
  = [(9, 0); (9, 10); (9, 20); (10, 40); (10, 50)].
Proof. vm_compute. reflexivity. Qed.

(** Sunday is closed. *)
Example domingo_cerrado : generar_slots 0 (martes + 5) 30 [turno_ocupado] 10 = Ok [].
Proof. vm_compute. reflexivity. Qed.

(** A step beyond the range of [datetime] makes the call raise. *)
Example paso_enorme : generar_slots 100 martes 30 [] 100000000000000 = Raise OverflowError.
Proof. vm_compute. reflexivity. Qed.


(** ** Outcomes *)

Lemma obind_Ok {A B} (m : outcome A) (k : A → outcome B) (b : B) :
  obind m k = Ok b → ∃ a, m = Ok a ∧ k a = Ok b.
Proof. destruct m; simpl; [eauto | discriminate | discriminate]. Qed.

Tactic Notation "inv_bind" hyp(H) "as" ident(a) ident(Ha) :=
  apply obind_Ok in H as (a & Ha & H).

(** ** The runtime pieces never run out of fuel: they have no loop *)

Lemma int_digits_fuel p acc s : Py.int_digits p acc s ≠ OutOfFuel.
Proof.
  revert p acc; induction s as [|c r IH]; intros p acc; simpl.
  - destruct p; discriminate.
  - destruct (Py.isdigit c); [apply IH|].
    destruct (Ascii.eqb c "_"); [|discriminate].
    destruct p; [apply IH | discriminate].
Qed.

Lemma int_literal_fuel r : Py.int_literal r ≠ OutOfFuel.
Proof.
  unfold Py.int_literal. destruct (_ <=? _); [apply int_digits_fuel | discriminate].
Qed.

Lemma int_fuel s : Py.int s ≠ OutOfFuel.
Proof.
  unfold Py.int.
  destruct (Py.strip_c s) as [|c r]; [discriminate|].
  assert (Hneg : ∀ r', (let! n := Py.int_literal r' in Ok (- n)) ≠ OutOfFuel).
  { intros r'. pose proof (int_literal_fuel r') as Hd.
    destruct (Py.int_literal r'); simpl; congruence. }
  repeat match goal with
         | |- context [match ?x with _ => _ end] =>
             match x with
             | Py.int_literal _ => fail 1
             | _ => destruct x
             end
         | |- context [if ?x then _ else _] => destruct x
         end;
    try discriminate; try apply int_literal_fuel; try apply Hneg.
Qed.

Lemma mk_time_Ok h m t : mk_time h m = Ok t → t = Hora h m ∧ valid_time t.
Proof.
  unfold mk_time.
  destruct ((0 <=? h) && (h <=? 23) && (0 <=? m) && (m <=? 59)) eqn:E; [|discriminate].
  intros [= <-]. split; [done|]. unfold valid_time; simpl. lia.
Qed.

Lemma mk_time_fuel h m : mk_time h m ≠ OutOfFuel.
Proof. unfold mk_time. destruct (_ && _); discriminate. Qed.

Lemma strptime_HM_fuel s : strptime_HM s ≠ OutOfFuel.
Proof.
  unfold strptime_HM.
  destruct (match_HM s) as [|[[h m] [|]] ?]; try discriminate. apply mk_time_fuel.
Qed.

Lemma strptime_HM_valid s t : strptime_HM s = Ok t → valid_time t.
Proof.
  unfold strptime_HM.
  destruct (match_HM s) as [|[[h m] [|]] ?]; try discriminate.
  intros H. by apply mk_time_Ok in H as [_ ?].
Qed.

(** ** [to_time] *)

Lemma to_time_returns (hhmm : string) :
  ∃ r, to_time hhmm = Ok r ∧ ∀ t, r = Some t → valid_time t.
Proof.
  unfold to_time.
  destruct (empty _ || _); [exists None; split; [done | discriminate]|].
  destruct (firstn 2 _) as [|hh [|mm [|]]]; simpl;
    try (exists None; split; [done | discriminate]).
  pose proof (int_fuel hh) as Hh.
  destruct (Py.int hh) as [h| |]; simpl; [|exists None; split; [done | discriminate] | done].
  pose proof (int_fuel mm) as Hm.
  destruct (Py.int mm) as [m| |]; simpl; [|exists None; split; [done | discriminate] | done].
  pose proof (mk_time_fuel h m) as Ht.
  destruct (mk_time h m) as [t| |] eqn:E; simpl;
    [|exists None; split; [done | discriminate] | done].
  exists (Some t). split; [done|]. intros ? [= <-]. by apply mk_time_Ok in E as [_ ?].
Qed.

(** ** [overlaps] *)

Lemma overlaps_true a1 a2 b1 b2 : overlaps a1 a2 b1 b2 = true ↔ a1 < b2 ∧ b1 < a2.
Proof. unfold overlaps. rewrite andb_true_iff, !Z.ltb_lt. tauto. Qed.

Lemma overlaps_false a1 a2 b1 b2 : overlaps a1 a2 b1 b2 = false ↔ ¬ (a1 < b2 ∧ b1 < a2).
Proof. rewrite <- overlaps_true. destruct (overlaps a1 a2 b1 b2); split; congruence. Qed.

(** ** Removal of duplicates *)

Lemma unicos_elem seen (l : list datetime) (x : datetime) :
  x ∈ unicos seen l ↔ x ∈ l ∧ seen !! x = None.
Proof.
  revert seen; induction l as [|y l IH]; intros seen; simpl.
  - split; [intros H | intros [H _]]; by apply elem_of_nil in H.
  - unfold setdefault. destruct (seen !! y) eqn:E.
    + split.
      * intros H. apply IH in H as [? ?]. split; [by apply elem_of_cons; right | done].
      * intros [H Hn]. apply IH. split; [|done].
        apply elem_of_cons in H as [->|?]; [congruence | done].
    + split.
      * intros H. apply elem_of_cons in H as [->|H]; [split; [by apply elem_of_cons; left | done]|].
        apply IH in H as [? Hn]. split; [by apply elem_of_cons; right|].
        destruct (decide (y = x)) as [->|Hne]; [done|].
        by rewrite lookup_insert_ne in Hn.
      * intros [H Hn]. apply elem_of_cons.
        apply elem_of_cons in H as [->|H]; [by left|].
        destruct (decide (x = y)) as [->|Hne]; [by left|].
        right. apply IH. split; [done|]. by rewrite lookup_insert_ne.
Qed.

Lemma unicos_sublist seen l : unicos seen l `sublist_of` l.
Proof.
  revert seen; induction l as [|y l IH]; intros seen; simpl; [constructor|].
  unfold setdefault. destruct (seen !! y); [apply sublist_cons, IH | apply sublist_skip, IH].
Qed.

Lemma unicos_NoDup seen l : NoDup (unicos seen l).
Proof.
  revert seen; induction l as [|y l IH]; intros seen; simpl; [constructor|].
  unfold setdefault. destruct (seen !! y) eqn:E; [apply IH|].
  constructor; [|apply IH].
  intros H. apply unicos_elem in H as [_ H]. by rewrite lookup_insert_eq in H.
Qed.

Lemma unicos_empty_elem (l : list datetime) (x : datetime) : x ∈ unicos ∅ l ↔ x ∈ l.
Proof.
  split; [intros H; by apply unicos_elem in H as [? _]|].
  intros H. apply unicos_elem. split; [done | apply lookup_empty].
Qed.

Lemma StronglySorted_sublist {A} (R : relation A) (l k : list A) :
  l `sublist_of` k → StronglySorted R k → StronglySorted R l.
Proof.
  induction 1 as [|x l k Hs IH|x l k Hs IH]; intros Hk; [constructor| |].
  - apply StronglySorted_cons in Hk as [Hx Hk].
    apply StronglySorted_cons. split; [|by apply IH].
    apply Forall_forall. intros y Hy.
    eapply Forall_forall in Hx; [done|]. by eapply sublist_subseteq.
  - apply StronglySorted_cons in Hk as [_ Hk]. by apply IH.
Qed.

Lemma StronglySorted_lt_NoDup (l : list Z) : StronglySorted Z.lt l → NoDup l.
Proof.
  induction 1 as [|x l Hl IH Hx]; constructor; [|done].
  intros Hin. eapply Forall_forall in Hx; [|done]. lia.
Qed.

(** ** Arithmetic of the [datetime] module *)

Lemma add_Ok x td r : add x td = Ok r → r = x + td.
Proof. unfold add. destruct (_ && _); [by intros [= <-] | discriminate]. Qed.

Lemma mk_timedelta_Ok us td : mk_timedelta us = Ok td → td = us.
Proof. unfold mk_timedelta. destruct (_ && _); [by intros [= <-] | discriminate]. Qed.

Lemma timedelta_minutes_Ok n td : timedelta_minutes n = Ok td → td = n * US_PER_MINUTE.
Proof. apply mk_timedelta_Ok. Qed.

Lemma sub_Ok x td r : sub x td = Ok r → r = x - td.
Proof.
  unfold sub. intros H. inv_bind H as n Hn.
  apply mk_timedelta_Ok in Hn as ->. apply add_Ok in H. lia.
Qed.

Lemma add_fuel x td : add x td ≠ OutOfFuel.
Proof. unfold add. destruct (_ && _); discriminate. Qed.

Lemma sub_fuel x td : sub x td ≠ OutOfFuel.
Proof.
  unfold sub, mk_timedelta. destruct (_ && _); simpl; [apply add_fuel | discriminate].
Qed.

Lemma combine_bounds d t :
  valid_time t → d * US_PER_DAY <= combine d t < (d + 1) * US_PER_DAY.
Proof.
  unfold valid_time, combine, time_us, US_PER_DAY, US_PER_HOUR, US_PER_MINUTE. lia.
Qed.

Lemma isoweekday_range d : 1 <= isoweekday d <= 7.
Proof.
  unfold isoweekday. pose proof (Z.mod_pos_bound d 7 ltac:(lia)).
  destruct (d mod 7 =? 0) eqn:E; [lia|]. apply Z.eqb_neq in E. lia.
Qed.

(** ** The scan of the day's appointments *)

Section Scan.
Variable date_obj : date.
Variable buff : timedelta.

Lemma intervalo_fuel t : intervalo date_obj t ≠ OutOfFuel.
Proof.
  unfold intervalo.
  pose proof (strptime_HM_fuel (str (inicio t))).
  destruct (strptime_HM (str (inicio t))); simpl; try done.
  pose proof (strptime_HM_fuel (str (fin t))).
  destruct (strptime_HM (str (fin t))); simpl; done.
Qed.

Lemma intervalo_Ok t t_start t_end :
  intervalo date_obj t = Ok (t_start, t_end) ↔
  ∃ ts te, strptime_HM (str (inicio t)) = Ok ts ∧ strptime_HM (str (fin t)) = Ok te ∧
           t_start = combine date_obj ts ∧ t_end = combine date_obj te.
Proof.
  unfold intervalo. split.
  - intros H. inv_bind H as ts Hts. inv_bind H as te Hte. injection H as <- <-. eauto 6.
  - intros (ts & te & -> & -> & -> & ->). done.
Qed.

(** The test [if not activos.empty] changes nothing: the loop over no
    row leaves [ok] true. *)
Lemma libre_guard c_start c_end activos :
  (if negb (empty activos) then libre date_obj buff c_start c_end activos else Ok true)
  = libre date_obj buff c_start c_end activos.
Proof. by destruct activos. Qed.

(** A candidate that passes the scan clashes with no readable row. *)
Lemma libre_true c_start c_end rows :
  libre date_obj buff c_start c_end rows = Ok true →
  ∀ t t_start t_end, t ∈ rows → intervalo date_obj t = Ok (t_start, t_end) →
    overlaps (c_start - buff) (c_end + buff) t_start t_end = false.
Proof.
  induction rows as [|r rows IH]; simpl; intros H t t_start t_end Hin Ht.
  - by apply elem_of_nil in Hin.
  - apply elem_of_cons in Hin as [->|Hin].
    + rewrite Ht in H. inv_bind H as a Ha. inv_bind H as b Hb.
      apply sub_Ok in Ha as ->. apply add_Ok in Hb as ->.
      by destruct (overlaps _ _ _ _).
    + destruct (intervalo date_obj r) as [[rs re]| |]; [| by eapply IH | done].
      inv_bind H as a Ha. inv_bind H as b Hb.
      destruct (overlaps _ _ _ _); [done | by eapply IH].
Qed.

(** A row that cannot be read is passed over. *)
Lemma libre_skip c_start c_end l1 t l2 :
  (∀ iv, intervalo date_obj t ≠ Ok iv) →
  libre date_obj buff c_start c_end (l1 ++ t :: l2)
  = libre date_obj buff c_start c_end (l1 ++ l2).
Proof.
  intros Ht. induction l1 as [|r l1 IH]; simpl.
  - pose proof (intervalo_fuel t).
    destruct (intervalo date_obj t) as [iv| |]; [by destruct (Ht iv) | done | done].
  - by rewrite IH.
Qed.

(** Once both buffered ends are in range the scan returns. *)
Lemma libre_defined c_start c_end a b rows :
  sub c_start buff = Ok a → add c_end buff = Ok b →
  ∃ ok, libre date_obj buff c_start c_end rows = Ok ok.
Proof.
  intros Ha Hb. induction rows as [|r rows IH]; simpl; [eauto|].
  pose proof (intervalo_fuel r).
  destruct (intervalo date_obj r) as [[rs re]| |]; [|done|done].
  rewrite Ha, Hb; simpl. destruct (overlaps _ _ _ _); eauto.
Qed.

(** Dropping rows can only turn a refusal into an acceptance. *)
Lemma libre_sublist c_start c_end rows1 rows2 ok1 :
  rows2 `sublist_of` rows1 →
  libre date_obj buff c_start c_end rows1 = Ok ok1 →
  ∃ ok2, libre date_obj buff c_start c_end rows2 = Ok ok2 ∧ (ok1 = true → ok2 = true).
Proof.
  intros Hs; revert ok1.
  induction Hs as [|r l k Hs IH|r l k Hs IH]; simpl; intros ok1 H.
  - eauto.
  - destruct (intervalo date_obj r) as [[rs re]| |]; [|by apply IH|done].
    inv_bind H as a Ha. inv_bind H as b Hb. rewrite Ha, Hb; simpl.
    destruct (overlaps _ _ _ _); [|by apply IH].
    injection H as <-. by exists false.
  - destruct (intervalo date_obj r) as [[rs re]| |]; [|by apply IH|done].
    inv_bind H as a Ha. inv_bind H as b Hb.
    destruct (overlaps _ _ _ _); [|by apply IH].
    injection H as <-.
    destruct (libre_defined c_start c_end _ _ l Ha Hb) as [ok2 ->].
    by exists ok2.
Qed.

End Scan.

(** ** The loop over one window *)

Section Window.
Variable date_obj : date.
Variables step dur buff : timedelta.
Variable activos : list turno.

Local Abbreviation ventana' := (ventana date_obj step dur buff activos).
Local Abbreviation libre' := (libre date_obj buff).

(** With a step that does not advance, a loop that is entered never
    returns: it raises or is still running whatever the fuel. *)
Lemma ventana_stuck fuel end_window current result res :
  step <= 0 → current + dur <= end_window →
  ventana' fuel end_window current result ≠ Ok res.
Proof.
  intros Hstep. revert current result.
  induction fuel as [|fuel IH]; intros current result Hin H; simpl in H; [done|].
  inv_bind H as limit Hl. apply add_Ok in Hl as ->.
  destruct (current + dur <=? end_window) eqn:E; [|apply Z.leb_gt in E; lia].
  inv_bind H as c_end Hc. inv_bind H as ok Hok. inv_bind H as next Hn.
  apply add_Ok in Hn as ->.
  apply IH in H; [done | lia].
Qed.

(** What a returning loop appends to the list. *)
Lemma ventana_Ok fuel end_window current result res :
  ventana' fuel end_window current result = Ok res →
  ∃ new, res = result ++ new ∧
    StronglySorted Z.lt new ∧
    Forall (λ s, current <= s ∧ s + dur <= end_window ∧
                 libre' s (s + dur) activos = Ok true) new.
Proof.
  revert current result.
  induction fuel as [|fuel IH]; intros current result H; simpl in H; [done|].
  inv_bind H as limit Hl. apply add_Ok in Hl as ->.
  destruct (current + dur <=? end_window) eqn:E.
  - apply Z.leb_le in E.
    inv_bind H as c_end Hc. apply add_Ok in Hc as ->.
    inv_bind H as ok Hok. rewrite libre_guard in Hok.
    inv_bind H as next Hn. apply add_Ok in Hn as ->.
    destruct (Z_le_gt_dec step 0) as [Hstep|Hstep].
    { exfalso. eapply ventana_stuck; [done| |done]. lia. }
    apply IH in H as (new & -> & Hsorted & Hall).
    assert (Hlater : Forall (Z.lt current) new).
    { eapply Forall_impl; [exact Hall|]. simpl. lia. }
    assert (Hweak : Forall (λ s, current <= s ∧ s + dur <= end_window ∧
                                 libre' s (s + dur) activos = Ok true) new).
    { eapply Forall_impl; [exact Hall|]. simpl. intros s (? & ? & ?). repeat split; [lia|done..]. }
    destruct ok.
    + exists (current :: new). split; [by rewrite <- app_assoc|].
      split; [by constructor|].
      constructor; [|done]. repeat split; [lia|done..].
    + by exists new.
  - injection H as <-. exists []. split; [by rewrite app_nil_r|].
    split; constructor.
Qed.

(** The outcome depends on the rows only through the scan. *)
Lemma ventana_ext activos2 fuel end_window current result :
  (∀ c_start c_end, libre' c_start c_end activos = libre' c_start c_end activos2) →
  ventana' fuel end_window current result
  = ventana date_obj step dur buff activos2 fuel end_window current result.
Proof.
  intros Hext. revert current result.
  induction fuel as [|fuel IH]; intros current result; simpl; [done|].
  destruct (add current dur) as [limit| |]; simpl; [|done..].
  destruct (limit <=? end_window); [|done].
  rewrite !libre_guard, Hext.
  destruct (libre' current limit activos2) as [ok| |]; simpl; [|done..].
  destruct (add current step); simpl; [|done..]. apply IH.
Qed.

(** With fewer rows the loop returns whenever it did, with no slot lost. *)
Lemma ventana_sublist activos2 fuel end_window current result result2 res :
  activos2 `sublist_of` activos →
  result ⊆ result2 →
  ventana' fuel end_window current result = Ok res →
  ∃ res2, ventana date_obj step dur buff activos2 fuel end_window current result2 = Ok res2
          ∧ res ⊆ res2.
Proof.
  intros Hsub. revert current result result2.
  induction fuel as [|fuel IH]; intros current result result2 Hincl H; simpl in *; [done|].
  inv_bind H as limit Hl. rewrite Hl; simpl.
  destruct (limit <=? end_window); [|injection H as <-; eauto].
  rewrite Hl in H; simpl in H.
  rewrite libre_guard in *.
  inv_bind H as ok Hok.
  destruct (libre_sublist _ _ _ _ _ _ _ Hsub Hok) as (ok2 & -> & Hok2); simpl.
  inv_bind H as next Hn. rewrite Hn; simpl.
  eapply IH; [|done].
  destruct ok.
  - rewrite Hok2 by done. intros x Hx.
    apply elem_of_app in Hx as [Hx|Hx]; apply elem_of_app; [left; by apply Hincl | by right].
  - destruct ok2; [|done].
    intros x Hx. apply elem_of_app. left. by apply Hincl.
Qed.

End Window.

(** ** The loop over the windows of the day *)

Section Day.
Variable date_obj : date.
Variables step dur buff : timedelta.

Local Abbreviation recorrer' := (recorrer date_obj step dur buff).
Local Abbreviation libre' := (libre date_obj buff).

(** Every slot that the loop appends passed the scan. *)
Lemma recorrer_libre activos fuel tramos result res :
  recorrer' activos fuel tramos result = Ok res →
  ∃ new, res = result ++ new ∧
         Forall (λ s, libre' s (s + dur) activos = Ok true) new.
Proof.
  revert result. induction tramos as [|[ini fin] tramos IH]; intros result H; simpl in H.
  - injection H as <-. exists []. by rewrite app_nil_r.
  - inv_bind H as ti Hti. inv_bind H as tf Htf.
    destruct ti as [ti|]; [|by apply IH].
    destruct tf as [tf|]; [|by apply IH].
    inv_bind H as r1 Hr1.
    apply ventana_Ok in Hr1 as (new1 & -> & _ & Hall1).
    apply IH in H as (new2 & -> & Hall2).
    exists (new1 ++ new2). split; [by rewrite app_assoc|].
    apply Forall_app. split; [|done].
    eapply Forall_impl; [exact Hall1|]. simpl. tauto.
Qed.

(** Over ordered windows the appended slots are strictly ascending. *)
Lemma recorrer_sorted activos fuel tramos result res lo :
  0 < dur →
  tramos_ordenados tramos →
  Forall (λ w, lo <= combine date_obj (fst w)) (ventanas_legibles tramos) →
  recorrer' activos fuel tramos result = Ok res →
  ∃ new, res = result ++ new ∧ StronglySorted Z.lt new ∧ Forall (Z.le lo) new.
Proof.
  intros Hdur. unfold tramos_ordenados. revert result lo.
  induction tramos as [|[ini fin] tramos IH]; intros result lo Hord Hlo H; simpl in *.
  - injection H as <-. exists []. rewrite app_nil_r. repeat split; constructor.
  - inv_bind H as ti Hti. inv_bind H as tf Htf. rewrite Hti, Htf in Hord, Hlo.
    destruct ti as [ti|]; [|by eapply IH].
    destruct tf as [tf|]; [|by eapply IH].
    inv_bind H as r1 Hr1.
    apply ventana_Ok in Hr1 as (new1 & -> & Hs1 & Hall1).
    apply StronglySorted_cons in Hord as [Hfirst Hord].
    apply Forall_cons in Hlo as [Hlo1 Hlo]. simpl in Hlo1.
    apply (IH _ (Z.max lo (combine date_obj tf))) in H as (new2 & -> & Hs2 & Hall2);
      [|done|].
    + exists (new1 ++ new2). split; [by rewrite app_assoc|]. split.
      * apply StronglySorted_app_2; [|done..].
        intros x1 x2 Hx1 Hx2.
        eapply Forall_forall in Hall1 as (_ & ? & _); [|exact Hx1].
        eapply Forall_forall in Hall2; [|exact Hx2]. lia.
      * apply Forall_app. split.
        -- eapply Forall_impl; [exact Hall1|]. simpl. lia.
        -- eapply Forall_impl; [exact Hall2|]. simpl. lia.
    + apply Forall_forall. intros w Hw.
      eapply Forall_forall in Hfirst; [|exact Hw].
      eapply Forall_forall in Hlo; [|exact Hw].
      simpl in Hfirst. unfold combine. unfold combine in Hlo. lia.
Qed.

(** A window whose opening or closing time cannot be read is passed over. *)
Lemma recorrer_skip activos fuel pre ini fin post result :
  to_time ini = Ok None ∨ to_time fin = Ok None →
  recorrer' activos fuel (pre ++ (ini, fin) :: post) result
  = recorrer' activos fuel (pre ++ post) result.
Proof.
  intros Hbad. revert result.
  induction pre as [|[i f] pre IH]; intros result; simpl.
  - destruct (to_time_returns ini) as (ti & Hti & _).
    destruct (to_time_returns fin) as (tf & Htf & _).
    rewrite Hti, Htf; simpl.
    destruct Hbad as [Hb|Hb]; [rewrite Hb in Hti | rewrite Hb in Htf].
    + by injection Hti as <-.
    + injection Htf as <-. by destruct ti.
  - destruct (to_time i) as [[ti|]| |]; simpl; [| |done..].
    + destruct (to_time f) as [[tf|]| |]; simpl; [| |done..]; [|apply IH].
      destruct (ventana _ _ _ _ _ _ _ _ _); simpl; [|done..]. apply IH.
    + destruct (to_time f) as [[tf|]| |]; simpl; [| |done..]; apply IH.
Qed.

(** The outcome depends on the rows only through the scan. *)
Lemma recorrer_ext activos activos2 fuel tramos result :
  (∀ c_start c_end, libre' c_start c_end activos = libre' c_start c_end activos2) →
  recorrer' activos fuel tramos result = recorrer' activos2 fuel tramos result.
Proof.
  intros Hext. revert result.
  induction tramos as [|[ini fin] tramos IH]; intros result; simpl; [done|].
  destruct (to_time ini) as [[ti|]| |]; simpl; [| |done..].
  - destruct (to_time fin) as [[tf|]| |]; simpl; [| |done..]; [|apply IH].
    rewrite (ventana_ext _ _ _ _ _ activos2) by done.
    destruct (ventana _ _ _ _ _ _ _ _ _); simpl; [|done..]. apply IH.
  - destruct (to_time fin) as [[tf|]| |]; simpl; [| |done..]; apply IH.
Qed.

(** With fewer rows the loop returns whenever it did, with no slot lost. *)
Lemma recorrer_sublist activos activos2 fuel tramos result result2 res :
  activos2 `sublist_of` activos →
  result ⊆ result2 →
  recorrer' activos fuel tramos result = Ok res →
  ∃ res2, recorrer' activos2 fuel tramos result2 = Ok res2 ∧ res ⊆ res2.
Proof.
  intros Hsub. revert result result2.
  induction tramos as [|[ini fin] tramos IH]; intros result result2 Hincl H; simpl in *.
  - injection H as <-. eauto.
  - inv_bind H as ti Hti. inv_bind H as tf Htf. rewrite Hti, Htf; simpl.
    destruct ti as [ti|]; [|by eapply IH].
    destruct tf as [tf|]; [|by eapply IH].
    inv_bind H as r1 Hr1.
    destruct (ventana_sublist _ _ _ _ _ _ _ _ _ _ result2 _ Hsub Hincl Hr1)
      as (r2 & -> & Hr2); simpl.
    by eapply IH.
Qed.

End Day.

(** ** The generator *)

Lemma activos_de_filter d turnos : activos_de d turnos = List.filter (bloquea d) turnos.
Proof. by destruct turnos. Qed.

Lemma bloquea_true d t :
  bloquea d t = true ↔ fecha t = Some d ∧ estado t ≠ "Cancelado"%string.
Proof.
  unfold bloquea, fecha_eq, isin; simpl.
  rewrite andb_true_iff, negb_true_iff, orb_false_r, String.eqb_neq.
  destruct (fecha t) as [x|]; [rewrite Z.eqb_eq | ]; split; intros [? ?]; split;
    congruence.
Qed.

Lemma elem_of_activos_de d turnos t :
  t ∈ activos_de d turnos ↔ t ∈ turnos ∧ fecha t = Some d ∧ estado t ≠ "Cancelado"%string.
Proof.
  rewrite activos_de_filter, <- bloquea_true, !list_elem_of_In. apply filter_In.
Qed.

Lemma ventanas_legibles_valid tramos :
  Forall (λ w, valid_time (fst w) ∧ valid_time (snd w)) (ventanas_legibles tramos).
Proof.
  induction tramos as [|[ini fin] tramos IH]; simpl; [constructor|].
  destruct (to_time_returns ini) as (ti & Hti & Hvi).
  destruct (to_time_returns fin) as (tf & Htf & Hvf).
  rewrite Hti, Htf. destruct ti as [ti|]; [|done]. destruct tf as [tf|]; [|done].
  constructor; [|done]. simpl. auto.
Qed.

Section Generator_facts.
Variable disponibilidad : gmap Z (list tramo).
Variable buffer_min : Z.

Local Abbreviation generar := (generar_slots_en disponibilidad buffer_min).

(** What a returning call has done. *)
Lemma generar_slots_en_Ok fuel d dur_min turnos step_min res :
  generar fuel d dur_min turnos step_min = Ok res →
  res = [] ∨
  (0 < dur_min ∧
   ∃ raw, recorrer d (step_min * US_PER_MINUTE) (dur_min * US_PER_MINUTE)
            (buffer_min * US_PER_MINUTE) (activos_de d turnos) fuel
            (dict_get disponibilidad (isoweekday d) []) [] = Ok raw
          ∧ res = unicos ∅ raw).
Proof.
  unfold generar_slots_en, windowsFor; simpl.
  destruct (dur_min <=? 0) eqn:E; [intros [= <-]; by left|]. apply Z.leb_gt in E.
  destruct (empty _); [intros [= <-]; by left|].
  intros H. inv_bind H as step Hstep. inv_bind H as dur Hdur. inv_bind H as buff Hbuff.
  inv_bind H as raw Hraw. injection H as <-.
  apply timedelta_minutes_Ok in Hstep as ->, Hdur as ->, Hbuff as ->.
  right. eauto.
Qed.

(** The outcome depends on the appointments only through the scan. *)
Lemma generar_slots_en_ext fuel d dur_min turnos turnos2 step_min :
  (∀ buff c_start c_end,
     libre d buff c_start c_end (activos_de d turnos)
     = libre d buff c_start c_end (activos_de d turnos2)) →
  generar fuel d dur_min turnos step_min = generar fuel d dur_min turnos2 step_min.
Proof.
  intros Hext. unfold generar_slots_en.
  destruct (dur_min <=? 0); [done|].
  destruct (windowsFor _ _) as [tramos| |]; simpl; [|done..].
  destruct (empty tramos); [done|].
  destruct (timedelta_minutes step_min); simpl; [|done..].
  destruct (timedelta_minutes dur_min); simpl; [|done..].
  destruct (timedelta_minutes buffer_min); simpl; [|done..].
  by rewrite (recorrer_ext _ _ _ _ _ (activos_de d turnos2)).
Qed.

(** With fewer blocking rows the call returns whenever it did, and no
    slot is lost. *)
Lemma generar_slots_en_sublist fuel d dur_min turnos turnos2 step_min res :
  activos_de d turnos2 `sublist_of` activos_de d turnos →
  generar fuel d dur_min turnos step_min = Ok res →
  ∃ res2, generar fuel d dur_min turnos2 step_min = Ok res2 ∧ res ⊆ res2.
Proof.
  intros Hsub. unfold generar_slots_en.
  destruct (dur_min <=? 0); [eauto|].
  destruct (windowsFor _ _) as [tramos| |]; simpl; [|done..].
  destruct (empty tramos); [eauto|].
  destruct (timedelta_minutes step_min) as [step| |]; simpl; [|done..].
  destruct (timedelta_minutes dur_min) as [dur| |]; simpl; [|done..].
  destruct (timedelta_minutes buffer_min) as [buff| |]; simpl; [|done..].
  intros H. inv_bind H as raw Hraw. injection H as <-.
  destruct (recorrer_sublist _ _ _ _ _ _ _ _ _ [] _ Hsub (reflexivity _) Hraw)
    as (raw2 & -> & Hincl); simpl.
  eexists; split; [done|].
  intros x Hx. apply unicos_empty_elem. apply unicos_elem in Hx as [Hx _]. by apply Hincl.
Qed.

End Generator_facts.

(** ** Fuel only bounds the loops *)

Lemma ventana_fuel_mono d step dur buff activos fuel fuel' end_window current result :
  (fuel <= fuel')%nat →
  ventana d step dur buff activos fuel end_window current result ≠ OutOfFuel →
  ventana d step dur buff activos fuel' end_window current result
  = ventana d step dur buff activos fuel end_window current result.
Proof.
  revert fuel' current result.
  induction fuel as [|fuel IH]; intros fuel' current result Hle Hrun; simpl in *; [done|].
  destruct fuel' as [|fuel']; [lia|]. simpl.
  destruct (add current dur) as [limit| |]; simpl in *; [|done..].
  destruct (limit <=? end_window); [|done].
  destruct (if negb (empty activos) then _ else _) as [ok| |]; simpl in *; [|done..].
  destruct (add current step) as [next| |]; simpl in *; [|done..].
  apply IH; [lia | done].
Qed.

Lemma recorrer_fuel_mono d step dur buff activos fuel fuel' tramos result :
  (fuel <= fuel')%nat →
  recorrer d step dur buff activos fuel tramos result ≠ OutOfFuel →
  recorrer d step dur buff activos fuel' tramos result
  = recorrer d step dur buff activos fuel tramos result.
Proof.
  intros Hle. revert result.
  induction tramos as [|[ini fin] tramos IH]; intros result Hrun; simpl in *; [done|].
  destruct (to_time ini) as [ti| |]; simpl in *; [|done..].
  destruct (to_time fin) as [tf| |]; simpl in *; [|done..].
  destruct ti as [ti|]; [|by apply IH]. destruct tf as [tf|]; [|by apply IH].
  destruct (ventana d step dur buff activos fuel _ _ result) as [r| |] eqn:E;
    simpl in *; [| |done].
  - rewrite (ventana_fuel_mono _ _ _ _ _ fuel fuel') by (done || by rewrite E).
    rewrite E. simpl. by apply IH.
  - rewrite (ventana_fuel_mono _ _ _ _ _ fuel fuel') by (done || by rewrite E).
    by rewrite E.
Qed.

(** A call that returned or raised does the same with more fuel. *)
Lemma generar_slots_en_fuel_mono disponibilidad buffer_min fuel fuel' d dur_min turnos
    step_min :
  (fuel <= fuel')%nat →
  generar_slots_en disponibilidad buffer_min fuel d dur_min turnos step_min ≠ OutOfFuel →
  generar_slots_en disponibilidad buffer_min fuel' d dur_min turnos step_min
  = generar_slots_en disponibilidad buffer_min fuel d dur_min turnos step_min.
Proof.
  intros Hle. unfold generar_slots_en.
  destruct (dur_min <=? 0); [done|].
  destruct (windowsFor _ _) as [tramos| |]; simpl; [|done..].
  destruct (empty tramos); [done|].
  destruct (timedelta_minutes step_min) as [step| |]; simpl; [|done..].
  destruct (timedelta_minutes dur_min) as [dur| |]; simpl; [|done..].
  destruct (timedelta_minutes buffer_min) as [buff| |]; simpl; [|done..].
  intros Hrun.
  rewrite (recorrer_fuel_mono _ _ _ _ _ fuel fuel'); [done..|].
  intros E. by rewrite E in Hrun.
Qed.

(** ** The generator returns *)

Lemma add_in_range x td :
  US_PER_DAY <= x + td < LIMIT → add x td = Ok (x + td).
Proof.
  unfold add, LIMIT. intros [Hlo Hhi].
  assert (1 <= (x + td) / US_PER_DAY) by (apply Z.div_le_lower_bound; unfold US_PER_DAY in *; lia).
  assert ((x + td) / US_PER_DAY < MAXORDINAL + 1)
    by (apply Z.div_lt_upper_bound; unfold US_PER_DAY in *; lia).
  destruct (_ && _) eqn:E; [done|].
  apply andb_false_iff in E as [E|E]; apply Z.leb_gt in E; lia.
Qed.

Lemma mk_timedelta_in_range us :
  - US_PER_DAY <= us <= US_PER_DAY → mk_timedelta us = Ok us.
Proof.
  unfold mk_timedelta. intros [Hlo Hhi].
  assert (-1 <= us / US_PER_DAY) by (apply Z.div_le_lower_bound; unfold US_PER_DAY in *; lia).
  assert (us / US_PER_DAY < 2) by (apply Z.div_lt_upper_bound; unfold US_PER_DAY in *; lia).
  destruct (_ && _) eqn:E; [done|]. unfold MAX_DELTA_DAYS in E.
  apply andb_false_iff in E as [E|E]; apply Z.leb_gt in E; lia.
Qed.

Lemma sub_in_range x td :
  0 <= td <= US_PER_DAY → US_PER_DAY <= x - td < LIMIT → sub x td = Ok (x - td).
Proof.
  intros Htd Hx. unfold sub. rewrite mk_timedelta_in_range by lia. simpl.
  rewrite add_in_range by lia. reflexivity.
Qed.

Section Returns.
Variable date_obj : date.
Variables step dur buff : timedelta.
Variable activos : list turno.
Hypothesis step_pos : 0 < step.
Hypothesis dur_nonneg : 0 <= dur.
Hypothesis buff_range : 0 <= buff <= US_PER_DAY.

Lemma ventana_returns fuel end_window current result :
  US_PER_DAY + buff <= current →
  current + dur < LIMIT →
  end_window + step < LIMIT →
  end_window + buff < LIMIT →
  (1 <= fuel)%nat →
  end_window - (current + dur) < (Z.of_nat fuel - 1) * step →
  ∃ res, ventana date_obj step dur buff activos fuel end_window current result = Ok res.
Proof.
  revert current result.
  induction fuel as [|fuel IH]; intros current result Hlo Hhi Hstep Hbuff Hfuel Hmeasure;
    [lia|]. simpl.
  rewrite add_in_range by lia. simpl.
  destruct (current + dur <=? end_window) eqn:E; [|eauto]. apply Z.leb_le in E.
  rewrite libre_guard.
  destruct (libre_defined date_obj buff current (current + dur)
              (current - buff) (current + dur + buff) activos) as [ok ->].
  { apply sub_in_range; lia. }
  { apply add_in_range; lia. }
  simpl. rewrite add_in_range by lia. simpl.
  apply IH; lia.
Qed.

Hypothesis date_range : 2 <= date_obj < MAXORDINAL.
Hypothesis step_range : US_PER_MINUTE <= step <= US_PER_DAY.
Hypothesis dur_range : dur <= US_PER_DAY.

Lemma recorrer_returns fuel tramos result :
  (1441 <= fuel)%nat →
  ∃ res, recorrer date_obj step dur buff activos fuel tramos result = Ok res.
Proof.
  intros Hfuel. revert result.
  induction tramos as [|[ini fin] tramos IH]; intros result; simpl; [eauto|].
  destruct (to_time_returns ini) as (ti & -> & Hvi).
  destruct (to_time_returns fin) as (tf & -> & Hvf). simpl.
  destruct ti as [ti|]; [|apply IH]. destruct tf as [tf|]; [|apply IH].
  pose proof (combine_bounds date_obj ti (Hvi _ eq_refl)) as Hi.
  pose proof (combine_bounds date_obj tf (Hvf _ eq_refl)) as Hf.
  destruct (ventana_returns fuel (combine date_obj tf) (combine date_obj ti) result)
    as [res ->]; [unfold LIMIT, MAXORDINAL, US_PER_DAY, US_PER_MINUTE in *; lia..| |apply IH].
  unfold LIMIT, MAXORDINAL, US_PER_DAY, US_PER_MINUTE in *. nia.
Qed.

End Returns.

Lemma timedelta_minutes_in_range n :
  -1440 <= n <= 1440 → timedelta_minutes n = Ok (n * US_PER_MINUTE).
Proof.
  intros H. apply mk_timedelta_in_range. unfold US_PER_DAY, US_PER_MINUTE. lia.
Qed.

(** For the dates 0001-01-02 .. 9999-12-30, a positive step and a duration
    and a buffer of at most a day, 1441 turns per window are enough for the
    generator to return, whatever the table and the appointments. *)
Lemma generar_slots_en_returns disponibilidad buffer_min fuel d dur_min turnos step_min :
  2 <= d < MAXORDINAL → 0 < step_min <= 1440 → dur_min <= 1440 →
  0 <= buffer_min <= 1440 → (1441 <= fuel)%nat →
  ∃ res, generar_slots_en disponibilidad buffer_min fuel d dur_min turnos step_min = Ok res.
Proof.
  intros Hd Hstep Hdur Hbuff Hfuel. unfold generar_slots_en, windowsFor; simpl.
  destruct (dur_min <=? 0) eqn:E; [eauto|]. apply Z.leb_gt in E.
  destruct (empty _); [eauto|].
  rewrite !timedelta_minutes_in_range by lia. simpl.
  destruct (recorrer_returns d (step_min * US_PER_MINUTE) (dur_min * US_PER_MINUTE)
              (buffer_min * US_PER_MINUTE) (activos_de d turnos)) with
    (fuel := fuel) (tramos := dict_get disponibilidad (isoweekday d) []) (result := @nil Z)
    as [res ->]; try (unfold US_PER_DAY, US_PER_MINUTE; lia).
  simpl. eauto.
Qed.

(** The default table lists the windows of every day in order. *)
Lemma DEFAULT_DISPONIBILIDAD_CODE_ordenados (d : date) :
  tramos_ordenados (dict_get DEFAULT_DISPONIBILIDAD_CODE (isoweekday d) []).
Proof.
  pose proof (isoweekday_range d) as Hr.
  assert (isoweekday d = 1 ∨ isoweekday d = 2 ∨ isoweekday d = 3 ∨ isoweekday d = 4 ∨
          isoweekday d = 5 ∨ isoweekday d = 6 ∨ isoweekday d = 7) as H by lia.
  unfold tramos_ordenados.
  destruct H as [->|[->|[->|[->|[->|[->| ->]]]]]]; vm_compute; repeat constructor.
  discriminate.
Qed.

(** With a step of zero the loop of a window that fits never ends: no
    fuel makes the call return. *)
Lemma generar_slots_step_zero (fuel : nat) (res : list datetime) :
  generar_slots fuel martes 30 [] 0 ≠ Ok res.
Proof.
  intros H. unfold generar_slots, generar_slots_en in H.
  change (30 <=? 0) with false in H. cbv iota in H.
  change (windowsFor DEFAULT_DISPONIBILIDAD_CODE (isoweekday martes))
    with (@Ok (list tramo) [("09:00", "17:00")%string]) in H.
  simpl in H. inv_bind H as raw Hraw. inv_bind Hraw as r Hr.
  eapply ventana_stuck in Hr; [done | |]; vm_compute; discriminate.
Qed.

Lemma filter_sublist {A} (f : A → bool) (l : list A) : List.filter f l `sublist_of` l.
Proof.
  induction l as [|x l IH]; simpl; [constructor|].
  destruct (f x); [by apply sublist_skip | by apply sublist_cons].
Qed.

Lemma activos_de_drop d pre a post :
  activos_de d (pre ++ post) `sublist_of` activos_de d (pre ++ a :: post).
Proof.
  rewrite !activos_de_filter, !List.filter_app. simpl.
  apply sublist_app; [done|]. destruct (bloquea d a); [by apply sublist_cons | done].
Qed.

Lemma activos_de_cancelado d pre c post :
  estado c = "Cancelado"%string →
  activos_de d (pre ++ c :: post) = activos_de d (pre ++ post).
Proof.
  intros Hc. rewrite !activos_de_filter, !List.filter_app. simpl.
  assert (bloquea d c = false) as ->; [|done].
  unfold bloquea, isin. rewrite Hc. simpl. apply andb_false_r.
Qed.

Lemma ilegible_intervalo d t iv : ilegible t → intervalo d t ≠ Ok iv.
Proof.
  intros Hbad H. destruct iv as [t_start t_end].
  apply intervalo_Ok in H as (ts & te & Hs & He & _).
  destruct Hbad as [Hbad|Hbad]; by eapply Hbad.
Qed.

(** * The claims *)

(** C1.  No emitted slot clashes with an appointment.  Whatever the table,
    the buffer, the date, the duration, the step and the appointments, if
    the generator returns [res] then for every start [s] of [res] and every
    appointment of that date that is not "Cancelado" and whose [inicio] and
    [fin] read as times [ts] and [te], the interval [[s, s + duration)] does
    not overlap [[ts - buffer, te + buffer)], where [[a1,a2)] and [[b1,b2)]
    overlap iff [a1 < b2] and [b1 < a2]. *)
Theorem generar_slots_no_overlap
    (disponibilidad : gmap Z (list tramo)) (buffer_min : Z) (fuel : nat)
    (d : date) (dur_min : Z) (turnos : list turno) (step_min : Z)
    (res : list datetime) (s : datetime) (t : turno) (ts te : time) :
  generar_slots_en disponibilidad buffer_min fuel d dur_min turnos step_min = Ok res →
  s ∈ res →
  t ∈ turnos → fecha t = Some d → estado t ≠ "Cancelado"%string →
  strptime_HM (str (inicio t)) = Ok ts →
  strptime_HM (str (fin t)) = Ok te →
  overlaps s (s + dur_min * US_PER_MINUTE)
           (combine d ts - buffer_min * US_PER_MINUTE)
           (combine d te + buffer_min * US_PER_MINUTE) = false.
Proof.
  intros Hrun Hs Ht Hfecha Hestado Hini Hfin.
  apply generar_slots_en_Ok in Hrun as [->|(_ & raw & Hraw & ->)];
    [by apply elem_of_nil in Hs|].
  apply unicos_elem in Hs as [Hs _].
  apply recorrer_libre in Hraw as (new & -> & Hall). simpl in Hs.
  eapply Forall_forall in Hall; [|exact Hs].
  pose proof (libre_true _ _ _ _ _ Hall t (combine d ts) (combine d te)) as Hno.
  apply overlaps_false. apply overlaps_false in Hno; [lia| |].
  - apply elem_of_activos_de. eauto.
  - apply intervalo_Ok. eauto 6.
Qed.

Lemma generar_slots_no_overlap_witness :
  at_ martes 9 20 ∈ slots_de (generar_slots 100 martes 30 [turno_ocupado] 10) ∧
  overlaps (at_ martes 9 20) (at_ martes 9 20 + 30 * US_PER_MINUTE)
           (combine martes (Hora 10 0) - BUFFER_MIN_DEFAULT * US_PER_MINUTE)
           (combine martes (Hora 10 30) + BUFFER_MIN_DEFAULT * US_PER_MINUTE) = false.
Proof.
  assert (Hin : at_ martes 9 20 ∈ slots_de (generar_slots 100 martes 30 [turno_ocupado] 10)).
  { vm_compute. do 2 apply list_elem_of_further. apply list_elem_of_here. }
  split; [exact Hin|].
  apply (generar_slots_no_overlap DEFAULT_DISPONIBILIDAD_CODE BUFFER_MIN_DEFAULT 100
           martes 30 [turno_ocupado] 10
           (slots_de (generar_slots 100 martes 30 [turno_ocupado] 10))
           (at_ martes 9 20) turno_ocupado (Hora 10 0) (Hora 10 30)).
  - vm_compute. reflexivity.
  - exact Hin.
  - apply list_elem_of_here.
  - reflexivity.
  - discriminate.
  - reflexivity.
  - reflexivity.
Defined.

(** C2.  Over windows that are listed in ascending order and do not overlap
    (each readable window closes no later than every later one opens), the
    list returned by the generator is strictly ascending in start time, and
    so holds no instant twice. *)
Theorem generar_slots_ascending
    (disponibilidad : gmap Z (list tramo)) (buffer_min : Z) (fuel : nat)
    (d : date) (dur_min : Z) (turnos : list turno) (step_min : Z)
    (res : list datetime) :
  tramos_ordenados (dict_get disponibilidad (isoweekday d) []) →
  generar_slots_en disponibilidad buffer_min fuel d dur_min turnos step_min = Ok res →
  StronglySorted Z.lt res ∧ NoDup res.
Proof.
  intros Hord Hrun.
  assert (Hsorted : StronglySorted Z.lt res); [|split; [done | by apply StronglySorted_lt_NoDup]].
  apply generar_slots_en_Ok in Hrun as [->|(Hdur & raw & Hraw & ->)]; [constructor|].
  eapply (recorrer_sorted _ _ _ _ _ _ _ _ _ (d * US_PER_DAY)) in Hraw
    as (new & -> & Hnew & _); [| unfold US_PER_MINUTE; lia | done |].
  - eapply StronglySorted_sublist; [apply unicos_sublist | done].
  - eapply Forall_impl; [apply ventanas_legibles_valid|].
    intros w [Hw _]. simpl. pose proof (combine_bounds d _ Hw). lia.
Qed.

Lemma generar_slots_ascending_witness :
  tramos_ordenados (dict_get DEFAULT_DISPONIBILIDAD_CODE (isoweekday lunes) []) ∧
  StronglySorted Z.lt (slots_de (generar_slots 100 lunes 90 [] 45)) ∧
  NoDup (slots_de (generar_slots 100 lunes 90 [] 45)).
Proof.
  assert (Hord : tramos_ordenados (dict_get DEFAULT_DISPONIBILIDAD_CODE (isoweekday lunes) [])).
  { unfold tramos_ordenados. vm_compute. repeat constructor. discriminate. }
  split; [exact Hord|].
  apply (generar_slots_ascending DEFAULT_DISPONIBILIDAD_CODE BUFFER_MIN_DEFAULT 100
           lunes 90 [] 45 _ Hord).
  vm_compute. reflexivity.
Defined.

(** C3.  Cancelling frees time.  Setting the state of one appointment to
    "Cancelado", everything else equal, loses no slot: whenever the
    generator returned a list before the change it returns one after it,
    holding every start it held before.  And a row whose state is
    "Cancelado" excludes nothing: the outcome is the one obtained without
    the row. *)
Theorem cancelado_frees_time
    (disponibilidad : gmap Z (list tramo)) (buffer_min : Z) (fuel : nat)
    (d : date) (dur_min : Z) (pre : list turno) (a c : turno) (post : list turno)
    (step_min : Z) :
  (∀ res,
     generar_slots_en disponibilidad buffer_min fuel d dur_min (pre ++ a :: post) step_min
       = Ok res →
     ∃ res',
       generar_slots_en disponibilidad buffer_min fuel d dur_min
         (pre ++ cancelar a :: post) step_min = Ok res'
       ∧ ∀ s, s ∈ res → s ∈ res')
  ∧ (estado c = "Cancelado"%string →
     generar_slots_en disponibilidad buffer_min fuel d dur_min (pre ++ c :: post) step_min
     = generar_slots_en disponibilidad buffer_min fuel d dur_min (pre ++ post) step_min).
Proof.
  split.
  - intros res Hrun.
    eapply generar_slots_en_sublist in Hrun as (res' & Hrun' & Hincl).
    + exists res'. split; [exact Hrun' | exact Hincl].
    + rewrite (activos_de_cancelado d pre (cancelar a) post) by done.
      apply activos_de_drop.
  - intros Hc. apply generar_slots_en_ext. intros buff c_start c_end.
    by rewrite activos_de_cancelado.
Qed.

Lemma cancelado_frees_time_witness :
  (∃ res',
     generar_slots 100 martes 30 [cancelar turno_ocupado] 10 = Ok res'
     ∧ ∀ s, s ∈ slots_de (generar_slots 100 martes 30 [turno_ocupado] 10) → s ∈ res')
  ∧ generar_slots 100 martes 30 [cancelar turno_ocupado] 10
    = generar_slots 100 martes 30 [] 10.
Proof.
  pose proof (cancelado_frees_time DEFAULT_DISPONIBILIDAD_CODE BUFFER_MIN_DEFAULT 100
                martes 30 [] turno_ocupado (cancelar turno_ocupado) [] 10) as [H1 H2].
  split.
  - apply H1. vm_compute. reflexivity.
  - apply H2. reflexivity.
Defined.

(** C5.  A row whose [inicio] or [fin] is not read by
    [strptime(..., "%H:%M")] is passed over: the outcome of the generator is
    the one obtained without the row.  And the call does return (it neither
    raises nor runs on) for every date from 0001-01-02 to 9999-12-30, step
    of 1..1440 minutes, duration of at most 1440 minutes and buffer of
    0..1440 minutes, given 1441 turns per window. *)
Theorem unreadable_turno_skipped
    (disponibilidad : gmap Z (list tramo)) (buffer_min : Z) (fuel : nat)
    (d : date) (dur_min : Z) (pre : list turno) (a : turno) (post : list turno)
    (step_min : Z) :
  ilegible a →
  generar_slots_en disponibilidad buffer_min fuel d dur_min (pre ++ a :: post) step_min
  = generar_slots_en disponibilidad buffer_min fuel d dur_min (pre ++ post) step_min
  ∧ (2 <= d < MAXORDINAL → 0 < step_min <= 1440 → dur_min <= 1440 →
     0 <= buffer_min <= 1440 → (1441 <= fuel)%nat →
     ∃ res,
       generar_slots_en disponibilidad buffer_min fuel d dur_min (pre ++ a :: post) step_min
       = Ok res).
Proof.
  intros Hbad. split.
  - apply generar_slots_en_ext. intros buff c_start c_end.
    rewrite !activos_de_filter, !List.filter_app. simpl.
    destruct (bloquea d a); [|done].
    apply libre_skip. intros iv. by apply ilegible_intervalo.
  - intros. by apply generar_slots_en_returns.
Qed.

Lemma unreadable_turno_skipped_witness :
  ilegible turno_sucio ∧
  generar_slots 1441 martes 30 [turno_ocupado; turno_sucio] 10
  = generar_slots 1441 martes 30 [turno_ocupado] 10
  ∧ ∃ res, generar_slots 1441 martes 30 [turno_ocupado; turno_sucio] 10 = Ok res.
Proof.
  assert (Hbad : ilegible turno_sucio) by (left; intros ts; vm_compute; discriminate).
  split; [exact Hbad|].
  destruct (unreadable_turno_skipped DEFAULT_DISPONIBILIDAD_CODE BUFFER_MIN_DEFAULT 1441
              martes 30 [turno_ocupado] turno_sucio [] 10 Hbad) as [H1 H2].
  split; [exact H1|].
  apply H2; unfold martes, MAXORDINAL, BUFFER_MIN_DEFAULT; lia.
Defined.

(** C7.  A duration of zero or less gives the empty list, returned
    normally, whatever the other inputs (and whatever the fuel). *)
Theorem generar_slots_duration_guard
    (disponibilidad : gmap Z (list tramo)) (buffer_min : Z) (fuel : nat)
    (d : date) (dur_min : Z) (turnos : list turno) (step_min : Z) :
  dur_min <= 0 →
  generar_slots_en disponibilidad buffer_min fuel d dur_min turnos step_min = Ok []
  ∧ generar_slots fuel d dur_min turnos step_min = Ok [].
Proof.
  intros Hdur. unfold generar_slots, generar_slots_en.
  apply Z.leb_le in Hdur. by rewrite Hdur.
Qed.

Lemma generar_slots_duration_guard_witness :
  generar_slots_en DEFAULT_DISPONIBILIDAD_CODE BUFFER_MIN_DEFAULT 0 martes 0
    [turno_ocupado] 10 = Ok []
  ∧ generar_slots 0 martes 0 [turno_ocupado] 10 = Ok [].
Proof.
  apply (generar_slots_duration_guard DEFAULT_DISPONIBILIDAD_CODE BUFFER_MIN_DEFAULT 0
           martes 0 [turno_ocupado] 10).
  lia.
Defined.

(** C10.  [to_time] is total: on every text it returns, giving either
    [None] or a time of day with hour 0..23 and minute 0..59; it never
    raises.  And a window of the day whose opening or closing text is not
    read by [to_time] is passed over by the generator: every list it returns
    is the one returned with that window struck from the table, and the two
    outcomes are equal as soon as another window is left. *)
Theorem to_time_total_window_skipped
    (disponibilidad : gmap Z (list tramo)) (buffer_min : Z) (fuel : nat)
    (d : date) (dur_min : Z) (turnos : list turno) (step_min : Z)
    (pre : list tramo) (ini fin : string) (post : list tramo) :
  (∀ hhmm, ∃ r, to_time hhmm = Ok r ∧ ∀ t, r = Some t → valid_time t)
  ∧ (dict_get disponibilidad (isoweekday d) [] = pre ++ (ini, fin) :: post →
     to_time ini = Ok None ∨ to_time fin = Ok None →
     (∀ res,
        generar_slots_en disponibilidad buffer_min fuel d dur_min turnos step_min = Ok res →
        generar_slots_en (<[isoweekday d := pre ++ post]> disponibilidad) buffer_min
          fuel d dur_min turnos step_min = Ok res)
     ∧ (pre ++ post ≠ [] →
        generar_slots_en (<[isoweekday d := pre ++ post]> disponibilidad) buffer_min
          fuel d dur_min turnos step_min
        = generar_slots_en disponibilidad buffer_min fuel d dur_min turnos step_min)).
Proof.
  split; [apply to_time_returns|].
  intros Htab Hbad.
  assert (Hget : dict_get (<[isoweekday d := pre ++ post]> disponibilidad) (isoweekday d) []
                 = pre ++ post).
  { unfold dict_get. by rewrite lookup_insert_eq. }
  assert (Hmain : pre ++ post ≠ [] →
     generar_slots_en (<[isoweekday d := pre ++ post]> disponibilidad) buffer_min
       fuel d dur_min turnos step_min
     = generar_slots_en disponibilidad buffer_min fuel d dur_min turnos step_min).
  { intros Hne. unfold generar_slots_en, windowsFor; simpl. rewrite Hget, Htab.
    destruct (dur_min <=? 0); [done|].
    assert (empty (pre ++ post) = false) as -> by (by destruct (pre ++ post)).
    assert (empty (pre ++ (ini, fin) :: post) = false) as -> by (by destruct pre).
    destruct (timedelta_minutes step_min); simpl; [|done..].
    destruct (timedelta_minutes dur_min); simpl; [|done..].
    destruct (timedelta_minutes buffer_min); simpl; [|done..].
    by rewrite recorrer_skip. }
  split; [|exact Hmain].
  intros res Hrun.
  destruct (decide (pre ++ post = [])) as [Hnil|Hne]; [|by rewrite Hmain].
  apply generar_slots_en_Ok in Hrun as [->|(Hdur & raw & Hraw & ->)].
  - unfold generar_slots_en, windowsFor; simpl. rewrite Hget, Hnil.
    by destruct (dur_min <=? 0).
  - rewrite Htab, recorrer_skip, Hnil in Hraw by done. injection Hraw as <-.
    unfold generar_slots_en, windowsFor; simpl. rewrite Hget, Hnil.
    by destruct (dur_min <=? 0).
Qed.

Lemma to_time_total_window_skipped_witness :
  to_time "mediodia" = Ok None ∧
  generar_slots_en
    (<[isoweekday martes := [("09:00", "10:00")] ++ [("14:00", "15:00")]]> tabla_sucia)
    BUFFER_MIN_DEFAULT 100 martes 30 [turno_ocupado] 10
  = generar_slots_en tabla_sucia BUFFER_MIN_DEFAULT 100 martes 30 [turno_ocupado] 10.
Proof.
  split; [reflexivity|].
  destruct (to_time_total_window_skipped tabla_sucia BUFFER_MIN_DEFAULT 100 martes 30
              [turno_ocupado] 10 [("09:00", "10:00")] "mediodia" "13:00"
              [("14:00", "15:00")]) as [_ H].
  apply H.
  - reflexivity.
  - left. reflexivity.
  - discriminate.
Defined.

(** C4.  The past-time filter.  When the date is the calendar date of
    [now], the output is the input restricted to the starts strictly after
    [now] (so it holds exactly those, and none at or before [now]); when the
    date is later than that of [now], the output is the input. *)
Theorem filter_future_slots_today_future (now : datetime) (d : date) (slots : list datetime) :
  (d = date_of now →
     filter_future_slots now d slots = List.filter (λ s, now <? s) slots
     ∧ ∀ s, s ∈ filter_future_slots now d slots ↔ s ∈ slots ∧ now < s)
  ∧ (date_of now < d → filter_future_slots now d slots = slots).
Proof.
  split.
  - intros ->.
    assert (Heq : filter_future_slots now (date_of now) slots
                  = List.filter (λ s, now <? s) slots).
    { unfold filter_future_slots. destruct slots; [done|]. simpl. by rewrite Z.eqb_refl. }
    split; [exact Heq|]. intros s. rewrite Heq, !list_elem_of_In, filter_In, Z.ltb_lt. tauto.
  - intros Hlt. unfold filter_future_slots. destruct slots; [done|]. simpl.
    destruct (d =? date_of now) eqn:E; [apply Z.eqb_eq in E; lia | done].
Qed.

Lemma filter_future_slots_today_future_witness :
  (filter_future_slots (at_ martes 14 5 + 30) martes
     [at_ martes 14 0; at_ martes 14 5; at_ martes 14 10]
   = List.filter (λ s, at_ martes 14 5 + 30 <? s)
       [at_ martes 14 0; at_ martes 14 5; at_ martes 14 10])
  ∧ filter_future_slots (at_ lunes 14 5) martes [at_ martes 9 0; at_ martes 14 0]
    = [at_ martes 9 0; at_ martes 14 0].
Proof.
  split.
  - apply (filter_future_slots_today_future (at_ martes 14 5 + 30) martes
             [at_ martes 14 0; at_ martes 14 5; at_ martes 14 10]).
    reflexivity.
  - apply (filter_future_slots_today_future (at_ lunes 14 5) martes
             [at_ martes 9 0; at_ martes 14 0]).
    vm_compute. reflexivity.
Defined.

(** C9.  The past-time filter only drops slots: its output is a
    subsequence of its input.  And for every date other than the calendar
    date of [now], earlier dates included, the output is the input. *)
Theorem filter_future_slots_subsequence (now : datetime) (d : date) (slots : list datetime) :
  filter_future_slots now d slots `sublist_of` slots
  ∧ (d ≠ date_of now → filter_future_slots now d slots = slots).
Proof.
  unfold filter_future_slots. destruct slots as [|s slots]; [by split|]. simpl empty. cbv iota.
  destruct (d =? date_of now) eqn:E.
  - split; [apply filter_sublist|]. apply Z.eqb_eq in E. congruence.
  - by split.
Qed.

Lemma filter_future_slots_subsequence_witness :
  filter_future_slots (at_ martes 14 5) lunes [at_ lunes 9 0; at_ lunes 14 0]
  = [at_ lunes 9 0; at_ lunes 14 0].
Proof.
  apply (filter_future_slots_subsequence (at_ martes 14 5) lunes
           [at_ lunes 9 0; at_ lunes 14 0]).
  vm_compute. discriminate.
Defined.

(** ** The catalogue folds *)

Lemma fold_left_add_acc (xs : list Z) (a : Z) :
  fold_left Z.add xs a = a + fold_left Z.add xs 0.
Proof.
  revert a. induction xs as [|x xs IH]; intros a; simpl; [lia|].
  rewrite (IH (a + x)), (IH (0 + x)). lia.
Qed.

Lemma sum_Z_cons (x : Z) (xs : list Z) : sum_Z (x :: xs) = x + sum_Z xs.
Proof. unfold sum_Z. simpl. apply fold_left_add_acc. Qed.

Lemma isin_true (x : string) (xs : list string) : isin x xs = true ↔ x ∈ xs.
Proof.
  unfold isin. rewrite existsb_exists, list_elem_of_In. split.
  - intros (y & Hy & Heq). by apply String.eqb_eq in Heq as ->.
  - intros Hx. exists x. split; [done | apply String.eqb_refl].
Qed.

Lemma mask_coincide (tipo0 : string) (zonas : list string) (r : servicio) :
  String.eqb (tipo r) tipo0 && isin (zona r) zonas = true ↔ coincide tipo0 zonas r.
Proof. unfold coincide. by rewrite andb_true_iff, String.eqb_eq, isin_true. Qed.

Lemma sum_selected (campo : servicio → Z) (tipo0 : string) (zonas : list string)
    (catalogo : list servicio) :
  sum_Z (map campo
           (List.filter (λ r, String.eqb (tipo r) tipo0 && isin (zona r) zonas) catalogo))
  = suma_de campo tipo0 zonas catalogo.
Proof.
  induction catalogo as [|r rest IH]; simpl; [done|].
  pose proof (mask_coincide tipo0 zonas r) as Hm.
  destruct (String.eqb (tipo r) tipo0 && isin (zona r) zonas) eqn:E.
  - simpl. rewrite sum_Z_cons, IH. destruct (decide _) as [|Hn]; [done|].
    destruct Hn. by apply Hm.
  - rewrite IH. destruct (decide _) as [Hc|]; [|lia].
    apply Hm in Hc. discriminate.
Qed.

Lemma total_guard (campo : servicio → Z) (f : servicio → bool) (df : list servicio) :
  (if empty df then 0
   else let sel := List.filter f df in
        if negb (empty sel) then sum_int64 (map campo sel) else 0)
  = sum_int64 (map campo (List.filter f df)).
Proof.
  destruct df as [|r rest]; [done|].
  unfold empty at 1. cbv iota zeta.
  generalize (List.filter f (r :: rest)). intros sel. by destruct sel.
Qed.

Lemma wrap64_small (z : Z) : en_int64 z → wrap64 z = z.
Proof. unfold en_int64, wrap64. intros H. rewrite Z.mod_small; lia. Qed.

Lemma wrap64_add_l (a b : Z) : wrap64 (wrap64 a + b) = wrap64 (a + b).
Proof.
  unfold wrap64.
  replace ((a + 2 ^ 63) mod 2 ^ 64 - 2 ^ 63 + b + 2 ^ 63)
    with ((a + 2 ^ 63) mod 2 ^ 64 + b) by lia.
  rewrite Zplus_mod_idemp_l. do 2 f_equal. lia.
Qed.

Lemma wrap64_add_r (a b : Z) : wrap64 (a + wrap64 b) = wrap64 (a + b).
Proof. by rewrite (Z.add_comm a), wrap64_add_l, (Z.add_comm b). Qed.

Lemma wrap64_range (z : Z) : en_int64 (wrap64 z).
Proof.
  unfold en_int64, wrap64.
  pose proof (Z.mod_pos_bound (z + 2 ^ 63) (2 ^ 64)). lia.
Qed.

Lemma fold_wrap64_acc (xs : list Z) (a : Z) :
  fold_left (λ acc x, wrap64 (acc + x)) xs (wrap64 a) = wrap64 (a + sum_Z xs).
Proof.
  revert a. induction xs as [|x xs IH]; intros a.
  - unfold sum_Z. simpl. f_equal. lia.
  - simpl. rewrite wrap64_add_l, IH, sum_Z_cons. f_equal. lia.
Qed.

(** The column sum is the sum without bound, brought back into [int64]. *)
Lemma sum_int64_wrap (xs : list Z) : sum_int64 xs = wrap64 (sum_Z xs).
Proof.
  unfold sum_int64. change 0 with (wrap64 0) at 1. by rewrite fold_wrap64_acc.
Qed.

Lemma suma_de_none (campo : servicio → Z) (tipo0 : string) (zonas : list string)
    (catalogo : list servicio) :
  (∀ r, r ∈ catalogo → ¬ coincide tipo0 zonas r) → suma_de campo tipo0 zonas catalogo = 0.
Proof.
  induction catalogo as [|r rest IH]; simpl; intros Hnone; [done|].
  rewrite IH by (intros r' Hr'; apply Hnone; by apply elem_of_cons; right).
  destruct (decide _) as [Hc|]; [|done].
  destruct (Hnone r); [apply list_elem_of_here | done].
Qed.

(** C8, as the code has it.  [calc_duracion] and [calc_precio] return
    the sum of [duracion_min], respectively [precio], over the catalogue
    rows whose type is the requested one and whose zone is among the
    requested zones, brought back into [int64] by wrap-around: exactly
    that sum whenever it lies in [-2^63, 2^63).  Both are zero when no
    row is chosen, and on the empty catalogue. *)
Theorem calc_duracion_precio_sum
    (catalogo : list servicio) (tipo0 : string) (zonas : list string) :
  calc_duracion catalogo tipo0 zonas
  = wrap64 (suma_de duracion_min tipo0 zonas catalogo)
  ∧ calc_precio catalogo tipo0 zonas
    = wrap64 (suma_de precio tipo0 zonas catalogo)
  ∧ (en_int64 (suma_de duracion_min tipo0 zonas catalogo) →
     calc_duracion catalogo tipo0 zonas = suma_de duracion_min tipo0 zonas catalogo)
  ∧ (en_int64 (suma_de precio tipo0 zonas catalogo) →
     calc_precio catalogo tipo0 zonas = suma_de precio tipo0 zonas catalogo)
  ∧ ((∀ r, r ∈ catalogo → ¬ coincide tipo0 zonas r) →
     calc_duracion catalogo tipo0 zonas = 0 ∧ calc_precio catalogo tipo0 zonas = 0)
  ∧ calc_duracion [] tipo0 zonas = 0
  ∧ calc_precio [] tipo0 zonas = 0.
Proof.
  assert (Hd : calc_duracion catalogo tipo0 zonas
               = wrap64 (suma_de duracion_min tipo0 zonas catalogo)).
  { unfold calc_duracion. by rewrite total_guard, sum_int64_wrap, sum_selected. }
  assert (Hp : calc_precio catalogo tipo0 zonas
               = wrap64 (suma_de precio tipo0 zonas catalogo)).
  { unfold calc_precio. by rewrite total_guard, sum_int64_wrap, sum_selected. }
  split; [exact Hd|]. split; [exact Hp|].
  split; [intros Hr; by rewrite Hd, wrap64_small|].
  split; [intros Hr; by rewrite Hp, wrap64_small|].
  split; [|by split].
  intros Hnone. rewrite Hd, Hp, !suma_de_none by done. by split.
Qed.

Lemma calc_duracion_precio_sum_witness :
  calc_duracion catalogo_ejemplo "Depilacion" ["Piernas"; "Brazos"; "Piernas"] = 50
  ∧ calc_precio catalogo_ejemplo "Depilacion" ["Piernas"; "Brazos"; "Piernas"] = 15000
  ∧ calc_duracion catalogo_ejemplo "Masaje" ["Piernas"] = 0
  ∧ calc_precio catalogo_ejemplo "Masaje" ["Piernas"] = 0.
Proof.
  destruct (calc_duracion_precio_sum catalogo_ejemplo "Depilacion"
              ["Piernas"; "Brazos"; "Piernas"]) as (_ & _ & Hd & Hp & _).
  destruct (calc_duracion_precio_sum catalogo_ejemplo "Masaje" ["Piernas"])
    as (_ & _ & _ & _ & Hnone & _).
  split; [rewrite Hd; [reflexivity | vm_compute; split; [discriminate | reflexivity]]|].
  split; [rewrite Hp; [reflexivity | vm_compute; split; [discriminate | reflexivity]]|].
  apply Hnone. intros r Hr [Ht _].
  repeat (apply elem_of_cons in Hr as [->|Hr]; [discriminate Ht|]).
  by apply elem_of_nil in Hr.
Defined.

Example calc_enorme :
  calc_duracion catalogo_enorme "Depilacion" ["Piernas"; "Brazos"] = - 2 ^ 63
  ∧ suma_de duracion_min "Depilacion" ["Piernas"; "Brazos"] catalogo_enorme = 2 ^ 63.
Proof. split; vm_compute; reflexivity. Qed.

(** Two rows of 2^62 minutes each, both chosen: the sum of the two is
    2^63, the total returned is -2^63. *)
Lemma calc_duracion_precio_wraps :
  ¬ (calc_duracion catalogo_enorme "Depilacion" ["Piernas"; "Brazos"]
     = suma_de duracion_min "Depilacion" ["Piernas"; "Brazos"] catalogo_enorme
     ∧ calc_precio catalogo_enorme "Depilacion" ["Piernas"; "Brazos"]
       = suma_de precio "Depilacion" ["Piernas"; "Brazos"] catalogo_enorme).
Proof. intros [H _]. vm_compute in H. discriminate H. Qed.

(** ** The lookup of the windows *)

Lemma DEFAULT_DISPONIBILIDAD_CODE_outside (weekday : Z) :
  weekday < 1 ∨ 6 < weekday → DEFAULT_DISPONIBILIDAD_CODE !! weekday = None.
Proof.
  intros H. unfold DEFAULT_DISPONIBILIDAD_CODE.
  rewrite !lookup_insert_ne by lia. apply lookup_empty.
Qed.

(** C6, as the code has it.  The lookup never fails: for every integer,
    inside [1,7] or not, it returns the list that the table holds for that
    key, and the empty list when the table has no entry for it; in the
    default table every key outside [1,6] gives the empty list.  The
    generator only looks up [isoweekday] of a date, which lies in [1,7]. *)
Theorem windowsFor_lookup
    (disponibilidad : gmap Z (list tramo)) (weekday : Z) (d : date) :
  (∀ tramos, disponibilidad !! weekday = Some tramos →
             windowsFor disponibilidad weekday = Ok tramos)
  ∧ (disponibilidad !! weekday = None → windowsFor disponibilidad weekday = Ok [])
  ∧ (weekday < 1 ∨ 6 < weekday → windowsFor DEFAULT_DISPONIBILIDAD_CODE weekday = Ok [])
  ∧ 1 <= isoweekday d <= 7.
Proof.
  unfold windowsFor, dict_get.
  split; [by intros tramos ->|]. split; [by intros ->|].
  split; [|apply isoweekday_range].
  intros H. by rewrite DEFAULT_DISPONIBILIDAD_CODE_outside.
Qed.

Lemma windowsFor_lookup_witness :
  windowsFor DEFAULT_DISPONIBILIDAD_CODE 1 = Ok [("09:00", "13:00"); ("14:00", "17:00")]
  ∧ windowsFor DEFAULT_DISPONIBILIDAD_CODE 7 = Ok []
  ∧ windowsFor DEFAULT_DISPONIBILIDAD_CODE 8 = Ok [].
Proof.
  destruct (windowsFor_lookup DEFAULT_DISPONIBILIDAD_CODE 1 martes) as (H1 & _).
  destruct (windowsFor_lookup DEFAULT_DISPONIBILIDAD_CODE 7 martes) as (_ & H7 & _).
  destruct (windowsFor_lookup DEFAULT_DISPONIBILIDAD_CODE 8 martes) as (_ & _ & H8 & _).
  split; [apply H1; reflexivity|].
  split; [apply H7; reflexivity|].
  apply H8. lia.
Defined.

(** The lookup at 0, a weekday outside [1,7], does not fail: it returns the
    empty list. *)
Lemma windowsFor_outside_returns :
  ¬ ((0 < 1 ∨ 7 < 0) → ∃ e, windowsFor DEFAULT_DISPONIBILIDAD_CODE 0 = Raise e).
Proof.
  intros H. destruct H as [e He]; [lia|]. discriminate He.
Qed.

(** * More properties of the code *)

(** ** The generator: which slots come out *)

Section Scan_more.
Variable date_obj : date.
Variable buff : timedelta.

(** A refused candidate clashes with a readable row. *)
Lemma libre_false c_start c_end rows :
  libre date_obj buff c_start c_end rows = Ok false →
  ∃ t t_start t_end, t ∈ rows ∧ intervalo date_obj t = Ok (t_start, t_end) ∧
    overlaps (c_start - buff) (c_end + buff) t_start t_end = true.
Proof.
  induction rows as [|r rows IH]; simpl; intros H; [done|].
  destruct (intervalo date_obj r) as [[rs re]| |] eqn:Hr; [| |done].
  - inv_bind H as a Ha. inv_bind H as b Hb.
    apply sub_Ok in Ha as ->. apply add_Ok in Hb as ->.
    destruct (overlaps _ _ _ _) eqn:Ho.
    + exists r, rs, re. split; [apply list_elem_of_here | done].
    + destruct (IH H) as (t & ts & te & Hin & Ht & Hov).
      exists t, ts, te. split; [by apply list_elem_of_further | done].
  - destruct (IH H) as (t & ts & te & Hin & Ht & Hov).
    exists t, ts, te. split; [by apply list_elem_of_further | done].
Qed.

(** The scan does not depend on the order of the rows. *)
Lemma libre_Permutation c_start c_end rows1 rows2 :
  rows1 ≡ₚ rows2 →
  libre date_obj buff c_start c_end rows1 = libre date_obj buff c_start c_end rows2.
Proof.
  induction 1 as [|r l1 l2 _ IH|r1 r2 l|l1 l2 l3 _ IH1 _ IH2]; simpl.
  - done.
  - by rewrite IH.
  - pose proof (intervalo_fuel date_obj r1). pose proof (intervalo_fuel date_obj r2).
    destruct (intervalo date_obj r1) as [[s1 e1]| |], (intervalo date_obj r2) as [[s2 e2]| |];
      try done.
    destruct (sub c_start buff) as [a| |]; simpl; [|done..].
    destruct (add c_end buff) as [b| |]; simpl; [|done..].
    by destruct (overlaps a b s1 e1), (overlaps a b s2 e2).
  - by rewrite IH1.
Qed.

End Scan_more.

Section Window_more.
Variable date_obj : date.
Variables step dur buff : timedelta.
Variable activos : list turno.

(** The slots appended by the loop of a window are candidates of its grid. *)
Lemma ventana_grid fuel end_window current result res :
  ventana date_obj step dur buff activos fuel end_window current result = Ok res →
  ∃ new, res = result ++ new ∧
    Forall (λ s, ∃ k, 0 <= k ∧ s = current + k * step ∧ s + dur <= end_window) new.
Proof.
  revert current result.
  induction fuel as [|fuel IH]; intros current result H; simpl in H; [done|].
  inv_bind H as limit Hl. apply add_Ok in Hl as ->.
  destruct (current + dur <=? end_window) eqn:E.
  - apply Z.leb_le in E.
    inv_bind H as c_end Hc. inv_bind H as ok Hok.
    inv_bind H as next Hn. apply add_Ok in Hn as ->.
    apply IH in H as (new & -> & Hall).
    assert (Hshift : Forall (λ s, ∃ k, 0 <= k ∧ s = current + k * step
                                       ∧ s + dur <= end_window) new).
    { eapply Forall_impl; [exact Hall|]. simpl. intros s (k & Hk & -> & Hfit).
      exists (k + 1). repeat split; [lia | lia | done]. }
    destruct ok.
    + exists (current :: new). split; [by rewrite <- app_assoc|].
      constructor; [|done]. exists 0. repeat split; [lia | lia | done].
    + by exists new.
  - injection H as <-. exists []. split; [by rewrite app_nil_r | constructor].
Qed.

(** Every candidate of the grid that no readable row refuses is appended. *)
Lemma ventana_complete fuel end_window current result res k :
  ventana date_obj step dur buff activos fuel end_window current result = Ok res →
  0 < step → 0 <= k →
  current + k * step + dur <= end_window →
  (∀ t t_start t_end, t ∈ activos → intervalo date_obj t = Ok (t_start, t_end) →
     overlaps (current + k * step - buff) (current + k * step + dur + buff)
              t_start t_end = false) →
  current + k * step ∈ res.
Proof.
  intros H Hstep. revert current result k H.
  induction fuel as [|fuel IH]; intros current result k H Hk Hfit Hfree; simpl in H; [done|].
  inv_bind H as limit Hl. apply add_Ok in Hl as ->.
  assert (current + dur <= end_window) as Hin by nia.
  apply Z.leb_le in Hin. rewrite Hin in H.
  inv_bind H as c_end Hc. apply add_Ok in Hc as ->.
  inv_bind H as ok Hok. rewrite libre_guard in Hok.
  inv_bind H as next Hn. apply add_Ok in Hn as ->.
  destruct (decide (k = 0)) as [->|Hk0].
  - replace (current + 0 * step) with current in * by lia.
    destruct ok.
    + apply ventana_Ok in H as (new & -> & _).
      apply elem_of_app. left. apply elem_of_app. right. apply list_elem_of_here.
    + apply libre_false in Hok as (t & ts & te & Hin' & Ht & Hov).
      rewrite (Hfree t ts te Hin' Ht) in Hov. discriminate.
  - replace (current + k * step) with (current + step + (k - 1) * step) in * by lia.
    eapply IH; [exact H | lia | done | done].
Qed.

End Window_more.

Section Day_more.
Variable date_obj : date.
Variables step dur buff : timedelta.
Variable activos : list turno.

(** Every slot appended over the day is a candidate of a readable window. *)
Lemma recorrer_grid fuel tramos result res :
  recorrer date_obj step dur buff activos fuel tramos result = Ok res →
  ∃ new, res = result ++ new ∧
    Forall (λ s, ∃ w, w ∈ ventanas_legibles tramos ∧ en_ventana date_obj step dur w s) new.
Proof.
  revert result. induction tramos as [|[ini fin] tramos IH]; intros result H; simpl in H.
  - injection H as <-. exists []. split; [by rewrite app_nil_r | constructor].
  - inv_bind H as ti Hti. inv_bind H as tf Htf. simpl. rewrite Hti, Htf.
    destruct ti as [ti|]; [|by apply IH].
    destruct tf as [tf|]; [|by apply IH].
    inv_bind H as r1 Hr1.
    apply ventana_grid in Hr1 as (new1 & -> & Hall1).
    apply IH in H as (new2 & -> & Hall2).
    exists (new1 ++ new2). split; [by rewrite app_assoc|].
    apply Forall_app. split.
    + eapply Forall_impl; [exact Hall1|]. simpl. intros s (k & Hk & Hs & Hfit).
      exists (ti, tf). split; [apply list_elem_of_here|]. by exists k.
    + eapply Forall_impl; [exact Hall2|]. simpl. intros s (w & Hw & Hs).
      exists w. split; [by apply list_elem_of_further | done].
Qed.

(** Every candidate of a readable window that no readable row refuses is
    in the list. *)
Lemma recorrer_complete fuel tramos result res w s :
  recorrer date_obj step dur buff activos fuel tramos result = Ok res →
  0 < step →
  w ∈ ventanas_legibles tramos →
  en_ventana date_obj step dur w s →
  (∀ t t_start t_end, t ∈ activos → intervalo date_obj t = Ok (t_start, t_end) →
     overlaps (s - buff) (s + dur + buff) t_start t_end = false) →
  s ∈ res.
Proof.
  intros H Hstep Hw (k & Hk & -> & Hfit) Hfree. revert result H Hw.
  induction tramos as [|[ini fin] tramos IH]; intros result H Hw; simpl in *.
  - by apply elem_of_nil in Hw.
  - inv_bind H as ti Hti. inv_bind H as tf Htf. rewrite Hti, Htf in Hw.
    destruct ti as [ti|]; [|by eapply IH].
    destruct tf as [tf|]; [|by eapply IH].
    inv_bind H as r1 Hr1.
    apply elem_of_cons in Hw as [->|Hw]; [|by eapply IH].
    simpl in *.
    eapply ventana_complete in Hr1; [|done..].
    apply recorrer_libre in H as (new & -> & _).
    apply elem_of_app. by left.
Qed.

(** With a step that does not advance, the loop over the day never
    returns once a readable window has room for the duration. *)
Lemma recorrer_stuck fuel tramos result res w :
  step <= 0 →
  w ∈ ventanas_legibles tramos →
  combine date_obj (fst w) + dur <= combine date_obj (snd w) →
  recorrer date_obj step dur buff activos fuel tramos result ≠ Ok res.
Proof.
  intros Hstep Hw Hfit. revert result.
  induction tramos as [|[ini fin] tramos IH]; intros result H; simpl in *.
  - by apply elem_of_nil in Hw.
  - inv_bind H as ti Hti. inv_bind H as tf Htf. rewrite Hti, Htf in Hw.
    destruct ti as [ti|]; [|by eapply IH].
    destruct tf as [tf|]; [|by eapply IH].
    inv_bind H as r1 Hr1.
    apply elem_of_cons in Hw as [->|Hw]; [|by eapply IH].
    by eapply ventana_stuck in Hr1.
Qed.

End Day_more.

(** A call with a positive duration has run the loop over the day. *)
Lemma generar_slots_en_run disponibilidad buffer_min fuel d dur_min turnos step_min res :
  0 < dur_min →
  generar_slots_en disponibilidad buffer_min fuel d dur_min turnos step_min = Ok res →
  ∃ raw, recorrer d (step_min * US_PER_MINUTE) (dur_min * US_PER_MINUTE)
           (buffer_min * US_PER_MINUTE) (activos_de d turnos) fuel
           (dict_get disponibilidad (isoweekday d) []) [] = Ok raw
         ∧ res = unicos ∅ raw.
Proof.
  intros Hdur. unfold generar_slots_en, windowsFor; simpl.
  destruct (dur_min <=? 0) eqn:E; [apply Z.leb_le in E; lia|].
  destruct (dict_get disponibilidad (isoweekday d) []) as [|w tramos] eqn:Htab.
  - simpl. intros [= <-]. by exists [].
  - simpl empty. cbv iota.
    intros H. inv_bind H as step Hstep. inv_bind H as dur Hd. inv_bind H as buff Hbuff.
    inv_bind H as raw Hraw. injection H as <-.
    apply timedelta_minutes_Ok in Hstep as ->, Hd as ->, Hbuff as ->. eauto.
Qed.

Lemma activos_clash_free d dur buff turnos s :
  sin_choque d dur buff turnos s →
  ∀ t t_start t_end, t ∈ activos_de d turnos → intervalo d t = Ok (t_start, t_end) →
    overlaps (s - buff) (s + dur + buff) t_start t_end = false.
Proof.
  intros Hfree t t_start t_end Ht Hiv.
  apply elem_of_activos_de in Ht as (Hin & Hf & He).
  apply intervalo_Ok in Hiv as (ts & te & Hs & Hte & -> & ->).
  specialize (Hfree t ts te Hin Hf He Hs Hte).
  apply overlaps_false in Hfree. apply overlaps_false. lia.
Qed.

Lemma clash_free_activos d dur buff turnos s :
  libre d buff s (s + dur) (activos_de d turnos) = Ok true →
  sin_choque d dur buff turnos s.
Proof.
  intros Hlibre t ts te Hin Hf He Hs Hte.
  pose proof (libre_true _ _ _ _ _ Hlibre t (combine d ts) (combine d te)) as Hno.
  apply overlaps_false. apply overlaps_false in Hno; [lia| |].
  - apply elem_of_activos_de. eauto.
  - apply intervalo_Ok. eauto 6.
Qed.

Lemma ventana_idle d step dur buff activos fuel end_window current result res :
  step <= 0 →
  ventana d step dur buff activos fuel end_window current result = Ok res →
  res = result.
Proof.
  intros Hstep H.
  destruct (Z_le_gt_dec (current + dur) end_window) as [Hin|Hout].
  - by eapply ventana_stuck in H.
  - destruct fuel as [|fuel]; simpl in H; [done|].
    inv_bind H as limit Hl. apply add_Ok in Hl as ->.
    destruct (current + dur <=? end_window) eqn:E; [apply Z.leb_le in E; lia|].
    by injection H as <-.
Qed.

Lemma recorrer_idle d step dur buff activos fuel tramos result res :
  step <= 0 →
  recorrer d step dur buff activos fuel tramos result = Ok res →
  res = result.
Proof.
  intros Hstep. revert result.
  induction tramos as [|[ini fin] tramos IH]; intros result H; simpl in H.
  - by injection H as <-.
  - inv_bind H as ti Hti. inv_bind H as tf Htf.
    destruct ti as [ti|]; [|by apply IH].
    destruct tf as [tf|]; [|by apply IH].
    inv_bind H as r1 Hr1. apply ventana_idle in Hr1 as ->; [by apply IH | done].
Qed.

Section Generator_more.
Variable disponibilidad : gmap Z (list tramo).
Variable buffer_min : Z.

Local Abbreviation generar := (generar_slots_en disponibilidad buffer_min).
Local Abbreviation tramos_de d := (dict_get disponibilidad (isoweekday d) []).

(** A slot of a returned list: the call had a positive duration and a
    positive step, and the slot is a candidate of a readable window. *)
Lemma generar_slots_en_grid fuel d dur_min turnos step_min res s :
  generar fuel d dur_min turnos step_min = Ok res → s ∈ res →
  0 < dur_min ∧ 0 < step_min ∧
  ∃ w, w ∈ ventanas_legibles (tramos_de d) ∧
       en_ventana d (step_min * US_PER_MINUTE) (dur_min * US_PER_MINUTE) w s.
Proof.
  intros Hrun Hs.
  assert (0 < dur_min) as Hdur.
  { apply generar_slots_en_Ok in Hrun as [->|(? & _)]; [by apply elem_of_nil in Hs | done]. }
  apply generar_slots_en_run in Hrun as (raw & Hraw & ->); [|done].
  apply unicos_elem in Hs as [Hs _].
  split; [done|]. split.
  - destruct (Z_le_gt_dec step_min 0) as [Hle|]; [|lia].
    apply recorrer_idle in Hraw as ->; [by apply elem_of_nil in Hs|].
    unfold US_PER_MINUTE. lia.
  - apply recorrer_grid in Hraw as (new & -> & Hall). simpl in Hs.
    eapply Forall_forall in Hall; [|exact Hs]. done.
Qed.

(** A slot of a returned list clashes with no readable blocking row. *)
Lemma generar_slots_en_sin_choque fuel d dur_min turnos step_min res s :
  generar fuel d dur_min turnos step_min = Ok res → s ∈ res →
  sin_choque d (dur_min * US_PER_MINUTE) (buffer_min * US_PER_MINUTE) turnos s.
Proof.
  intros Hrun Hs.
  apply generar_slots_en_Ok in Hrun as [->|(_ & raw & Hraw & ->)];
    [by apply elem_of_nil in Hs|].
  apply unicos_elem in Hs as [Hs _].
  apply recorrer_libre in Hraw as (new & -> & Hall). simpl in Hs.
  eapply Forall_forall in Hall; [|exact Hs]. by apply clash_free_activos.
Qed.

(** A candidate of a readable window that clashes with no readable
    blocking row is in the returned list. *)
Lemma generar_slots_en_complete fuel d dur_min turnos step_min res w s :
  generar fuel d dur_min turnos step_min = Ok res →
  0 < dur_min → 0 < step_min →
  w ∈ ventanas_legibles (tramos_de d) →
  en_ventana d (step_min * US_PER_MINUTE) (dur_min * US_PER_MINUTE) w s →
  sin_choque d (dur_min * US_PER_MINUTE) (buffer_min * US_PER_MINUTE) turnos s →
  s ∈ res.
Proof.
  intros Hrun Hdur Hstep Hw Hs Hfree.
  apply generar_slots_en_run in Hrun as (raw & Hraw & ->); [|done].
  apply unicos_empty_elem.
  eapply recorrer_complete; [exact Hraw | unfold US_PER_MINUTE; lia | done | done |].
  by apply activos_clash_free.
Qed.

End Generator_more.

(** X1.  Business hours.  Every slot of a returned list starts a whole
    number of steps after the opening of one readable window of that
    weekday and ends no later than that window closes; a list that holds a
    slot comes from a call with a positive duration and a positive step. *)
Theorem generar_slots_within_window
    (disponibilidad : gmap Z (list tramo)) (buffer_min : Z) (fuel : nat)
    (d : date) (dur_min : Z) (turnos : list turno) (step_min : Z)
    (res : list datetime) (s : datetime) :
  generar_slots_en disponibilidad buffer_min fuel d dur_min turnos step_min = Ok res →
  s ∈ res →
  0 < dur_min ∧ 0 < step_min ∧
  ∃ ti tf k,
    (ti, tf) ∈ ventanas_legibles (dict_get disponibilidad (isoweekday d) []) ∧
    0 <= k ∧
    s = combine d ti + k * (step_min * US_PER_MINUTE) ∧
    s + dur_min * US_PER_MINUTE <= combine d tf.
Proof.
  intros Hrun Hs.
  destruct (generar_slots_en_grid _ _ _ _ _ _ _ _ _ Hrun Hs)
    as (Hdur & Hstep & [ti tf] & Hw & k & Hk & Heq & Hfit).
  split; [done|]. split; [done|]. exists ti, tf, k. auto.
Qed.

Lemma generar_slots_within_window_witness :
  ∃ ti tf k,
    (ti, tf) ∈ ventanas_legibles
                 (dict_get DEFAULT_DISPONIBILIDAD_CODE (isoweekday lunes) []) ∧
    0 <= k ∧
    at_ lunes 14 45 = combine lunes ti + k * (45 * US_PER_MINUTE) ∧
    at_ lunes 14 45 + 90 * US_PER_MINUTE <= combine lunes tf.
Proof.
  apply (generar_slots_within_window DEFAULT_DISPONIBILIDAD_CODE BUFFER_MIN_DEFAULT 100
           lunes 90 [] 45 (slots_de (generar_slots 100 lunes 90 [] 45)) (at_ lunes 14 45)).
  - vm_compute. reflexivity.
  - vm_compute. do 5 apply list_elem_of_further. apply list_elem_of_here.
Defined.

(** X2.  Nothing is left out.  When the call returns, with a positive
    duration and step, every instant that lies a whole number of steps
    after the opening of a readable window, ends no later than the window
    closes and clashes with no readable blocking row of the date (each
    widened by the buffer) is in the returned list. *)
Theorem generar_slots_complete
    (disponibilidad : gmap Z (list tramo)) (buffer_min : Z) (fuel : nat)
    (d : date) (dur_min : Z) (turnos : list turno) (step_min : Z)
    (res : list datetime) (ti tf : time) (k : Z) :
  generar_slots_en disponibilidad buffer_min fuel d dur_min turnos step_min = Ok res →
  0 < dur_min → 0 < step_min →
  (ti, tf) ∈ ventanas_legibles (dict_get disponibilidad (isoweekday d) []) →
  0 <= k →
  combine d ti + k * (step_min * US_PER_MINUTE) + dur_min * US_PER_MINUTE
    <= combine d tf →
  sin_choque d (dur_min * US_PER_MINUTE) (buffer_min * US_PER_MINUTE) turnos
    (combine d ti + k * (step_min * US_PER_MINUTE)) →
  combine d ti + k * (step_min * US_PER_MINUTE) ∈ res.
Proof.
  intros Hrun Hdur Hstep Hw Hk Hfit Hfree.
  eapply generar_slots_en_complete; [exact Hrun | done | done | exact Hw | | done].
  exists k. auto.
Qed.

Lemma generar_slots_complete_witness :
  combine martes (Hora 9 0) + 10 * (10 * US_PER_MINUTE)
  ∈ slots_de (generar_slots 100 martes 30 [turno_ocupado] 10).
Proof.
  apply (generar_slots_complete DEFAULT_DISPONIBILIDAD_CODE BUFFER_MIN_DEFAULT 100
           martes 30 [turno_ocupado] 10 _ (Hora 9 0) (Hora 17 0) 10).
  - vm_compute. reflexivity.
  - lia.
  - lia.
  - vm_compute. apply list_elem_of_here.
  - lia.
  - vm_compute. discriminate.
  - intros t ts te Ht _ _ Hs He.
    apply elem_of_cons in Ht as [->|Ht]; [|by apply elem_of_nil in Ht].
    vm_compute in Hs, He. injection Hs as <-. injection He as <-.
    vm_compute. reflexivity.
Defined.

Lemma filter_Permutation {A} (f : A → bool) (l1 l2 : list A) :
  l1 ≡ₚ l2 → List.filter f l1 ≡ₚ List.filter f l2.
Proof.
  induction 1 as [|x l1 l2 _ IH|x y l|l1 l2 l3 _ IH1 _ IH2]; simpl.
  - done.
  - destruct (f x); [by constructor | done].
  - destruct (f x), (f y); try done. apply perm_swap.
  - by etrans.
Qed.

Lemma activos_de_other_date d pre a post :
  fecha a ≠ Some d →
  activos_de d (pre ++ a :: post) = activos_de d (pre ++ post).
Proof.
  intros Hf. rewrite !activos_de_filter, !List.filter_app. simpl.
  assert (bloquea d a = false) as ->; [|done].
  destruct (bloquea d a) eqn:E; [|done]. apply bloquea_true in E as [? _]. done.
Qed.

Lemma sin_choque_shorter d dur1 dur2 buff turnos s :
  dur1 <= dur2 → sin_choque d dur2 buff turnos s → sin_choque d dur1 buff turnos s.
Proof.
  intros Hle Hfree t ts te Hin Hf He Hs Hte.
  specialize (Hfree t ts te Hin Hf He Hs Hte).
  apply overlaps_false in Hfree. apply overlaps_false. lia.
Qed.

(** X3.  A closed day.  When the table has no window for the weekday of
    the date the call returns the empty list, whatever the duration, the
    step, the appointments and the fuel; with the default table this is
    every Sunday. *)
Theorem generar_slots_closed_day
    (disponibilidad : gmap Z (list tramo)) (buffer_min : Z) (fuel : nat)
    (d : date) (dur_min : Z) (turnos : list turno) (step_min : Z) :
  (dict_get disponibilidad (isoweekday d) [] = [] →
   generar_slots_en disponibilidad buffer_min fuel d dur_min turnos step_min = Ok [])
  ∧ (d mod 7 = 0 → generar_slots fuel d dur_min turnos step_min = Ok []).
Proof.
  assert (Hgen : ∀ disp, dict_get disp (isoweekday d) [] = [] →
    generar_slots_en disp buffer_min fuel d dur_min turnos step_min = Ok []).
  { intros disp Htab. unfold generar_slots_en, windowsFor; simpl. rewrite Htab.
    by destruct (dur_min <=? 0). }
  split; [apply Hgen|].
  intros Hsun. unfold generar_slots, generar_slots_en, windowsFor, isoweekday; simpl.
  rewrite Hsun. simpl. by destruct (dur_min <=? 0).
Qed.

Lemma generar_slots_closed_day_witness :
  generar_slots_en tabla_sucia BUFFER_MIN_DEFAULT 0 lunes 30 [turno_ocupado] 10 = Ok []
  ∧ generar_slots 0 (martes + 5) 30 [turno_ocupado] 10 = Ok [].
Proof.
  split.
  - apply (generar_slots_closed_day tabla_sucia BUFFER_MIN_DEFAULT 0 lunes 30
             [turno_ocupado] 10). reflexivity.
  - apply (generar_slots_closed_day tabla_sucia BUFFER_MIN_DEFAULT 0 (martes + 5) 30
             [turno_ocupado] 10). reflexivity.
Defined.

(** X4.  A step of zero or less.  When the duration is positive and some
    readable window of the day has room for it, a call with a step of zero
    or less never returns a list, however much fuel it is given: the loop
    of that window does not advance. *)
Theorem generar_slots_nonpositive_step
    (disponibilidad : gmap Z (list tramo)) (buffer_min : Z) (fuel : nat)
    (d : date) (dur_min : Z) (turnos : list turno) (step_min : Z)
    (ti tf : time) (res : list datetime) :
  0 < dur_min → step_min <= 0 →
  (ti, tf) ∈ ventanas_legibles (dict_get disponibilidad (isoweekday d) []) →
  time_us ti + dur_min * US_PER_MINUTE <= time_us tf →
  generar_slots_en disponibilidad buffer_min fuel d dur_min turnos step_min ≠ Ok res.
Proof.
  intros Hdur Hstep Hw Hfit Hrun.
  apply generar_slots_en_run in Hrun as (raw & Hraw & _); [|done].
  eapply recorrer_stuck in Hraw; [done | unfold US_PER_MINUTE; lia | exact Hw |].
  simpl. unfold combine. lia.
Qed.

Lemma generar_slots_nonpositive_step_witness :
  generar_slots 5000 martes 30 [turno_ocupado] 0 ≠ Ok [].
Proof.
  apply (generar_slots_nonpositive_step DEFAULT_DISPONIBILIDAD_CODE BUFFER_MIN_DEFAULT 5000
           martes 30 [turno_ocupado] 0 (Hora 9 0) (Hora 17 0) []).
  - lia.
  - lia.
  - vm_compute. apply list_elem_of_here.
  - vm_compute. discriminate.
Defined.

(** X5.  Rows of other dates.  A row whose date is not the requested one
    (or is not a date) has no effect: the outcome is the one obtained
    without the row. *)
Theorem generar_slots_other_dates
    (disponibilidad : gmap Z (list tramo)) (buffer_min : Z) (fuel : nat)
    (d : date) (dur_min : Z) (pre : list turno) (a : turno) (post : list turno)
    (step_min : Z) :
  fecha a ≠ Some d →
  generar_slots_en disponibilidad buffer_min fuel d dur_min (pre ++ a :: post) step_min
  = generar_slots_en disponibilidad buffer_min fuel d dur_min (pre ++ post) step_min.
Proof.
  intros Hf. apply generar_slots_en_ext. intros buff c_start c_end.
  by rewrite activos_de_other_date.
Qed.

Lemma generar_slots_other_dates_witness :
  generar_slots 100 lunes 30 [turno_ocupado] 10 = generar_slots 100 lunes 30 [] 10.
Proof.
  apply (generar_slots_other_dates DEFAULT_DISPONIBILIDAD_CODE BUFFER_MIN_DEFAULT 100
           lunes 30 [] turno_ocupado [] 10).
  vm_compute. discriminate.
Defined.

(** X6.  The order of the rows.  Reordering the appointment rows changes
    nothing: the outcome (list, raise or running on) is the same. *)
Theorem generar_slots_row_order
    (disponibilidad : gmap Z (list tramo)) (buffer_min : Z) (fuel : nat)
    (d : date) (dur_min : Z) (turnos1 turnos2 : list turno) (step_min : Z) :
  turnos1 ≡ₚ turnos2 →
  generar_slots_en disponibilidad buffer_min fuel d dur_min turnos1 step_min
  = generar_slots_en disponibilidad buffer_min fuel d dur_min turnos2 step_min.
Proof.
  intros Hperm. apply generar_slots_en_ext. intros buff c_start c_end.
  apply libre_Permutation. rewrite !activos_de_filter. by apply filter_Permutation.
Qed.

Lemma generar_slots_row_order_witness :
  generar_slots 100 martes 30 [turno_ocupado; turno_sucio] 10
  = generar_slots 100 martes 30 [turno_sucio; turno_ocupado] 10.
Proof.
  apply (generar_slots_row_order DEFAULT_DISPONIBILIDAD_CODE BUFFER_MIN_DEFAULT 100
           martes 30 [turno_ocupado; turno_sucio] [turno_sucio; turno_ocupado] 10).
  apply perm_swap.
Defined.

(** X7.  A longer service has fewer slots.  With the same table, buffer,
    date, appointments and step, every slot returned for a duration is
    also returned for any shorter positive duration (both calls
    returning). *)
Theorem generar_slots_longer_duration
    (disponibilidad : gmap Z (list tramo)) (buffer_min : Z) (fuel1 fuel2 : nat)
    (d : date) (dur1 dur2 : Z) (turnos : list turno) (step_min : Z)
    (res1 res2 : list datetime) (s : datetime) :
  generar_slots_en disponibilidad buffer_min fuel1 d dur1 turnos step_min = Ok res1 →
  generar_slots_en disponibilidad buffer_min fuel2 d dur2 turnos step_min = Ok res2 →
  0 < dur1 <= dur2 →
  s ∈ res2 → s ∈ res1.
Proof.
  intros Hrun1 Hrun2 [Hpos Hle] Hs.
  destruct (generar_slots_en_grid _ _ _ _ _ _ _ _ _ Hrun2 Hs)
    as (_ & Hstep & w & Hw & k & Hk & Heq & Hfit).
  eapply generar_slots_en_complete; [exact Hrun1 | done | done | exact Hw | |].
  - exists k. repeat split; [done | done | unfold US_PER_MINUTE in *; lia].
  - eapply sin_choque_shorter; [|by eapply generar_slots_en_sin_choque].
    unfold US_PER_MINUTE. lia.
Qed.

Lemma generar_slots_longer_duration_witness :
  at_ martes 10 40 ∈ slots_de (generar_slots 100 martes 30 [turno_ocupado] 10).
Proof.
  apply (generar_slots_longer_duration DEFAULT_DISPONIBILIDAD_CODE BUFFER_MIN_DEFAULT
           100 100 martes 30 60 [turno_ocupado] 10
           (slots_de (generar_slots 100 martes 30 [turno_ocupado] 10))
           (slots_de (generar_slots 100 martes 60 [turno_ocupado] 10))).
  - vm_compute. reflexivity.
  - vm_compute. reflexivity.
  - lia.
  - vm_compute. apply list_elem_of_here.
Defined.

(** X8.  No instant twice.  A returned list never holds the same start
    twice, even over a table whose windows overlap or are out of order. *)
Theorem generar_slots_no_duplicates
    (disponibilidad : gmap Z (list tramo)) (buffer_min : Z) (fuel : nat)
    (d : date) (dur_min : Z) (turnos : list turno) (step_min : Z)
    (res : list datetime) :
  generar_slots_en disponibilidad buffer_min fuel d dur_min turnos step_min = Ok res →
  NoDup res.
Proof.
  intros Hrun.
  apply generar_slots_en_Ok in Hrun as [->|(_ & raw & _ & ->)];
    [constructor | apply unicos_NoDup].
Qed.

Lemma generar_slots_no_duplicates_witness :
  NoDup (slots_de (generar_slots_en tabla_solapada BUFFER_MIN_DEFAULT 100 martes 60 [] 30)).
Proof.
  apply (generar_slots_no_duplicates tabla_solapada BUFFER_MIN_DEFAULT 100 martes 60 [] 30).
  vm_compute. reflexivity.
Defined.

Ltac find_elem :=
  vm_compute; repeat first [apply list_elem_of_here | apply list_elem_of_further].

(** ** The labels of the booking screen *)

Lemma labels_checked :
  forallb (λ h, forallb (λ m,
    match strptime_HM (two_digits h ++ ":"%char :: two_digits m),
          to_time (string_of_list_ascii (two_digits h ++ ":"%char :: two_digits m)) with
    | Ok (Hora h1 m1), Ok (Some (Hora h2 m2)) =>
        (h1 =? h) && (m1 =? m) && (h2 =? h) && (m2 =? m)
    | _, _ => false
    end) (seqZ 0 60)) (seqZ 0 24) = true.
Proof. vm_compute. reflexivity. Qed.

Lemma label_read (h m : Z) :
  0 <= h < 24 → 0 <= m < 60 →
  strptime_HM (two_digits h ++ ":"%char :: two_digits m) = Ok (Hora h m)
  ∧ to_time (string_of_list_ascii (two_digits h ++ ":"%char :: two_digits m))
    = Ok (Some (Hora h m)).
Proof.
  intros Hh Hm. pose proof labels_checked as Hall.
  rewrite forallb_forall in Hall. specialize (Hall h).
  rewrite forallb_forall in Hall.
  assert (In h (seqZ 0 24)) as Hin by (apply list_elem_of_In, elem_of_seqZ; lia).
  assert (In m (seqZ 0 60)) as Hin' by (apply list_elem_of_In, elem_of_seqZ; lia).
  specialize (Hall Hin m Hin').
  destruct (strptime_HM _) as [[h1 m1]| |]; [|done..].
  destruct (to_time _) as [[[h2 m2]|]| |]; [|done..].
  apply andb_true_iff in Hall as [Hall E4]. apply andb_true_iff in Hall as [Hall E3].
  apply andb_true_iff in Hall as [E1 E2].
  apply Z.eqb_eq in E1, E2, E3, E4. by subst.
Qed.

Lemma hora_de_combine d h m :
  0 <= h < 24 → 0 <= m < 60 → hora_de (combine d (Hora h m)) = (h, m).
Proof.
  intros Hh Hm.
  unfold hora_de, combine, time_us, US_PER_DAY, US_PER_HOUR, US_PER_MINUTE; simpl.
  f_equal.
  - replace ((d * 86400000000 + (h * 3600000000 + m * 60000000)) mod 86400000000)
      with (h * 3600000000 + m * 60000000).
    + symmetry. apply (Z.div_unique _ _ _ (m * 60000000)); lia.
    + apply (Z.mod_unique _ _ d); lia.
  - replace ((d * 86400000000 + (h * 3600000000 + m * 60000000)) mod 3600000000)
      with (m * 60000000).
    + symmetry. apply (Z.div_unique _ _ _ 0); lia.
    + apply (Z.mod_unique _ _ (d * 24 + h)); lia.
Qed.

Lemma strftime_HM_read d s :
  minuto_del_dia d s →
  ∃ t, strptime_HM (str (strftime_HM s)) = Ok t ∧ to_time (strftime_HM s) = Ok (Some t)
       ∧ valid_time t ∧ combine d t = s.
Proof.
  intros (h & m & Hh & Hm & ->). exists (Hora h m).
  unfold strftime_HM. rewrite hora_de_combine by done.
  unfold str. rewrite list_ascii_of_string_of_list_ascii.
  destruct (label_read h m Hh Hm) as [-> ->].
  repeat split; simpl; lia.
Qed.

Lemma strftime_HM_inj d s1 s2 :
  minuto_del_dia d s1 → minuto_del_dia d s2 →
  strftime_HM s1 = strftime_HM s2 → s1 = s2.
Proof.
  intros H1 H2 Heq.
  destruct (strftime_HM_read d s1 H1) as (t1 & Hr1 & _ & _ & <-).
  destruct (strftime_HM_read d s2 H2) as (t2 & Hr2 & _ & _ & <-).
  rewrite Heq in Hr1. congruence.
Qed.

Lemma minuto_del_dia_date d s : minuto_del_dia d s → date_of s = d.
Proof.
  intros (h & m & Hh & Hm & ->).
  unfold date_of, combine, time_us, US_PER_DAY, US_PER_HOUR, US_PER_MINUTE; simpl.
  symmetry. apply (Z.div_unique _ _ _ (h * 3600000000 + m * 60000000)); lia.
Qed.

(** An instant of day [d], a whole number of minutes after its start. *)
Lemma minuto_del_dia_intro d n :
  0 <= n < 1440 → minuto_del_dia d (d * US_PER_DAY + n * US_PER_MINUTE).
Proof.
  intros Hn. exists (n / 60), (n mod 60).
  pose proof (Z.div_mod n 60 ltac:(lia)) as Hdm.
  pose proof (Z.mod_pos_bound n 60 ltac:(lia)).
  assert (0 <= n / 60 < 24) by (split; [apply Z.div_pos | apply Z.div_lt_upper_bound]; lia).
  repeat split; try lia.
  unfold combine, time_us, US_PER_DAY, US_PER_HOUR, US_PER_MINUTE; simpl. lia.
Qed.

Lemma en_ventana_minuto d step_min dur w s :
  valid_time (fst w) → valid_time (snd w) → 0 <= step_min → 0 <= dur →
  en_ventana d (step_min * US_PER_MINUTE) dur w s →
  minuto_del_dia d s.
Proof.
  intros Hv1 Hv2 Hstep Hdur (k & Hk & -> & Hfit).
  pose proof (combine_bounds d _ Hv1) as Hb1. pose proof (combine_bounds d _ Hv2) as Hb2.
  destruct Hv1 as [Hh Hm].
  replace (combine d (fst w) + k * (step_min * US_PER_MINUTE))
    with (d * US_PER_DAY + (hour (fst w) * 60 + minute (fst w) + k * step_min) * US_PER_MINUTE)
    by (unfold combine, time_us, US_PER_DAY, US_PER_HOUR, US_PER_MINUTE; lia).
  apply minuto_del_dia_intro.
  assert (0 <= k * step_min) by nia.
  unfold combine, time_us, US_PER_DAY, US_PER_HOUR, US_PER_MINUTE in *. lia.
Qed.

Lemma ventanas_legibles_valid_elem tramos w :
  w ∈ ventanas_legibles tramos → valid_time (fst w) ∧ valid_time (snd w).
Proof.
  intros Hw. pose proof (ventanas_legibles_valid tramos) as Hall.
  eapply Forall_forall in Hall; [|exact Hw]. done.
Qed.

(** Every slot of a returned list is an instant of the requested date at a
    whole minute, and so is its end. *)
Lemma generar_slots_en_minuto disponibilidad buffer_min fuel d dur_min turnos step_min res s :
  generar_slots_en disponibilidad buffer_min fuel d dur_min turnos step_min = Ok res →
  s ∈ res →
  minuto_del_dia d s ∧ minuto_del_dia d (s + dur_min * US_PER_MINUTE).
Proof.
  intros Hrun Hs.
  destruct (generar_slots_en_grid _ _ _ _ _ _ _ _ _ Hrun Hs)
    as (Hdur & Hstep & w & Hw & Hin).
  destruct (ventanas_legibles_valid_elem _ _ Hw) as [Hv1 Hv2].
  assert (Hmin : minuto_del_dia d s).
  { apply (en_ventana_minuto d step_min (dur_min * US_PER_MINUTE) w);
      [exact Hv1 | exact Hv2 | lia | unfold US_PER_MINUTE; lia | exact Hin]. }
  split; [exact Hmin|].
  destruct Hin as (k & Hk & Heq & Hfit).
  destruct Hmin as (h & m & Hh & Hm & Hs').
  pose proof (combine_bounds d _ Hv2) as Hb2.
  replace (s + dur_min * US_PER_MINUTE)
    with (d * US_PER_DAY + (h * 60 + m + dur_min) * US_PER_MINUTE)
    by (rewrite Hs'; unfold combine, time_us, US_PER_DAY, US_PER_HOUR, US_PER_MINUTE;
        simpl; lia).
  apply minuto_del_dia_intro.
  rewrite Hs' in Hfit.
  unfold combine, time_us, US_PER_DAY, US_PER_HOUR, US_PER_MINUTE in *. simpl in *. lia.
Qed.

Lemma ventana_end_ok d step dur buff activos fuel end_window current result res :
  ventana d step dur buff activos fuel end_window current result = Ok res →
  ∃ new, res = result ++ new ∧ Forall (λ s, add s dur = Ok (s + dur)) new.
Proof.
  revert current result.
  induction fuel as [|fuel IH]; intros current result H; simpl in H; [done|].
  inv_bind H as limit Hl. pose proof Hl as Hadd. apply add_Ok in Hl as ->.
  destruct (current + dur <=? end_window).
  - inv_bind H as c_end Hc. inv_bind H as ok Hok. inv_bind H as next Hn.
    apply IH in H as (new & -> & Hall).
    destruct ok.
    + exists (current :: new). split; [by rewrite <- app_assoc | by constructor].
    + by exists new.
  - injection H as <-. exists []. split; [by rewrite app_nil_r | constructor].
Qed.

Lemma recorrer_end_ok d step dur buff activos fuel tramos result res :
  recorrer d step dur buff activos fuel tramos result = Ok res →
  ∃ new, res = result ++ new ∧ Forall (λ s, add s dur = Ok (s + dur)) new.
Proof.
  revert result. induction tramos as [|[ini fin] tramos IH]; intros result H; simpl in H.
  - injection H as <-. exists []. split; [by rewrite app_nil_r | constructor].
  - inv_bind H as ti Hti. inv_bind H as tf Htf.
    destruct ti as [ti|]; [|by apply IH].
    destruct tf as [tf|]; [|by apply IH].
    inv_bind H as r1 Hr1.
    apply ventana_end_ok in Hr1 as (new1 & -> & Hall1).
    apply IH in H as (new2 & -> & Hall2).
    exists (new1 ++ new2). split; [by rewrite app_assoc | by apply Forall_app].
Qed.

(** The closing text of the row written for a returned slot. *)
Lemma generar_slots_en_fin_str disponibilidad buffer_min fuel d dur_min turnos step_min res s :
  generar_slots_en disponibilidad buffer_min fuel d dur_min turnos step_min = Ok res →
  s ∈ res →
  fin_str s dur_min = Ok (strftime_HM (s + dur_min * US_PER_MINUTE)).
Proof.
  unfold generar_slots_en, windowsFor, fin_str; simpl.
  destruct (dur_min <=? 0); [intros [= <-] Hs; by apply elem_of_nil in Hs|].
  destruct (empty _); [intros [= <-] Hs; by apply elem_of_nil in Hs|].
  intros H Hs. inv_bind H as step Hstep. inv_bind H as dur Hd. inv_bind H as buff Hb.
  inv_bind H as raw Hraw. injection H as <-.
  rewrite Hd. simpl. apply timedelta_minutes_Ok in Hd as ->.
  apply unicos_elem in Hs as [Hs _].
  apply recorrer_end_ok in Hraw as (new & -> & Hall). simpl in Hs.
  eapply Forall_forall in Hall; [|exact Hs]. by rewrite Hall.
Qed.

Lemma filter_single {A} (f : A → bool) (l : list A) (x : A) :
  NoDup l → x ∈ l → (∀ y, y ∈ l → f y = true → y = x) → f x = true →
  List.filter f l = [x].
Proof.
  induction l as [|y l IH]; intros Hnd Hx Hone Hfx; [by apply elem_of_nil in Hx|].
  apply NoDup_cons in Hnd as [Hy Hnd]. simpl.
  assert (Hrest : ∀ z, z ∈ l → f z = true → z = x).
  { intros z Hz. apply Hone. by apply list_elem_of_further. }
  apply elem_of_cons in Hx as [<-|Hx].
  - rewrite Hfx. f_equal.
    assert (Hnone : ∀ z, z ∈ l → f z = false).
    { intros z Hz. destruct (f z) eqn:E; [|done]. apply Hrest in E as ->; done. }
    clear -Hnone. induction l as [|z l IH]; [done|]. simpl.
    rewrite (Hnone z) by apply list_elem_of_here.
    apply IH. intros w Hw. apply Hnone. by apply list_elem_of_further.
  - destruct (f y) eqn:E.
    + apply Hone in E as ->; [done | apply list_elem_of_here].
    + by apply IH.
Qed.

Lemma NoDup_map_inj {A B} (f : A → B) (l : list A) :
  (∀ x y, x ∈ l → y ∈ l → f x = f y → x = y) → NoDup l → NoDup (map f l).
Proof.
  induction l as [|x l IH]; intros Hinj Hnd; simpl; [constructor|].
  apply NoDup_cons in Hnd as [Hx Hnd]. constructor.
  - intros Hin. apply list_elem_of_In, in_map_iff in Hin as (y & Heq & Hy).
    apply list_elem_of_In in Hy.
    assert (y = x) as -> by (apply Hinj; [by apply list_elem_of_further
                                         | apply list_elem_of_here | done]).
    done.
  - apply IH; [|done]. intros y z Hy Hz. apply Hinj; by apply list_elem_of_further.
Qed.

Lemma filter_future_slots_sub now d slots :
  filter_future_slots now d slots `sublist_of` slots.
Proof.
  unfold filter_future_slots. destruct slots as [|s slots]; [done|]. simpl empty. cbv iota.
  destruct (d =? date_of now); [apply filter_sublist | done].
Qed.

(** X9.  Labels are read back.  The label that the booking screen makes
    of an instant at a whole minute ([strftime("%H:%M")]) is read by both
    parsers of the program, [strptime(..., "%H:%M")] and [to_time], as the
    hour and minute it was made from. *)
Theorem strftime_read_back (d : date) (h m : Z) :
  0 <= h < 24 → 0 <= m < 60 →
  strptime_HM (str (strftime_HM (combine d (Hora h m)))) = Ok (Hora h m)
  ∧ to_time (strftime_HM (combine d (Hora h m))) = Ok (Some (Hora h m)).
Proof.
  intros Hh Hm.
  unfold strftime_HM. rewrite hora_de_combine by done.
  unfold str. rewrite list_ascii_of_string_of_list_ascii.
  by apply label_read.
Qed.

Lemma strftime_read_back_witness :
  strptime_HM (str (strftime_HM (combine martes (Hora 9 5)))) = Ok (Hora 9 5)
  ∧ to_time (strftime_HM (combine martes (Hora 9 5))) = Ok (Some (Hora 9 5)).
Proof. apply (strftime_read_back martes 9 5); lia. Defined.

(** X10.  Choosing a time.  On the list shown by the time step (the
    returned slots, past times removed) the labels are pairwise distinct,
    and looking a label up gives back exactly the slot it was made from,
    never another slot and never an empty selection. *)
Theorem sel_dt_finds_slot
    (disponibilidad : gmap Z (list tramo)) (buffer_min : Z) (fuel : nat)
    (d : date) (dur_min : Z) (turnos : list turno) (step_min : Z)
    (res : list datetime) (now s : datetime) :
  generar_slots_en disponibilidad buffer_min fuel d dur_min turnos step_min = Ok res →
  s ∈ filter_future_slots now d res →
  sel_dt (filter_future_slots now d res) (strftime_HM s) = Some s
  ∧ NoDup (opciones (filter_future_slots now d res)).
Proof.
  intros Hrun Hs.
  pose proof (filter_future_slots_sub now d res) as Hsub.
  set (slots := filter_future_slots now d res) in *.
  assert (Hnd : NoDup slots).
  { eapply sublist_NoDup; [|exact Hsub].
    apply generar_slots_en_Ok in Hrun as [->|(_ & raw & _ & ->)];
      [constructor | apply unicos_NoDup]. }
  assert (Hmin : ∀ x, x ∈ slots → minuto_del_dia d x).
  { intros x Hx. eapply generar_slots_en_minuto; [exact Hrun|].
    eapply sublist_subseteq; [exact Hsub | exact Hx]. }
  split.
  - unfold sel_dt. rewrite (filter_single _ slots s); [done | done | done | |].
    + intros y Hy Heq. apply String.eqb_eq in Heq.
      eapply strftime_HM_inj; [by apply Hmin | by apply Hmin | done].
    + apply String.eqb_refl.
  - unfold opciones. apply NoDup_map_inj; [|done].
    intros x y Hx Hy. eapply strftime_HM_inj; by apply Hmin.
Qed.

Lemma sel_dt_finds_slot_witness :
  sel_dt (filter_future_slots (at_ martes 9 5) martes
            (slots_de (generar_slots 100 martes 30 [turno_ocupado] 10)))
         (strftime_HM (at_ martes 10 40)) = Some (at_ martes 10 40)
  ∧ NoDup (opciones (filter_future_slots (at_ martes 9 5) martes
                       (slots_de (generar_slots 100 martes 30 [turno_ocupado] 10)))).
Proof.
  apply (sel_dt_finds_slot DEFAULT_DISPONIBILIDAD_CODE BUFFER_MIN_DEFAULT 100
           martes 30 [turno_ocupado] 10).
  - vm_compute. reflexivity.
  - find_elem.
Defined.

(** ** Booking a slot *)

(** Over ordered windows a returned list is strictly ascending. *)
Lemma generar_slots_en_sorted disponibilidad buffer_min fuel d dur_min turnos step_min res :
  tramos_ordenados (dict_get disponibilidad (isoweekday d) []) →
  generar_slots_en disponibilidad buffer_min fuel d dur_min turnos step_min = Ok res →
  StronglySorted Z.lt res.
Proof.
  intros Hord Hrun.
  apply generar_slots_en_Ok in Hrun as [->|(Hdur & raw & Hraw & ->)]; [constructor|].
  eapply (recorrer_sorted _ _ _ _ _ _ _ _ _ (d * US_PER_DAY)) in Hraw
    as (new & -> & Hnew & _); [| unfold US_PER_MINUTE; lia | done |].
  - eapply StronglySorted_sublist; [apply unicos_sublist | done].
  - eapply Forall_impl; [apply ventanas_legibles_valid|].
    intros w [Hw _]. simpl. pose proof (combine_bounds d _ Hw). lia.
Qed.

(** X11.  No double booking.  Take a slot [s] returned for a duration
    [dur1], and the row that the confirmation writes for it: that date,
    [inicio] the label of [s], [fin] the label of [s + dur1], state
    "Confirmado".  Whenever that row is among the appointments, no slot
    returned for that date (whatever the table, buffer, duration and step
    of the later call) overlaps [[s, s + dur1)] widened by the buffer; with
    a buffer that is not negative, [s] itself is never returned again. *)
Theorem booked_slot_not_offered_again
    (disp1 disp2 : gmap Z (list tramo)) (buffer1 buffer2 : Z) (fuel1 fuel2 : nat)
    (d : date) (dur1 dur2 : Z) (turnos1 turnos2 : list turno) (step1 step2 : Z)
    (res1 res2 : list datetime) (s s' : datetime) (t : turno) :
  generar_slots_en disp1 buffer1 fuel1 d dur1 turnos1 step1 = Ok res1 →
  s ∈ res1 →
  t ∈ turnos2 → fecha t = Some d → estado t = "Confirmado"%string →
  inicio t = inicio_str s →
  fin_str s dur1 = Ok (fin t) →
  generar_slots_en disp2 buffer2 fuel2 d dur2 turnos2 step2 = Ok res2 →
  s' ∈ res2 →
  overlaps s' (s' + dur2 * US_PER_MINUTE)
           (s - buffer2 * US_PER_MINUTE)
           (s + dur1 * US_PER_MINUTE + buffer2 * US_PER_MINUTE) = false
  ∧ (0 <= buffer2 → s' ≠ s).
Proof.
  intros Hrun1 Hs Ht Hfecha Hestado Hini Hfin Hrun2 Hs'.
  destruct (generar_slots_en_minuto _ _ _ _ _ _ _ _ _ Hrun1 Hs) as [Hmin1 Hmin2].
  rewrite (generar_slots_en_fin_str _ _ _ _ _ _ _ _ _ Hrun1 Hs) in Hfin.
  injection Hfin as Hfin.
  destruct (strftime_HM_read d s Hmin1) as (ts & Hts & _ & _ & Hcs).
  destruct (strftime_HM_read d _ Hmin2) as (te & Hte & _ & _ & Hce).
  assert (Hover : overlaps s' (s' + dur2 * US_PER_MINUTE)
                    (s - buffer2 * US_PER_MINUTE)
                    (s + dur1 * US_PER_MINUTE + buffer2 * US_PER_MINUTE) = false).
  { rewrite <- Hcs at 1. rewrite <- Hce.
    eapply (generar_slots_en_sin_choque _ _ _ _ _ _ _ _ _ Hrun2 Hs' t ts te);
      [done | done | by rewrite Hestado | by rewrite Hini | by rewrite <- Hfin]. }
  split; [exact Hover|].
  intros Hbuff ->.
  destruct (generar_slots_en_grid _ _ _ _ _ _ _ _ _ Hrun1 Hs) as (Hd1 & _).
  destruct (generar_slots_en_grid _ _ _ _ _ _ _ _ _ Hrun2 Hs') as (Hd2 & _).
  apply overlaps_false in Hover. apply Hover. unfold US_PER_MINUTE. lia.
Qed.

Lemma booked_slot_not_offered_again_witness :
  overlaps (at_ martes 9 40) (at_ martes 9 40 + 30 * US_PER_MINUTE)
           (at_ martes 9 0 - BUFFER_MIN_DEFAULT * US_PER_MINUTE)
           (at_ martes 9 0 + 30 * US_PER_MINUTE + BUFFER_MIN_DEFAULT * US_PER_MINUTE) = false
  ∧ (0 <= BUFFER_MIN_DEFAULT → at_ martes 9 40 ≠ at_ martes 9 0).
Proof.
  apply (booked_slot_not_offered_again DEFAULT_DISPONIBILIDAD_CODE
           DEFAULT_DISPONIBILIDAD_CODE BUFFER_MIN_DEFAULT BUFFER_MIN_DEFAULT 100 100
           martes 30 30 [] [turno_reserva] 10 10
           (slots_de (generar_slots 100 martes 30 [] 10))
           (slots_de (generar_slots 100 martes 30 [turno_reserva] 10))
           (at_ martes 9 0) (at_ martes 9 40) turno_reserva).
  - vm_compute. reflexivity.
  - find_elem.
  - apply list_elem_of_here.
  - reflexivity.
  - reflexivity.
  - vm_compute. reflexivity.
  - vm_compute. reflexivity.
  - vm_compute. reflexivity.
  - find_elem.
Defined.

(** X12.  What the time step offers.  The list shown for a date (the
    returned slots of [generar_slots] with the default table and step,
    past times removed) is strictly ascending; each of its instants falls
    on the requested date, and when that date is today, strictly after
    now. *)
Theorem horarios_on_date
    (now : datetime) (fuel : nat) (d : date) (dur_min : Z) (turnos : list turno)
    (slots : list datetime) :
  horarios now fuel d dur_min turnos = Ok slots →
  StronglySorted Z.lt slots
  ∧ ∀ s, s ∈ slots → date_of s = d ∧ (d = date_of now → now < s).
Proof.
  unfold horarios. intros H. inv_bind H as res Hrun. injection H as <-.
  pose proof (filter_future_slots_sub now d res) as Hsub.
  split.
  - eapply StronglySorted_sublist; [exact Hsub|].
    eapply generar_slots_en_sorted; [|exact Hrun].
    apply DEFAULT_DISPONIBILIDAD_CODE_ordenados.
  - intros s Hs. split.
    + apply minuto_del_dia_date.
      eapply generar_slots_en_minuto; [exact Hrun|].
      eapply sublist_subseteq; [exact Hsub | exact Hs].
    + intros ->. unfold filter_future_slots in Hs.
      destruct res as [|r res]; [by apply elem_of_nil in Hs|].
      simpl empty in Hs. cbv iota in Hs. rewrite Z.eqb_refl in Hs.
      apply list_elem_of_In, filter_In in Hs as [_ Hs]. by apply Z.ltb_lt.
Qed.

Lemma horarios_on_date_witness :
  StronglySorted Z.lt (slots_de (horarios (at_ martes 14 5) 100 martes 30 [turno_ocupado]))
  ∧ ∀ s, s ∈ slots_de (horarios (at_ martes 14 5) 100 martes 30 [turno_ocupado]) →
         date_of s = martes ∧ (martes = date_of (at_ martes 14 5) → at_ martes 14 5 < s).
Proof.
  apply (horarios_on_date (at_ martes 14 5) 100 martes 30 [turno_ocupado]).
  vm_compute. reflexivity.
Defined.

(** ** More on the catalogue folds *)

Local Abbreviation mask_de tipo0 zonas :=
  (λ r : servicio, String.eqb (tipo r) tipo0 && isin (zona r) zonas).

Lemma calc_duracion_filter catalogo tipo0 zonas :
  calc_duracion catalogo tipo0 zonas
  = sum_int64 (map duracion_min (List.filter (mask_de tipo0 zonas) catalogo)).
Proof. unfold calc_duracion. apply total_guard. Qed.

Lemma calc_precio_filter catalogo tipo0 zonas :
  calc_precio catalogo tipo0 zonas
  = sum_int64 (map precio (List.filter (mask_de tipo0 zonas) catalogo)).
Proof. unfold calc_precio. apply total_guard. Qed.

Lemma sum_Z_app (xs ys : list Z) : sum_Z (xs ++ ys) = sum_Z xs + sum_Z ys.
Proof.
  induction xs as [|x xs IH]; simpl; [unfold sum_Z at 2; simpl; lia|].
  rewrite !sum_Z_cons, IH. lia.
Qed.

Lemma isin_app (x : string) (xs ys : list string) :
  isin x (xs ++ ys) = isin x xs || isin x ys.
Proof. unfold isin. apply existsb_app. Qed.

Lemma sum_filter_zonas (campo : servicio → Z) tipo0 zonas1 zonas2 catalogo :
  (∀ z, z ∈ zonas1 → z ∉ zonas2) →
  sum_Z (map campo (List.filter (mask_de tipo0 (zonas1 ++ zonas2)) catalogo))
  = sum_Z (map campo (List.filter (mask_de tipo0 zonas1) catalogo))
    + sum_Z (map campo (List.filter (mask_de tipo0 zonas2) catalogo)).
Proof.
  intros Hdisj. induction catalogo as [|r rest IH]; simpl; [done|].
  rewrite isin_app.
  destruct (String.eqb (tipo r) tipo0); simpl; [|exact IH].
  destruct (isin (zona r) zonas1) eqn:E1, (isin (zona r) zonas2) eqn:E2; simpl;
    rewrite ?sum_Z_cons, IH; try lia.
  apply isin_true in E1, E2. by destruct (Hdisj _ E1).
Qed.

(** X13.  Only the set of zones counts.  Two zone lists with the same
    members give the same totals: repeating a zone or changing the order
    of the zones changes neither the duration nor the price. *)
Theorem calc_zonas_as_set
    (catalogo : list servicio) (tipo0 : string) (zonas1 zonas2 : list string) :
  (∀ z, z ∈ zonas1 ↔ z ∈ zonas2) →
  calc_duracion catalogo tipo0 zonas1 = calc_duracion catalogo tipo0 zonas2
  ∧ calc_precio catalogo tipo0 zonas1 = calc_precio catalogo tipo0 zonas2.
Proof.
  intros Hsame.
  assert (Hmask : ∀ r, mask_de tipo0 zonas1 r = mask_de tipo0 zonas2 r).
  { intros r. f_equal.
    destruct (isin (zona r) zonas1) eqn:E1, (isin (zona r) zonas2) eqn:E2; try done.
    - apply isin_true, Hsame, isin_true in E1. congruence.
    - apply isin_true, Hsame, isin_true in E2. congruence. }
  rewrite !calc_duracion_filter, !calc_precio_filter.
  by rewrite (List.filter_ext _ _ Hmask).
Qed.

Lemma calc_zonas_as_set_witness :
  calc_duracion catalogo_ejemplo "Depilacion" ["Piernas"; "Brazos"; "Piernas"]
  = calc_duracion catalogo_ejemplo "Depilacion" ["Brazos"; "Piernas"]
  ∧ calc_precio catalogo_ejemplo "Depilacion" ["Piernas"; "Brazos"; "Piernas"]
    = calc_precio catalogo_ejemplo "Depilacion" ["Brazos"; "Piernas"].
Proof.
  apply (calc_zonas_as_set catalogo_ejemplo "Depilacion"
           ["Piernas"; "Brazos"; "Piernas"] ["Brazos"; "Piernas"]).
  intros z. rewrite !elem_of_cons, !elem_of_nil. tauto.
Defined.

Lemma sum_int64_app (xs ys : list Z) :
  sum_int64 (xs ++ ys) = wrap64 (sum_int64 xs + sum_int64 ys).
Proof.
  by rewrite !sum_int64_wrap, sum_Z_app, wrap64_add_l, wrap64_add_r.
Qed.

Lemma sum_int64_filter_zonas (campo : servicio → Z) tipo0 zonas1 zonas2 catalogo :
  (∀ z, z ∈ zonas1 → z ∉ zonas2) →
  sum_int64 (map campo (List.filter (mask_de tipo0 (zonas1 ++ zonas2)) catalogo))
  = wrap64 (sum_int64 (map campo (List.filter (mask_de tipo0 zonas1) catalogo))
            + sum_int64 (map campo (List.filter (mask_de tipo0 zonas2) catalogo))).
Proof.
  intros Hdisj.
  by rewrite !sum_int64_wrap, sum_filter_zonas, wrap64_add_l, wrap64_add_r.
Qed.

(** X14.  Totals add up within [int64].  The total of a selection is the
    sum of the totals of its parts, brought back into [int64] by
    wrap-around: over two catalogues put end to end, and over two zone
    lists that share no zone.  It is exactly the sum of the parts whenever
    that sum lies in [-2^63, 2^63). *)
Theorem calc_additive
    (catalogo1 catalogo2 : list servicio) (tipo0 : string) (zonas1 zonas2 : list string) :
  (calc_duracion (catalogo1 ++ catalogo2) tipo0 zonas1
   = wrap64 (calc_duracion catalogo1 tipo0 zonas1 + calc_duracion catalogo2 tipo0 zonas1)
   ∧ calc_precio (catalogo1 ++ catalogo2) tipo0 zonas1
     = wrap64 (calc_precio catalogo1 tipo0 zonas1 + calc_precio catalogo2 tipo0 zonas1))
  ∧ (en_int64 (calc_duracion catalogo1 tipo0 zonas1 + calc_duracion catalogo2 tipo0 zonas1) →
     calc_duracion (catalogo1 ++ catalogo2) tipo0 zonas1
     = calc_duracion catalogo1 tipo0 zonas1 + calc_duracion catalogo2 tipo0 zonas1)
  ∧ (en_int64 (calc_precio catalogo1 tipo0 zonas1 + calc_precio catalogo2 tipo0 zonas1) →
     calc_precio (catalogo1 ++ catalogo2) tipo0 zonas1
     = calc_precio catalogo1 tipo0 zonas1 + calc_precio catalogo2 tipo0 zonas1)
  ∧ ((∀ z, z ∈ zonas1 → z ∉ zonas2) →
     (calc_duracion catalogo1 tipo0 (zonas1 ++ zonas2)
      = wrap64 (calc_duracion catalogo1 tipo0 zonas1 + calc_duracion catalogo1 tipo0 zonas2)
      ∧ calc_precio catalogo1 tipo0 (zonas1 ++ zonas2)
        = wrap64 (calc_precio catalogo1 tipo0 zonas1 + calc_precio catalogo1 tipo0 zonas2))
     ∧ (en_int64 (calc_duracion catalogo1 tipo0 zonas1 + calc_duracion catalogo1 tipo0 zonas2) →
        calc_duracion catalogo1 tipo0 (zonas1 ++ zonas2)
        = calc_duracion catalogo1 tipo0 zonas1 + calc_duracion catalogo1 tipo0 zonas2)
     ∧ (en_int64 (calc_precio catalogo1 tipo0 zonas1 + calc_precio catalogo1 tipo0 zonas2) →
        calc_precio catalogo1 tipo0 (zonas1 ++ zonas2)
        = calc_precio catalogo1 tipo0 zonas1 + calc_precio catalogo1 tipo0 zonas2)).
Proof.
  rewrite !calc_duracion_filter, !calc_precio_filter.
  assert (Hcat : ∀ campo : servicio → Z,
    sum_int64 (map campo (List.filter (mask_de tipo0 zonas1) (catalogo1 ++ catalogo2)))
    = wrap64 (sum_int64 (map campo (List.filter (mask_de tipo0 zonas1) catalogo1))
              + sum_int64 (map campo (List.filter (mask_de tipo0 zonas1) catalogo2)))).
  { intros campo. by rewrite List.filter_app, map_app, sum_int64_app. }
  split; [split; apply Hcat|].
  split; [intros Hr; by rewrite Hcat, wrap64_small|].
  split; [intros Hr; by rewrite Hcat, wrap64_small|].
  intros Hdisj.
  split; [split; by apply sum_int64_filter_zonas|].
  split; intros Hr; by rewrite sum_int64_filter_zonas, wrap64_small.
Qed.

Lemma calc_additive_witness :
  calc_duracion catalogo_ejemplo "Depilacion" (["Piernas"] ++ ["Brazos"])
  = calc_duracion catalogo_ejemplo "Depilacion" ["Piernas"]
    + calc_duracion catalogo_ejemplo "Depilacion" ["Brazos"]
  ∧ calc_precio catalogo_ejemplo "Depilacion" (["Piernas"] ++ ["Brazos"])
    = calc_precio catalogo_ejemplo "Depilacion" ["Piernas"]
      + calc_precio catalogo_ejemplo "Depilacion" ["Brazos"].
Proof.
  destruct (calc_additive catalogo_ejemplo [] "Depilacion" ["Piernas"] ["Brazos"])
    as (_ & _ & _ & H).
  destruct H as (_ & Hd & Hp).
  - intros z Hz Hz'.
    apply elem_of_cons in Hz as [->|Hz]; [|by apply elem_of_nil in Hz].
    apply elem_of_cons in Hz' as [Hz'|Hz']; [discriminate | by apply elem_of_nil in Hz'].
  - split; [apply Hd | apply Hp]; vm_compute; (split; [discriminate | reflexivity]).
Defined.

(** ** [norm_phone] and [slugify] *)

Lemma str_string_of_list (l : list ascii) : str (string_of_list_ascii l) = l.
Proof. apply list_ascii_of_string_of_list_ascii. Qed.

Lemma str_app (s1 s2 : string) : str (s1 +:+ s2) = str s1 ++ str s2.
Proof. unfold str. induction s1 as [|c s1 IH]; simpl; [done|]. by rewrite IH. Qed.

Lemma string_of_list_app (l1 l2 : list ascii) :
  string_of_list_ascii (l1 ++ l2) = string_of_list_ascii l1 +:+ string_of_list_ascii l2.
Proof. induction l1 as [|c l1 IH]; simpl; [done|]. by rewrite IH. Qed.

(** Replacing runs by nothing keeps the other characters, in order. *)
Lemma sub_runs_nil {A} (cls : A → bool) (in_run : bool) (s : list A) :
  Re.sub_runs cls [] in_run s = List.filter (λ c, negb (cls c)) s.
Proof.
  revert in_run. induction s as [|c r IH]; intros in_run; simpl; [done|].
  destruct (cls c); simpl; [destruct in_run; apply IH | by rewrite IH].
Qed.

Lemma filter_filter_same {A} (f : A → bool) (l : list A) :
  List.filter f (List.filter f l) = List.filter f l.
Proof.
  induction l as [|x l IH]; simpl; [done|].
  destruct (f x) eqn:E; simpl; [by rewrite E, IH | done].
Qed.

(** X15.  [norm_phone] keeps the digits.  The result holds exactly the
    digits of the text, in their order, and nothing else; normalising
    twice is normalising once; and the result for two texts put end to end
    is the two results put end to end. *)
Theorem norm_phone_digits (s s1 s2 : string) :
  str (norm_phone s) = List.filter Py.isdigit (str s)
  ∧ norm_phone (norm_phone s) = norm_phone s
  ∧ norm_phone (s1 +:+ s2) = norm_phone s1 +:+ norm_phone s2.
Proof.
  assert (Hf : ∀ l, List.filter (λ c, negb (negb (Py.isdigit c))) l = List.filter Py.isdigit l).
  { intros l. apply List.filter_ext. intros c. apply negb_involutive. }
  unfold norm_phone. rewrite !sub_runs_nil, !Hf, !str_string_of_list.
  split; [done|]. split.
  - by rewrite filter_filter_same.
  - by rewrite str_app, List.filter_app, string_of_list_app.
Qed.

(** *** [slugify] *)

Lemma guiones_sueltos_take (n : nat) (s : list Z) :
  guiones_sueltos s → guiones_sueltos (take n s).
Proof.
  revert n. induction s as [|c1 r IH]; intros n Hs; [by destruct n|].
  destruct n as [|n]; [done|]. simpl in *. destruct Hs as [H1 Hr].
  split; [|by apply IH].
  destruct r as [|c2 r']; [by destruct n|]. destruct n; simpl; [done | done].
Qed.

Lemma lstrip_by_Forall {A} (P : A → Prop) (sp : A → bool) (s : list A) :
  Forall P s → Forall P (Py.lstrip_by sp s).
Proof.
  induction 1 as [|c r Hc Hr IH]; simpl; [constructor|].
  destruct (sp c); [exact IH | by constructor].
Qed.

Lemma strip_by_Forall {A} (P : A → Prop) (sp : A → bool) (s : list A) :
  Forall P s → Forall P (Py.strip_by sp s).
Proof.
  intros H. unfold Py.strip_by.
  by apply Forall_rev, lstrip_by_Forall, Forall_rev, lstrip_by_Forall.
Qed.

(** A text with no character of the class at all is left as it is. *)
Lemma strip_by_fixed {A} (sp : A → bool) (u : list A) :
  Forall (λ c, sp c = false) u → Py.strip_by sp u = u.
Proof.
  intros Hall.
  assert (Hl : ∀ v, Forall (λ c, sp c = false) v → Py.lstrip_by sp v = v).
  { intros [|c v] Hv; [done|]. simpl. apply Forall_cons in Hv as [-> _]. done. }
  unfold Py.strip_by. rewrite (Hl u Hall), Hl; [apply rev_involutive|].
  by apply Forall_rev.
Qed.

Lemma sub_chars_kept {A} (cls : A → bool) (s : list A) :
  Forall (λ c, cls c = false) (Re.sub_chars cls [] s).
Proof.
  apply Forall_forall. intros c Hc.
  apply list_elem_of_In, in_flat_map in Hc as (c0 & _ & Hc).
  destruct (cls c0) eqn:E; [done|]. by destruct Hc as [<-|[]].
Qed.

Lemma sub_chars_sublist {A} (cls : A → bool) (s : list A) :
  Re.sub_chars cls [] s `sublist_of` s.
Proof.
  unfold Re.sub_chars. induction s as [|c r IH]; simpl; [done|].
  destruct (cls c); simpl; [by apply sublist_cons | by apply sublist_skip].
Qed.

Lemma sub_chars_fixed {A} (cls : A → bool) (u : list A) :
  Forall (λ c, cls c = false) u → Re.sub_chars cls [] u = u.
Proof.
  unfold Re.sub_chars. induction 1 as [|c u Hc _ IH]; simpl; [done|].
  by rewrite Hc, IH.
Qed.

Lemma ustr_cliente_ascii : es_ascii (ustr "cliente").
Proof. unfold es_ascii. vm_compute. repeat constructor; discriminate. Qed.

Section Slugify_facts.

Variable isspace : Z → bool.
Variable isalnum : Z → bool.
Variable lower : list Z → list Z.

Local Abbreviation drop := (slug_drop isspace isalnum).
Local Abbreviation sep := (slug_sep isspace).

(** The shape of what the second substitution of [slugify] gives: a
    hyphen for each run, and between them the characters it keeps. *)
Lemma sub_runs_slug (P : Z → Prop) (in_run : bool) (s : list Z) :
  P GUION →
  Forall (λ c, sep c = false → P c) s →
  Forall P (Re.sub_runs sep [GUION] in_run s)
  ∧ guiones_sueltos (Re.sub_runs sep [GUION] in_run s)
  ∧ (in_run = true → head (Re.sub_runs sep [GUION] in_run s) ≠ Some GUION).
Proof.
  intros HP. revert in_run. induction s as [|c r IH]; intros in_run Hall; simpl.
  - split; [constructor|]. split; [done | by intros _].
  - apply Forall_cons in Hall as [Hc Hall].
    destruct (sep c) eqn:E.
    + destruct (IH true Hall) as (Ha & Hg & Hh).
      destruct in_run; [done|]. simpl.
      split; [by constructor|]. split; [|done].
      split; [|done].
      destruct (Re.sub_runs sep [GUION] true r) as [|c2 r'] eqn:Er; [done|].
      intros [_ ->]. by apply Hh.
    + assert (Hne : c ≠ GUION).
      { intros ->. unfold slug_sep in E. rewrite Z.eqb_refl, orb_true_r in E. discriminate. }
      destruct (IH false Hall) as (Ha & Hg & _).
      split; [constructor; [by apply Hc | done]|]. split.
      * simpl. split; [|done].
        destruct (Re.sub_runs sep [GUION] false r); [done|]. by intros [? _].
      * intros _. simpl. congruence.
Qed.

(** A character that both substitutions keep is alphanumeric, and neither
    a space nor the underscore nor the hyphen. *)
Lemma slug_kept (c : Z) :
  drop c = false → sep c = false →
  isalnum c = true ∧ isspace c = false ∧ c ≠ GUION_BAJO ∧ c ≠ GUION.
Proof.
  unfold slug_drop, slug_sep. intros Hd Hs.
  apply negb_false_iff in Hd.
  apply orb_false_iff in Hs as [Hs H45]. apply orb_false_iff in Hs as [Hsp H95].
  rewrite Hsp, H95, H45, !orb_false_r in Hd.
  apply Z.eqb_neq in H45, H95. done.
Qed.

(** Whatever the tables: the result is not empty, has at most 60
    characters and no two hyphens side by side, and it is "cliente" or
    made of hyphens and of characters that both substitutions keep. *)
Lemma slugify_any (text : list Z) :
  let slug := slugify isspace isalnum lower text in
  slug ≠ [] ∧ (length slug <= 60)%nat ∧ guiones_sueltos slug
  ∧ (slug = ustr "cliente"
     ∨ Forall (λ c, c = GUION ∨ (drop c = false ∧ sep c = false)) slug).
Proof.
  unfold slugify.
  set (text1 := lower (Py.strip_by isspace text)).
  set (text2 := Re.sub_chars drop [] text1).
  assert (Hall2 : Forall (λ c, sep c = false →
                               c = GUION ∨ (drop c = false ∧ sep c = false)) text2).
  { eapply Forall_impl; [apply sub_chars_kept|]. intros c Hd Hs. by right. }
  destruct (sub_runs_slug _ false text2 (or_introl eq_refl) Hall2) as (Ha & Hg & _).
  destruct (Re.sub_runs sep [GUION] false text2) as [|c text3] eqn:E3.
  - simpl negb. cbv iota. split; [done|]. split; [simpl; lia|].
    split; [|by left].
    vm_compute. repeat split; by intros [? ?].
  - simpl empty. simpl negb. cbv iota.
    split; [done|]. split; [rewrite length_take; lia|].
    split; [by apply guiones_sueltos_take|].
    right. by apply Forall_take.
Qed.

Hypothesis tablas : conforme isspace isalnum lower.

Lemma isspace_ascii (c : Z) : 0 <= c < 128 → isspace c = ascii_isspace c.
Proof. by apply tablas. Qed.

Lemma isalnum_ascii (c : Z) : 0 <= c < 128 → isalnum c = ascii_isalnum c.
Proof. by apply tablas. Qed.

Lemma lower_ascii (s : list Z) : es_ascii s → lower s = map ascii_lower s.
Proof. by apply tablas. Qed.

Lemma ascii_lower_range (c : Z) : 0 <= c < 128 → 0 <= ascii_lower c < 128.
Proof. unfold ascii_lower. destruct (_ && _) eqn:E; lia. Qed.

(** On ASCII, a small letter, a digit or a hyphen is all that the
    lowering and the two substitutions can leave. *)
Lemma slug_kept_ascii (c0 : Z) :
  0 <= c0 < 128 →
  drop (ascii_lower c0) = false → sep (ascii_lower c0) = false →
  slug_char (ascii_lower c0) = true.
Proof.
  intros Hr Hd Hs. destruct (slug_kept _ Hd Hs) as (Ha & _ & _ & _).
  rewrite isalnum_ascii in Ha by by apply ascii_lower_range.
  revert Ha. unfold ascii_isalnum, slug_char, ascii_lower, GUION.
  destruct ((65 <=? c0) && (c0 <=? 90)) eqn:E.
  - rewrite andb_true_iff, !Z.leb_le in E. intros _.
    apply orb_true_iff. left. apply orb_true_iff. right.
    rewrite andb_true_iff, !Z.leb_le. lia.
  - rewrite E, orb_false_r. intros Ha. by rewrite Ha.
Qed.

Lemma slug_char_facts (c : Z) :
  slug_char c = true →
  0 <= c < 128 ∧ isspace c = false ∧ ascii_lower c = c ∧ drop c = false
  ∧ sep c = (c =? GUION).
Proof.
  intros Hc.
  assert (Hcases : 48 <= c <= 57 ∨ 97 <= c <= 122 ∨ c = 45).
  { unfold slug_char, GUION in Hc.
    rewrite !orb_true_iff, !andb_true_iff, !Z.leb_le, Z.eqb_eq in Hc. lia. }
  assert (Hr : 0 <= c < 128) by lia.
  assert (Hsp : isspace c = false).
  { rewrite isspace_ascii by done. unfold ascii_isspace.
    rewrite orb_false_iff, !andb_false_iff, !Z.leb_gt. lia. }
  assert (H95 : (c =? GUION_BAJO) = false) by (apply Z.eqb_neq; unfold GUION_BAJO; lia).
  split; [done|]. split; [done|]. split; [|split].
  - unfold ascii_lower.
    assert ((65 <=? c) && (c <=? 90) = false) as ->; [|done].
    rewrite andb_false_iff, !Z.leb_gt. lia.
  - unfold slug_drop. rewrite Hsp, H95, isalnum_ascii by done.
    apply negb_false_iff. unfold ascii_isalnum, GUION.
    rewrite !orb_true_iff, !andb_true_iff, !Z.leb_le, Z.eqb_eq. lia.
  - unfold slug_sep. by rewrite Hsp, H95.
Qed.

Lemma sub_runs_fixed (in_run : bool) (u : list Z) :
  Forall (λ c, slug_char c = true) u → guiones_sueltos u →
  (in_run = true → head u ≠ Some GUION) →
  Re.sub_runs sep [GUION] in_run u = u.
Proof.
  revert in_run. induction u as [|c r IH]; intros in_run Hall Hg Hh; simpl; [done|].
  apply Forall_cons in Hall as [Hc Hall]. destruct Hg as [Hg1 Hg].
  destruct (slug_char_facts c Hc) as (_ & _ & _ & _ & ->).
  destruct (c =? GUION) eqn:E.
  - apply Z.eqb_eq in E as ->.
    destruct in_run; [by destruct Hh|]. simpl. f_equal.
    apply IH; [done | done |]. intros _.
    destruct r as [|c2 r']; [done|]. simpl. intros [= ->]. by apply Hg1.
  - f_equal. apply IH; [done | done | done].
Qed.

(** A text that has the shape of an ASCII slug is left as it is by each
    step. *)
Lemma slug_fixed (u : list Z) :
  u ≠ [] → (length u <= 60)%nat →
  Forall (λ c, slug_char c = true) u → guiones_sueltos u →
  slugify isspace isalnum lower u = u.
Proof.
  intros Hne Hlen Hall Hg. unfold slugify.
  rewrite strip_by_fixed
    by (eapply Forall_impl; [exact Hall|]; intros c Hc; by apply slug_char_facts).
  rewrite lower_ascii
    by (eapply Forall_impl; [exact Hall|]; intros c Hc; by apply slug_char_facts).
  assert (map ascii_lower u = u) as ->.
  { clear -Hall tablas. induction Hall as [|c u Hc _ IH]; simpl; [done|].
    destruct (slug_char_facts c Hc) as (_ & _ & -> & _). by rewrite IH. }
  rewrite sub_chars_fixed
    by (eapply Forall_impl; [exact Hall|]; intros c Hc; by apply slug_char_facts).
  rewrite sub_runs_fixed by done.
  destruct u as [|c u]; [done|]. simpl empty. simpl negb. cbv iota.
  by rewrite take_ge.
Qed.

Lemma slugify_ascii (text : list Z) :
  es_ascii text →
  Forall (λ c, slug_char c = true) (slugify isspace isalnum lower text).
Proof.
  intros Hascii. unfold slugify.
  rewrite lower_ascii by by apply strip_by_Forall.
  set (text1 := map ascii_lower (Py.strip_by isspace text)).
  set (text2 := Re.sub_chars drop [] text1).
  assert (Hall2 : Forall (λ c, sep c = false → slug_char c = true) text2).
  { apply Forall_forall. intros c Hc Hs.
    assert (Hd : drop c = false).
    { pose proof (sub_chars_kept drop text1) as Hk.
      eapply Forall_forall in Hk; [exact Hk | exact Hc]. }
    assert (Hin : c ∈ text1).
    { eapply elem_of_sublist; [exact Hc | apply sub_chars_sublist]. }
    apply list_elem_of_In, in_map_iff in Hin as (c0 & <- & Hc0).
    apply slug_kept_ascii; [|done..].
    pose proof (strip_by_Forall _ isspace text Hascii) as Hst.
    eapply Forall_forall in Hst; [exact Hst | by apply list_elem_of_In]. }
  destruct (sub_runs_slug (λ c, slug_char c = true) false text2 eq_refl Hall2)
    as (Ha & _ & _).
  destruct (Re.sub_runs sep [GUION] false text2) as [|c text3].
  - simpl negb. cbv iota. vm_compute. repeat constructor.
  - simpl empty. simpl negb. cbv iota. by apply Forall_take.
Qed.

Lemma cliente_chars :
  Forall (λ c, c = GUION ∨ (isalnum c = true ∧ isspace c = false ∧ c ≠ GUION_BAJO))
         (ustr "cliente").
Proof.
  assert (Hc : Forall (λ c, ascii_isalnum c = true ∧ ascii_isspace c = false
                            ∧ c ≠ GUION_BAJO) (ustr "cliente"))
    by (vm_compute; repeat constructor; discriminate).
  pose proof ustr_cliente_ascii as Hr.
  apply Forall_forall. intros c Hin.
  rewrite Forall_forall in Hc. unfold es_ascii in Hr. rewrite Forall_forall in Hr.
  specialize (Hc c Hin). specialize (Hr c Hin).
  right. by rewrite isalnum_ascii, isspace_ascii.
Qed.

End Slugify_facts.

(** The sample tables answer on ASCII as the ASCII tables do. *)
Lemma latin1_conforme : conforme latin1_isspace latin1_isalnum latin1_lower.
Proof.
  split; [|split].
  - intros c Hc. unfold latin1_isspace.
    assert ((c =? 133) = false) as -> by (apply Z.eqb_neq; lia).
    assert ((c =? 160) = false) as -> by (apply Z.eqb_neq; lia).
    by rewrite !orb_false_r.
  - intros c Hc. unfold latin1_isalnum.
    repeat match goal with
           | |- context [?a =? ?b] =>
               replace (a =? b) with false by (symmetry; apply Z.eqb_neq; lia)
           end.
    assert ((188 <=? c) = false) as -> by (apply Z.leb_gt; lia).
    assert ((192 <=? c) = false) as -> by (apply Z.leb_gt; lia).
    simpl. by rewrite !orb_false_r.
  - intros s Hs. unfold latin1_lower. apply map_ext_Forall.
    eapply Forall_impl; [exact Hs|]. intros c Hc. cbv beta in Hc |- *.
    unfold latin1_lower_char, ascii_lower.
    assert ((192 <=? c) = false) as -> by (apply Z.leb_gt; lia).
    simpl. by rewrite orb_false_r.
Qed.

(** The name with accents of the sample keeps them in its slug. *)
Example slugify_nombre :
  slugify latin1_isspace latin1_isalnum latin1_lower nombre_ejemplo = slug_ejemplo.
Proof. vm_compute. reflexivity. Qed.

Example slugify_vacio :
  slugify latin1_isspace latin1_isalnum latin1_lower (ustr " ?! ") = ustr "cliente".
Proof. vm_compute. reflexivity. Qed.

(** A blank between two signs is all that is left, as a hyphen. *)
Example slugify_guion :
  slugify latin1_isspace latin1_isalnum latin1_lower (ustr " ?! ... ") = ustr "-".
Proof. vm_compute. reflexivity. Qed.

(** X16.  The shape of a slug.  Whatever the text and whatever the
    Unicode tables, [slugify] gives a text that is not empty, has at most
    60 characters and no two hyphens side by side.  With tables that
    answer on ASCII as Unicode does, each of its characters is a hyphen or
    an alphanumeric character that is neither a space nor the underscore
    (an accented letter is kept); and when the text is ASCII the result
    holds only small letters, digits and hyphens, and is its own slug. *)
Theorem slugify_shape
    (isspace isalnum : Z → bool) (lower : list Z → list Z) (text : list Z) :
  slugify isspace isalnum lower text ≠ []
  ∧ (length (slugify isspace isalnum lower text) <= 60)%nat
  ∧ guiones_sueltos (slugify isspace isalnum lower text)
  ∧ (conforme isspace isalnum lower →
     Forall (λ c, c = GUION ∨ (isalnum c = true ∧ isspace c = false ∧ c ≠ GUION_BAJO))
            (slugify isspace isalnum lower text)
     ∧ (es_ascii text →
        Forall (λ c, slug_char c = true) (slugify isspace isalnum lower text)
        ∧ slugify isspace isalnum lower (slugify isspace isalnum lower text)
          = slugify isspace isalnum lower text)).
Proof.
  destruct (slugify_any isspace isalnum lower text) as (Hne & Hlen & Hg & Hchars).
  split; [done|]. split; [done|]. split; [done|].
  intros Htab. split.
  - destruct Hchars as [->|Hchars]; [exact (cliente_chars isspace isalnum lower Htab)|].
    eapply Forall_impl; [exact Hchars|]. intros c [->|[Hd Hs]]; [by left|].
    right. by destruct (slug_kept isspace isalnum c Hd Hs) as (? & ? & ? & _).
  - intros Hascii.
    pose proof (slugify_ascii isspace isalnum lower Htab text Hascii) as Hall.
    split; [done|]. by apply slug_fixed.
Qed.

Lemma slugify_shape_witness :
  Forall (λ c, slug_char c = true)
         (slugify latin1_isspace latin1_isalnum latin1_lower (ustr "  Ana_Maria  PEREZ-2 "))
  ∧ slugify latin1_isspace latin1_isalnum latin1_lower
      (slugify latin1_isspace latin1_isalnum latin1_lower (ustr "  Ana_Maria  PEREZ-2 "))
    = slugify latin1_isspace latin1_isalnum latin1_lower (ustr "  Ana_Maria  PEREZ-2 ").
Proof.
  destruct (slugify_shape latin1_isspace latin1_isalnum latin1_lower
              (ustr "  Ana_Maria  PEREZ-2 ")) as (_ & _ & _ & H).
  apply H; [apply latin1_conforme|].
  unfold es_ascii. vm_compute. repeat constructor; discriminate.
Defined.

(** ** The two parsers of times *)

(** A text without white space is left as it is by [strip]. *)
Lemma strip_fixed (u : list ascii) :
  Forall (λ c, Py.isspace c = false) u → Py.strip u = u.
Proof.
  intros Hall.
  assert (Hl : ∀ v, Forall (λ c, Py.isspace c = false) v → Py.lstrip v = v).
  { intros [|c v] Hv; [done|]. simpl. apply Forall_cons in Hv as [-> _]. done. }
  unfold Py.strip, Py.rstrip. rewrite (Hl u Hall), Hl; [apply rev_involutive|].
  by apply Forall_rev.
Qed.

Lemma digit_char_facts (c : ascii) :
  Py.isdigit c = true →
  Py.isspace c = false ∧ Ascii.eqb c ":" = false ∧ In c (str "0123456789").
Proof.
  destruct c as [[] [] [] [] [] [] [] []]; vm_compute; intros; try discriminate;
    (split; [reflexivity|]; split; [reflexivity|]);
    repeat first [left; reflexivity | right].
Qed.

Lemma class_digit (c : ascii) :
  (between 48 51 c = true → Py.isdigit c = true)
  ∧ (between 48 49 c = true → Py.isdigit c = true)
  ∧ (between 48 53 c = true → Py.isdigit c = true).
Proof.
  destruct c as [[] [] [] [] [] [] [] []]; vm_compute; auto.
Qed.

(** What [%H] and [%M] can match: one digit, or two. *)
Lemma match_H_shape (s : list ascii) (h : Z) (r : list ascii) :
  (h, r) ∈ match_H s →
  (∃ c, s = c :: r ∧ Py.isdigit c = true ∧ h = Py.digit_value c)
  ∨ (∃ c1 c2, s = c1 :: c2 :: r ∧ Py.isdigit c1 = true ∧ Py.isdigit c2 = true
              ∧ h = 10 * Py.digit_value c1 + Py.digit_value c2).
Proof.
  destruct s as [|c1 s]; simpl; [by intros ?%elem_of_nil|].
  intros Hin. apply elem_of_app in Hin as [Hin|Hin].
  - destruct s as [|c2 s]; [by apply elem_of_nil in Hin|].
    apply elem_of_app in Hin as [Hin|Hin].
    + destruct (Ascii.eqb c1 "2") eqn:E1; [|by apply elem_of_nil in Hin].
      destruct (between 48 51 c2) eqn:E2; [|by apply elem_of_nil in Hin].
      simpl in Hin. apply elem_of_cons in Hin as [[= -> ->]|Hin];
        [|by apply elem_of_nil in Hin].
      apply Ascii.eqb_eq in E1 as ->. apply class_digit in E2.
      right. exists "2"%char, c2. by repeat split.
    + destruct (between 48 49 c1) eqn:E1; [|by apply elem_of_nil in Hin].
      destruct (Py.isdigit c2) eqn:E2; [|by apply elem_of_nil in Hin].
      simpl in Hin. apply elem_of_cons in Hin as [[= -> ->]|Hin];
        [|by apply elem_of_nil in Hin].
      apply class_digit in E1. right. exists c1, c2. by repeat split.
  - destruct (Py.isdigit c1) eqn:E1; [|by apply elem_of_nil in Hin].
    apply elem_of_cons in Hin as [[= -> ->]|Hin]; [|by apply elem_of_nil in Hin].
    left. exists c1. by repeat split.
Qed.

Lemma match_M_shape (s : list ascii) (m : Z) (r : list ascii) :
  (m, r) ∈ match_M s →
  (∃ c, s = c :: r ∧ Py.isdigit c = true ∧ m = Py.digit_value c)
  ∨ (∃ c1 c2, s = c1 :: c2 :: r ∧ Py.isdigit c1 = true ∧ Py.isdigit c2 = true
              ∧ m = 10 * Py.digit_value c1 + Py.digit_value c2).
Proof.
  destruct s as [|c1 s]; simpl; [by intros ?%elem_of_nil|].
  intros Hin. apply elem_of_app in Hin as [Hin|Hin].
  - destruct s as [|c2 s]; [by apply elem_of_nil in Hin|].
    destruct (between 48 53 c1) eqn:E1; [|by apply elem_of_nil in Hin].
    destruct (Py.isdigit c2) eqn:E2; [|by apply elem_of_nil in Hin].
    simpl in Hin. apply elem_of_cons in Hin as [[= -> ->]|Hin];
      [|by apply elem_of_nil in Hin].
    apply class_digit in E1. right. exists c1, c2. by repeat split.
  - destruct (Py.isdigit c1) eqn:E1; [|by apply elem_of_nil in Hin].
    apply elem_of_cons in Hin as [[= -> ->]|Hin]; [|by apply elem_of_nil in Hin].
    left. exists c1. by repeat split.
Qed.

Ltac digit_cases H :=
  apply digit_char_facts in H as (_ & _ & H); simpl in H;
  repeat (destruct H as [<-|H]); [..|destruct H].

(** [int] reads one or two digits as their value. *)
Lemma int_one_digit (c : ascii) :
  Py.isdigit c = true → Py.int [c] = Ok (Py.digit_value c).
Proof. intros H. digit_cases H; reflexivity. Qed.

Lemma int_two_digits (c1 c2 : ascii) :
  Py.isdigit c1 = true → Py.isdigit c2 = true →
  Py.int [c1; c2] = Ok (10 * Py.digit_value c1 + Py.digit_value c2).
Proof. intros H1 H2. digit_cases H1; digit_cases H2; reflexivity. Qed.

Lemma split_no_colon (ms : list ascii) :
  Forall (λ c, Py.isdigit c = true) ms → Py.split ":" ms = [ms].
Proof.
  induction 1 as [|c ms Hc _ IH]; simpl; [done|].
  destruct (digit_char_facts c Hc) as (_ & -> & _). by rewrite IH.
Qed.

Lemma split_first_colon (hs ms : list ascii) :
  Forall (λ c, Py.isdigit c = true) hs →
  Forall (λ c, Py.isdigit c = true) ms →
  Py.split ":" (hs ++ ":"%char :: ms) = [hs; ms].
Proof.
  intros Hhs Hms. induction Hhs as [|c hs Hc _ IH]; simpl.
  - by rewrite split_no_colon.
  - destruct (digit_char_facts c Hc) as (_ & -> & _). by rewrite IH.
Qed.

Lemma to_time_of_parts (x : string) (hs ms : list ascii) (h m : Z) (t : time) :
  str x = hs ++ ":"%char :: ms →
  Forall (λ c, Py.isdigit c = true) hs →
  Forall (λ c, Py.isdigit c = true) ms →
  Py.int hs = Ok h → Py.int ms = Ok m → mk_time h m = Ok t →
  to_time x = Ok (Some t).
Proof.
  intros Hx Hhs Hms Hh Hm Ht. unfold to_time. rewrite Hx.
  rewrite strip_fixed.
  - assert (empty (hs ++ ":"%char :: ms) = false) as -> by (by destruct hs).
    assert (Py.contains ":" (hs ++ ":"%char :: ms) = true) as ->.
    { unfold Py.contains. rewrite existsb_app. simpl. apply orb_true_r. }
    simpl. rewrite split_first_colon by done. simpl.
    rewrite Hh, Hm. simpl. by rewrite Ht.
  - apply Forall_app. split; [|constructor; [reflexivity|]];
      (eapply Forall_impl; [eassumption|]); intros c Hc; by apply digit_char_facts.
Qed.

(** X17.  The two parsers agree.  Every text that
    [strptime(..., "%H:%M")] reads (the parser of the appointment rows) is
    read by [to_time] (the parser of the windows) as the same time. *)
Theorem strptime_then_to_time (x : string) (t : time) :
  strptime_HM (str x) = Ok t → to_time x = Ok (Some t).
Proof.
  unfold strptime_HM. intros H.
  destruct (match_HM (str x)) as [|[[h m] rest] l] eqn:E; [done|].
  destruct rest as [|? ?]; [|done].
  assert (Hin : (h, m, []) ∈ match_HM (str x)) by (rewrite E; apply list_elem_of_here).
  unfold match_HM in Hin.
  apply list_elem_of_bind in Hin as ([h' r1] & Hin & HH).
  apply list_elem_of_bind in Hin as (r2 & Hin & Hcolon).
  apply list_elem_of_bind in Hin as ([m' r3] & Hin & HM).
  apply list_elem_of_singleton in Hin. injection Hin as <- <- <-.
  assert (r1 = ":"%char :: r2) as ->.
  { unfold match_colon in Hcolon. destruct r1 as [|c r1]; [by apply elem_of_nil in Hcolon|].
    destruct (Ascii.eqb c ":") eqn:Ec; [|by apply elem_of_nil in Hcolon].
    apply list_elem_of_singleton in Hcolon as ->. by apply Ascii.eqb_eq in Ec as ->. }
  apply match_H_shape in HH. apply match_M_shape in HM.
  destruct HH as [(c & Hs & Hc & ->)|(c1 & c2 & Hs & Hc1 & Hc2 & ->)];
    destruct HM as [(d & -> & Hd & ->)|(d1 & d2 & -> & Hd1 & Hd2 & ->)].
  - eapply (to_time_of_parts x [c] [d]); [done | repeat constructor; done..| | | done];
      by apply int_one_digit.
  - eapply (to_time_of_parts x [c] [d1; d2]);
      [done | repeat constructor; done..| | | done];
      [by apply int_one_digit | by apply int_two_digits].
  - eapply (to_time_of_parts x [c1; c2] [d]);
      [done | repeat constructor; done..| | | done];
      [by apply int_two_digits | by apply int_one_digit].
  - eapply (to_time_of_parts x [c1; c2] [d1; d2]);
      [done | repeat constructor; done..| | | done];
      by apply int_two_digits.
Qed.

Lemma strptime_then_to_time_witness : to_time "9:05" = Ok (Some (Hora 9 5)).
Proof. apply (strptime_then_to_time "9:05" (Hora 9 5)). reflexivity. Defined.

(** ** The state of a row *)

Lemma libre_replace d buff c_start c_end l1 a a' l2 :
  intervalo d a = intervalo d a' →
  libre d buff c_start c_end (l1 ++ a :: l2) = libre d buff c_start c_end (l1 ++ a' :: l2).
Proof.
  intros Heq. induction l1 as [|r l1 IH]; simpl; [by rewrite Heq | by rewrite IH].
Qed.

(** X18.  Every state but "Cancelado" blocks alike.  Two rows with the
    same date, [inicio] and [fin] whose states both differ from
    "Cancelado" ("Confirmado", "Reprogramado", "No-show", "Realizado" or
    any other text) are interchangeable: the outcome is the same with one
    or the other. *)
Theorem generar_slots_state_blind
    (disponibilidad : gmap Z (list tramo)) (buffer_min : Z) (fuel : nat)
    (d : date) (dur_min : Z) (pre : list turno) (a a' : turno) (post : list turno)
    (step_min : Z) :
  fecha a' = fecha a → inicio a' = inicio a → fin a' = fin a →
  estado a ≠ "Cancelado"%string → estado a' ≠ "Cancelado"%string →
  generar_slots_en disponibilidad buffer_min fuel d dur_min (pre ++ a :: post) step_min
  = generar_slots_en disponibilidad buffer_min fuel d dur_min (pre ++ a' :: post) step_min.
Proof.
  intros Hf Hi Hfin He He'. apply generar_slots_en_ext. intros buff c_start c_end.
  rewrite !activos_de_filter, !List.filter_app. simpl.
  assert (Hb : bloquea d a' = bloquea d a).
  { destruct (bloquea d a) eqn:E.
    - apply bloquea_true. apply bloquea_true in E as [? _]. split; [congruence | done].
    - destruct (bloquea d a') eqn:E'; [|done].
      apply bloquea_true in E' as [? _].
      assert (bloquea d a = true) by (apply bloquea_true; split; [congruence | done]).
      congruence. }
  rewrite Hb. destruct (bloquea d a); [|done].
  apply libre_replace. unfold intervalo. by rewrite Hi, Hfin.
Qed.

Lemma generar_slots_state_blind_witness :
  generar_slots 100 martes 30 [turno_ocupado] 10
  = generar_slots 100 martes 30 [Turno (Some martes) "10:00" "10:30" "No-show"] 10.
Proof.
  apply (generar_slots_state_blind DEFAULT_DISPONIBILIDAD_CODE BUFFER_MIN_DEFAULT 100
           martes 30 [] turno_ocupado (Turno (Some martes) "10:00" "10:30" "No-show") [] 10);
    (reflexivity || discriminate).
Defined.

(** ** Choosing the zones *)

Lemma fromkeys_elem (seen : gset string) (xs : list string) (x : string) :
  x ∈ fromkeys seen xs ↔ x ∈ xs ∧ x ∉ seen.
Proof.
  revert seen. induction xs as [|y xs IH]; intros seen; simpl.
  - split; [by intros ?%elem_of_nil | by intros [?%elem_of_nil _]].
  - destruct (decide (y ∈ seen)) as [Hy|Hy].
    + split.
      * intros H. apply IH in H as [? ?]. split; [by apply list_elem_of_further | done].
      * intros [H Hn]. apply IH. split; [|done].
        apply elem_of_cons in H as [->|H]; done.
    + split.
      * intros H. apply elem_of_cons in H as [->|H]; [split; [apply list_elem_of_here | done]|].
        apply IH in H as [? Hn]. split; [by apply list_elem_of_further|].
        intros Hs. apply Hn, elem_of_union. by right.
      * intros [H Hn]. apply elem_of_cons.
        destruct (decide (x = y)) as [->|Hne]; [by left|]. right. apply IH.
        apply elem_of_cons in H as [->|H]; [done|]. split; [done|].
        intros [Hs%elem_of_singleton|Hs]%elem_of_union; done.
Qed.

Lemma fromkeys_NoDup (seen : gset string) (xs : list string) : NoDup (fromkeys seen xs).
Proof.
  revert seen. induction xs as [|y xs IH]; intros seen; simpl; [constructor|].
  destruct (decide (y ∈ seen)); [apply IH|].
  constructor; [|apply IH]. intros H. apply fromkeys_elem in H as [_ H].
  apply H, elem_of_union. left. by apply elem_of_singleton.
Qed.

Ltac explode_rules H :=
  repeat (apply elem_of_cons in H as [[= -> ->]|H]); [..|by apply elem_of_nil in H].

Ltac explode_texts H :=
  repeat (apply elem_of_cons in H as [->|H]); [..|by apply elem_of_nil in H].

(** The groups share no member. *)
Lemma GROUP_RULES_disjoint g1 ms1 g2 ms2 z :
  (g1, ms1) ∈ GROUP_RULES → (g2, ms2) ∈ GROUP_RULES → z ∈ ms1 → z ∈ ms2 →
  g1 = g2 ∧ ms1 = ms2.
Proof.
  unfold GROUP_RULES. intros H1 H2 Hz1 Hz2.
  explode_rules H1; explode_rules H2; try done;
    explode_texts Hz1; apply isin_true in Hz2; vm_compute in Hz2; discriminate.
Qed.

Lemma elem_of_usados_en_grupos g ms z :
  (g, ms) ∈ GROUP_RULES → z ∈ ms → isin z usados_en_grupos = true.
Proof.
  intros Hg Hz. apply isin_true. unfold usados_en_grupos.
  apply list_elem_of_In, in_flat_map. exists (g, ms).
  split; by apply list_elem_of_In.
Qed.

Section Zonas_facts.
Variable radio : string → list string → string.
Variable multiselect : list string → list string.
Hypothesis radio_answers : ∀ label o os, radio label (o :: os) ∈ o :: os.
Hypothesis multiselect_answers : ∀ options z, z ∈ multiselect options → z ∈ options.
Variable zonas_tipo : list string.

Lemma elem_of_presentes ms z :
  z ∈ presentes zonas_tipo ms ↔ z ∈ ms ∧ z ∈ zonas_tipo.
Proof.
  unfold presentes. rewrite list_elem_of_In, filter_In, isin_true, <- list_elem_of_In. done.
Qed.

(** An answer kept by the loop over the groups is the answer of a group
    with two present members at least, and one of these members. *)
Lemma elem_of_seleccion_grupos rules z :
  z ∈ seleccion_grupos radio zonas_tipo rules →
  ∃ g ms, (g, ms) ∈ rules ∧ (2 <= length (presentes zonas_tipo ms))%nat
          ∧ z = radio g ("Ninguna"%string :: presentes zonas_tipo ms)
          ∧ z ∈ presentes zonas_tipo ms.
Proof.
  induction rules as [|[g ms] rules IH]; [by intros ?%elem_of_nil|].
  intros H.
  change (z ∈ (if (2 <=? length (presentes zonas_tipo ms))%nat then
                 if negb (String.eqb (radio g ("Ninguna"%string :: presentes zonas_tipo ms))
                                     "Ninguna")
                 then [radio g ("Ninguna"%string :: presentes zonas_tipo ms)] else []
               else []) ++ seleccion_grupos radio zonas_tipo rules) in H.
  apply elem_of_app in H as [H|H].
  - destruct (2 <=? length (presentes zonas_tipo ms))%nat eqn:E;
      [|by apply elem_of_nil in H].
    apply Nat.leb_le in E.
    destruct (String.eqb (radio g _) "Ninguna") eqn:En; cbn [negb] in H;
      [by apply elem_of_nil in H|].
    apply list_elem_of_singleton in H as ->.
    exists g, ms. split; [apply list_elem_of_here|]. split; [done|]. split; [done|].
    pose proof (radio_answers g "Ninguna"%string (presentes zonas_tipo ms)) as Hr.
    apply elem_of_cons in Hr as [Hr|Hr]; [|done].
    apply String.eqb_neq in En. done.
  - destruct (IH H) as (g' & ms' & Hin & Hrest).
    exists g', ms'. split; [by apply list_elem_of_further | done].
Qed.

Lemma elem_of_zonas_extra z :
  z ∈ zonas_extra multiselect zonas_tipo →
  z ∈ zonas_tipo ∧ isin z usados_en_grupos = false.
Proof.
  unfold zonas_extra. destruct (negb (empty _)); [|by intros ?%elem_of_nil].
  intros H. apply multiselect_answers in H. unfold zonas_sueltas in H.
  apply list_elem_of_In, filter_In in H as [H Hn].
  split; [by apply list_elem_of_In | by apply negb_true_iff].
Qed.

Lemma elem_of_zonas_final z :
  z ∈ zonas_final radio multiselect zonas_tipo →
  z ∈ seleccion_grupos radio zonas_tipo GROUP_RULES
  ∨ z ∈ zonas_extra multiselect zonas_tipo.
Proof.
  unfold zonas_final. intros H. apply fromkeys_elem in H as [H _].
  by apply elem_of_app in H.
Qed.

(** A chosen zone that belongs to a group is the answer of that group. *)
Lemma zonas_final_group g ms z :
  (g, ms) ∈ GROUP_RULES → z ∈ ms →
  z ∈ zonas_final radio multiselect zonas_tipo →
  (2 <= length (presentes zonas_tipo ms))%nat
  ∧ z = radio g ("Ninguna"%string :: presentes zonas_tipo ms).
Proof.
  intros Hg Hz Hf. apply elem_of_zonas_final in Hf as [Hf|Hf].
  - apply elem_of_seleccion_grupos in Hf as (g' & ms' & Hg' & Hlen & Heq & Hp).
    apply elem_of_presentes in Hp as [Hp _].
    destruct (GROUP_RULES_disjoint _ _ _ _ _ Hg' Hg Hp Hz) as [-> ->]. done.
  - apply elem_of_zonas_extra in Hf as [_ Hf].
    rewrite (elem_of_usados_en_grupos g ms z Hg Hz) in Hf. discriminate.
Qed.

Lemma zonas_final_in_tipo z :
  z ∈ zonas_final radio multiselect zonas_tipo → z ∈ zonas_tipo.
Proof.
  intros Hf. apply elem_of_zonas_final in Hf as [Hf|Hf].
  - apply elem_of_seleccion_grupos in Hf as (g & ms & _ & _ & _ & Hp).
    by apply elem_of_presentes in Hp as [_ ?].
  - by apply elem_of_zonas_extra in Hf as [? _].
Qed.

End Zonas_facts.

Lemma radio_ultimo_answers (label o : string) (os : list string) :
  radio_ultimo label (o :: os) ∈ o :: os.
Proof.
  unfold radio_ultimo. revert o. induction os as [|o' os IH]; intros o.
  - apply list_elem_of_here.
  - apply list_elem_of_further. apply (IH o').
Qed.

(** X19.  The chosen zones.  Whatever the answers of the two widgets
    (the radio answering one of its options, the multiselect some of its
    options), the list of chosen zones holds no
    zone twice, every chosen zone is the zone of a catalogue row of the
    chosen type, and it holds one member at most of each group. *)
Theorem zonas_final_sound
    (radio : string → list string → string) (multiselect : list string → list string)
    (servicios_df : list servicio) (tipo_sel : string) :
  (∀ label o os, radio label (o :: os) ∈ o :: os) →
  (∀ options z, z ∈ multiselect options → z ∈ options) →
  NoDup (zonas_final radio multiselect (zonas_tipo_de servicios_df tipo_sel))
  ∧ (∀ z, z ∈ zonas_final radio multiselect (zonas_tipo_de servicios_df tipo_sel) →
          ∃ r, r ∈ servicios_df ∧ tipo r = tipo_sel ∧ zona r = z)
  ∧ (∀ g ms z1 z2, (g, ms) ∈ GROUP_RULES →
       z1 ∈ zonas_final radio multiselect (zonas_tipo_de servicios_df tipo_sel) →
       z2 ∈ zonas_final radio multiselect (zonas_tipo_de servicios_df tipo_sel) →
       z1 ∈ ms → z2 ∈ ms → z1 = z2).
Proof.
  intros Hradio Hmulti. split; [apply fromkeys_NoDup|]. split.
  - intros z Hz. apply zonas_final_in_tipo in Hz; [|done..].
    unfold zonas_tipo_de in Hz. apply fromkeys_elem in Hz as [Hz _].
    apply list_elem_of_In, in_map_iff in Hz as (r & <- & Hr).
    apply filter_In in Hr as [Hr Hm]. apply andb_true_iff in Hm as [Hm _].
    exists r. split; [by apply list_elem_of_In|]. split; [by apply String.eqb_eq | done].
  - intros g ms z1 z2 Hg Hz1 Hz2 Hm1 Hm2.
    destruct (zonas_final_group radio multiselect Hradio Hmulti _ g ms z1 Hg Hm1 Hz1)
      as [_ ->].
    by destruct (zonas_final_group radio multiselect Hradio Hmulti _ g ms z2 Hg Hm2 Hz2)
      as [_ ->].
Qed.

Lemma zonas_final_sound_witness :
  NoDup (zonas_final radio_ultimo multiselect_todo (zonas_tipo_de catalogo_zonas "Depilacion"))
  ∧ (∀ z, z ∈ zonas_final radio_ultimo multiselect_todo
                (zonas_tipo_de catalogo_zonas "Depilacion") →
          ∃ r, r ∈ catalogo_zonas ∧ tipo r = "Depilacion"%string ∧ zona r = z)
  ∧ (∀ g ms z1 z2, (g, ms) ∈ GROUP_RULES →
       z1 ∈ zonas_final radio_ultimo multiselect_todo
              (zonas_tipo_de catalogo_zonas "Depilacion") →
       z2 ∈ zonas_final radio_ultimo multiselect_todo
              (zonas_tipo_de catalogo_zonas "Depilacion") →
       z1 ∈ ms → z2 ∈ ms → z1 = z2).
Proof.
  apply (zonas_final_sound radio_ultimo multiselect_todo catalogo_zonas "Depilacion").
  - apply radio_ultimo_answers.
  - intros options z Hz. exact Hz.
Defined.

(** X20.  A zone alone in its group cannot be chosen.  A zone that
    belongs to a group of which fewer than two members are zones of the
    chosen type is never among the chosen zones, whatever the answers of
    the widgets: its group shows no choice and the list of the other zones
    leaves out every member of a group. *)
Theorem lone_group_member_not_chosen
    (radio : string → list string → string) (multiselect : list string → list string)
    (zonas_tipo : list string) (g : string) (ms : list string) (z : string) :
  (∀ label o os, radio label (o :: os) ∈ o :: os) →
  (∀ options z, z ∈ multiselect options → z ∈ options) →
  (g, ms) ∈ GROUP_RULES → z ∈ ms →
  (length (presentes zonas_tipo ms) < 2)%nat →
  z ∉ zonas_final radio multiselect zonas_tipo.
Proof.
  intros Hradio Hmulti Hg Hz Hlen Hf.
  destruct (zonas_final_group radio multiselect Hradio Hmulti _ g ms z Hg Hz Hf) as [? _].
  lia.
Qed.

Lemma lone_group_member_not_chosen_witness :
  "Brazos"%string
  ∉ zonas_final radio_ultimo multiselect_todo (zonas_tipo_de catalogo_zonas "Depilacion").
Proof.
  apply (lone_group_member_not_chosen radio_ultimo multiselect_todo
           (zonas_tipo_de catalogo_zonas "Depilacion") "Brazos"
           ["Brazos"; "Medio brazo"]%string "Brazos").
  - apply radio_ultimo_answers.
  - intros options z Hz. exact Hz.
  - unfold GROUP_RULES. apply list_elem_of_further, list_elem_of_here.
  - apply list_elem_of_here.
  - vm_compute. lia.
Defined.

Example zonas_final_ejemplo :
  zonas_final radio_ultimo multiselect_todo (zonas_tipo_de catalogo_zonas "Depilacion")
  = ["Piernas completas"; "Axilas"]%string.
Proof. vm_compute. reflexivity. Qed.

(** ** The types of the selector and the text of the zones *)

Lemma filter_NoDup {A} (f : A → bool) (l : list A) : NoDup l → NoDup (List.filter f l).
Proof. intros H. eapply sublist_NoDup; [exact H | apply filter_sublist]. Qed.

Lemma elem_of_filter {A} (f : A → bool) (l : list A) (x : A) :
  x ∈ List.filter f l ↔ x ∈ l ∧ f x = true.
Proof. rewrite !list_elem_of_In. apply filter_In. Qed.

Lemma filter_all {A} (f : A → bool) (l : list A) :
  (∀ x, x ∈ l → f x = true) → List.filter f l = l.
Proof.
  induction l as [|x l IH]; intros H; simpl; [done|].
  rewrite (H x) by apply list_elem_of_here. f_equal.
  apply IH. intros y Hy. apply H. by apply list_elem_of_further.
Qed.

Lemma fromkeys_sublist (seen : gset string) (xs : list string) :
  fromkeys seen xs `sublist_of` xs.
Proof.
  revert seen. induction xs as [|y xs IH]; intros seen; simpl; [done|].
  destruct (decide (y ∈ seen)); [by apply sublist_cons | by apply sublist_skip].
Qed.

(** The types of the selector, before the preferred ones are moved to the
    front: the types of the rows that are not blank, each one once. *)
Lemma elem_of_tipos_raw (servicios_df : list servicio) (t : string) :
  t ∈ tipos_raw servicios_df ↔
  (∃ r, r ∈ servicios_df ∧ tipo r = t) ∧ Py.strip (str t) ≠ [].
Proof.
  unfold tipos_raw. rewrite elem_of_filter, fromkeys_elem, negb_true_iff.
  assert (Hcol : t ∈ map tipo servicios_df ↔ ∃ r, r ∈ servicios_df ∧ tipo r = t).
  { rewrite list_elem_of_In, in_map_iff. split.
    - intros (r & Hr & Hin). exists r. split; [by apply list_elem_of_In | done].
    - intros (r & Hin & Hr). exists r. split; [done | by apply list_elem_of_In]. }
  rewrite Hcol. split.
  - intros [[Hr _] Hb]. split; [done|]. intros Hs. by rewrite Hs in Hb.
  - intros [Hr Hb]. split; [split; [done | by intros ?%elem_of_empty]|].
    by destruct (Py.strip (str t)).
Qed.

(** X21.  The types of the selector.  The list of types shown holds the
    types of the catalogue rows that are not blank and nothing else, each
    of them once: first those of the preferred types that occur, in the
    order of the preference, then the other types, in the order of the
    rows. *)
Theorem tipos_rearranged (servicios_df : list servicio) :
  NoDup (tipos servicios_df)
  ∧ (∀ t, t ∈ tipos servicios_df ↔
          (∃ r, r ∈ servicios_df ∧ tipo r = t) ∧ Py.strip (str t) ≠ [])
  ∧ ∃ primeros otros,
      tipos servicios_df = primeros ++ otros
      ∧ primeros `sublist_of` prefer
      ∧ otros `sublist_of` map tipo servicios_df
      ∧ ∀ t, t ∈ otros → t ∉ prefer.
Proof.
  assert (Hraw : NoDup (tipos_raw servicios_df))
    by (apply filter_NoDup, fromkeys_NoDup).
  assert (Hpref : NoDup prefer).
  { unfold prefer. repeat constructor.
    - intros H. apply list_elem_of_singleton in H. discriminate.
    - by intros ?%elem_of_nil. }
  split; [|split].
  - unfold tipos. apply NoDup_app. split; [by apply filter_NoDup|].
    split; [|by apply filter_NoDup].
    intros x Hx Hx'. apply elem_of_filter in Hx as [Hx _].
    apply elem_of_filter in Hx' as [_ Hx']. apply negb_true_iff in Hx'.
    apply isin_true in Hx. congruence.
  - intros t. rewrite <- elem_of_tipos_raw.
    unfold tipos. rewrite elem_of_app, !elem_of_filter, isin_true. split.
    + intros [[_ ?]|[? _]]; done.
    + intros Hx. destruct (isin t prefer) eqn:E.
      * left. split; [by apply isin_true | done].
      * right. by split.
  - exists (List.filter (λ t, isin t (tipos_raw servicios_df)) prefer),
           (List.filter (λ t, negb (isin t prefer)) (tipos_raw servicios_df)).
    split; [done|]. split; [apply filter_sublist|]. split.
    + etrans; [apply filter_sublist|]. unfold tipos_raw.
      etrans; [apply filter_sublist | apply fromkeys_sublist].
    + intros t Ht Hp. apply elem_of_filter in Ht as [_ Ht].
      apply negb_true_iff in Ht. apply isin_true in Hp. congruence.
Qed.

(** A catalogue with a blank type, and a preferred type that comes last. *)
Example tipos_ejemplo :
  tipos [Servicio "Facial" "Cara" 40 12000; Servicio "  " "Cara" 40 12000;
         Servicio "Masaje" "Espalda" 30 8000; Servicio "Facial" "Cuello" 10 3000;
         Servicio "Descartable" "Axilas" 10 4000]
  = ["Descartable"; "Facial"; "Masaje"]%string.
Proof. vm_compute. reflexivity. Qed.

Lemma concat_nonempty (sep x : string) (xs : list string) :
  x ≠ ""%string → String.concat sep (x :: xs) ≠ ""%string.
Proof.
  intros Hx. simpl. destruct xs as [|y xs]; [done|].
  destruct x as [|c x]; [done|]. discriminate.
Qed.

(** X22.  The text of the zones.  [humanize_list] gives the empty text
    exactly when every item is blank; and on the zones chosen in the first
    step (whatever the answers of the widgets) it drops nothing: the text
    stored with the appointment is all the chosen zones joined by ", ". *)
Theorem humanize_list_zonas
    (radio : string → list string → string) (multiselect : list string → list string)
    (servicios_df : list servicio) (tipo_sel : string) (items : list string) :
  (humanize_list items = ""%string ↔ ∀ x, x ∈ items → Py.strip (str x) = [])
  ∧ ((∀ label o os, radio label (o :: os) ∈ o :: os) →
     (∀ options z, z ∈ multiselect options → z ∈ options) →
     humanize_list (zonas_final radio multiselect (zonas_tipo_de servicios_df tipo_sel))
     = String.concat ", "
         (zonas_final radio multiselect (zonas_tipo_de servicios_df tipo_sel))).
Proof.
  split.
  - unfold humanize_list. destruct items as [|i items]; [by split; [intros _ x ?%elem_of_nil|]|].
    simpl empty. cbv iota.
    set (f := λ x : string, negb (empty (Py.strip (str x)))).
    split.
    + intros Hempty x Hx.
      destruct (List.filter f (i :: items)) as [|y ys] eqn:E.
      * destruct (Py.strip (str x)) eqn:Ex; [done|].
        assert (x ∈ List.filter f (i :: items)) as Hin
          by (apply elem_of_filter; split; [done | unfold f; by rewrite Ex]).
        rewrite E in Hin. by apply elem_of_nil in Hin.
      * exfalso. eapply concat_nonempty; [|exact Hempty].
        assert (y ∈ List.filter f (i :: items)) as Hin by (rewrite E; apply list_elem_of_here).
        apply elem_of_filter in Hin as [_ Hy]. unfold f in Hy.
        intros ->. discriminate.
    + intros Hblank.
      assert (List.filter f (i :: items) = []) as ->; [|done].
      destruct (List.filter f (i :: items)) as [|y ys] eqn:E; [done|].
      assert (y ∈ List.filter f (i :: items)) as Hin by (rewrite E; apply list_elem_of_here).
      apply elem_of_filter in Hin as [Hy Hfy]. unfold f in Hfy.
      rewrite (Hblank y Hy) in Hfy. discriminate.
  - intros Hradio Hmulti. unfold humanize_list.
    destruct (zonas_final radio multiselect (zonas_tipo_de servicios_df tipo_sel))
      as [|z zs] eqn:E; [done|].
    simpl empty. cbv iota. rewrite filter_all; [done|].
    intros x Hx. rewrite <- E in Hx.
    apply zonas_final_in_tipo in Hx; [|done..].
    unfold zonas_tipo_de in Hx. apply fromkeys_elem in Hx as [Hx _].
    apply list_elem_of_In, in_map_iff in Hx as (r & <- & Hr).
    apply filter_In in Hr as [_ Hm]. by apply andb_true_iff in Hm as [_ Hm].
Qed.

Lemma humanize_list_zonas_witness :
  humanize_list (zonas_final radio_ultimo multiselect_todo
                   (zonas_tipo_de catalogo_zonas "Depilacion"))
  = String.concat ", " (zonas_final radio_ultimo multiselect_todo
                          (zonas_tipo_de catalogo_zonas "Depilacion")).
Proof.
  apply (humanize_list_zonas radio_ultimo multiselect_todo catalogo_zonas "Depilacion" []).
  - apply radio_ultimo_answers.
  - intros options z Hz. exact Hz.
Defined.

Example humanize_list_ejemplo :
  humanize_list ["Piernas completas"; "  "; "Axilas"] = "Piernas completas, Axilas"%string.
Proof. reflexivity. Qed.
